(** * OpenCDK cipher filter (libextra/opencdk/cipher.c)

    A shallow embedding of the symmetric-encryption packet filter: the
    header writer and reader, the partial-length framer, the MDC trailer
    and the two stream loops.  Streams are explicit values, the
    cryptographic library and the packet layer are an interface the
    functions are parameterised over. *)

From Stdlib Require Import ZArith List Bool Lia.
Import ListNotations.
Open Scope Z_scope.

(** ** Constants *)

(** Modelled from the spec: the macro BUFSIZE of main.h, which is not among
    the sources; the spec calls it MAX_CHUNK, a fixed buffer-size constant,
    and uses the value 8192. *)
Definition BUFSIZE : Z := 8192.

(** Modelled from the spec: the macro DEF_BLOCKBITS of main.h; a partial
    chunk of 2^n bytes is announced as 0xE0 | n, and the chunk of BUFSIZE
    bytes is 2^13. *)
Definition DEF_BLOCKBITS : Z := 13.

(** The digest identifier GCRY_MD_SHA1 of gcrypt.h. *)
Definition GCRY_MD_SHA1 : Z := 2.

(** Values of type [size_t] (64 bits) wrap around. *)
Definition size_t (z : Z) : Z := z mod 2 ^ 64.

(** [(size_t) EOF], the failure value of [_cdk_pkt_read_len]. *)
Definition SIZE_T_EOF : Z := size_t (-1).

(** The conversion of an integer to [int] (32 bits, two's complement). *)
Definition to_int (z : Z) : Z := (z + 2 ^ 31) mod 2 ^ 32 - 2 ^ 31.

(** ** Error codes *)

(** The members of [cdk_error_t] the filter returns.  Only [CDK_Success] is
    zero.  [CDK_Gcry_Raw] stands for a library error code stored in a
    [cdk_error_t] without mapping, as [write_partial_block] does. *)
Inductive cdk_error_t : Type :=
| CDK_EOF
| CDK_Success
| CDK_File_Error
| CDK_Inv_Packet
| CDK_Inv_Algo
| CDK_Inv_Value
| CDK_Chksum_Error
| CDK_Bad_MDC
| CDK_Inv_Mode
| CDK_Gcry_Raw (code : Z).

(** The test [if (rc)]. *)
Definition failed (rc : cdk_error_t) : bool :=
  match rc with
  | CDK_Success => false
  | _ => true
  end.

Definition cdk_of_gcry (err : Z) : cdk_error_t :=
  if err =? 0 then CDK_Success else CDK_Gcry_Raw err.

(** ** Streams *)

(** An input stream: the size [fstat] reports (if it succeeds), the bytes
    not yet read and the end-of-file indicator. *)
Record FILE : Type := mkFILE {
  f_stat : option Z;
  f_rest : list Z;
  f_eof : bool
}.

Definition feof (f : FILE) : bool := f_eof f.

Definition fp_get_length (fp : FILE) : Z :=
  match f_stat fp with
  | None => -1
  | Some sz => sz
  end.

(** [fread (buf, 1, n, f)]: the indicator is set only when fewer than [n]
    bytes are left; a request for zero bytes changes nothing. *)
Definition fread (n : Z) (f : FILE) : list Z * FILE :=
  if n <=? Z.of_nat (length (f_rest f))
  then (firstn (Z.to_nat n) (f_rest f),
        mkFILE (f_stat f) (skipn (Z.to_nat n) (f_rest f)) (f_eof f))
  else (f_rest f, mkFILE (f_stat f) [] true).

(** [fgetc]: [None] is EOF. *)
Definition fgetc (f : FILE) : option Z * FILE :=
  match f_rest f with
  | [] => (None, mkFILE (f_stat f) [] true)
  | c :: r => (Some c, mkFILE (f_stat f) r (f_eof f))
  end.

(** An output stream is the list of bytes written so far. *)
Definition fputc (c : Z) (out : list Z) : list Z := out ++ [c mod 256].

Definition fwrite (buf : list Z) (out : list Z) : list Z := out ++ buf.

(** ** Packets and keys *)

Inductive cdk_packet_type_t : Type :=
| CDK_PKT_ENCRYPTED
| CDK_PKT_ENCRYPTED_MDC.

Record cdk_pkt_encrypted_t : Type := mkEncrypted {
  ed_len : Z;
  ed_extralen : Z;
  ed_mdc_method : Z
}.

Record cdk_packet_t : Type := mkPacket {
  pkttype : cdk_packet_type_t;
  old_ctb : Z;
  pkt_encrypted : cdk_pkt_encrypted_t
}.

Record cdk_dek_t : Type := mkDek {
  algo : Z;
  key : list Z;
  keylen : Z;
  use_mdc : Z;
  rfc1991 : Z
}.

(** A digest handle: the algorithm it was opened with, the bytes written
    to it so far and whether [gcry_md_final] has run. *)
Record gcry_md_hd_t : Type := mkMd {
  md_algo : Z;
  md_buf : list Z;
  md_finalized : bool
}.

Definition gcry_md_write (m : gcry_md_hd_t) (buf : list Z) : gcry_md_hd_t :=
  mkMd (md_algo m) (md_buf m ++ buf) (md_finalized m).

Definition gcry_md_final (m : gcry_md_hd_t) : gcry_md_hd_t :=
  mkMd (md_algo m) (md_buf m) true.

(** ** The interface to the cipher library and the packet layer *)

(** What cipher.c calls and does not define: libgcrypt's cipher and digest
    primitives, and the packet writer, the length reader and the error
    mapping of OpenCDK (write-packet.c, read-packet.c, main.c).  The cipher
    and digest operations work in place on a buffer of known size, which
    the length laws record. *)
Record externals : Type := mkExternals {
  gcry_cipher_hd_t : Type;
  gcry_cipher_get_algo_blklen : Z -> Z;
  (* algorithm, GCRY_CIPHER_ENABLE_SYNC set or not; the mode is CFB *)
  gcry_cipher_open : Z -> bool -> Z * gcry_cipher_hd_t;
  (* setiv (hd, NULL, 0) *)
  gcry_cipher_setiv : gcry_cipher_hd_t -> Z * gcry_cipher_hd_t;
  gcry_cipher_setkey : gcry_cipher_hd_t -> list Z -> Z -> Z * gcry_cipher_hd_t;
  gcry_cipher_encrypt : gcry_cipher_hd_t -> list Z -> Z * gcry_cipher_hd_t * list Z;
  gcry_cipher_decrypt : gcry_cipher_hd_t -> list Z -> Z * gcry_cipher_hd_t * list Z;
  gcry_cipher_sync : gcry_cipher_hd_t -> gcry_cipher_hd_t;
  (* the error code of gcry_md_open for an algorithm *)
  gcry_md_open : Z -> Z;
  gcry_md_get_algo_dlen : Z -> Z;
  gcry_md_read : gcry_md_hd_t -> Z -> list Z;
  gcry_randomize : Z -> list Z;
  map_gcry_error : Z -> cdk_error_t;
  (* the bytes the packet writer emits for a packet, and its result *)
  _cdk_pkt_write_fp : cdk_packet_t -> cdk_error_t * list Z;
  (* stream and partial flag to length, new partial flag and stream *)
  _cdk_pkt_read_len : FILE -> Z -> Z * Z * FILE;
  encrypt_length : forall hd buf,
    length (snd (gcry_cipher_encrypt hd buf)) = length buf;
  decrypt_length : forall hd buf,
    length (snd (gcry_cipher_decrypt hd buf)) = length buf;
  md_read_length : forall m a,
    Z.of_nat (length (gcry_md_read m a)) = gcry_md_get_algo_dlen a;
  randomize_length : forall n,
    length (gcry_randomize n) = Z.to_nat n;
  (* reading a length only consumes input *)
  read_len_rest : forall f on,
    (length (f_rest (snd (_cdk_pkt_read_len f on))) <= length (f_rest f))%nat
}.

(** ** The filter *)

Section Filter.

Variable X : externals.

(** The filter context [cipher_filter_t].  The structure is declared in
    filters.h, which is not among the sources; its integer fields are
    taken as unbounded integers, which is exact as long as the values fit
    the fields. *)
Record cipher_filter_t : Type := mkCfx {
  hd : gcry_cipher_hd_t X;
  mdc : option gcry_md_hd_t;
  mdc_method : Z;
  dek : cdk_dek_t;
  datalen : Z;
  blkmode_on : Z;
  blkmode_size : Z;
  blkmode_nleft : Z
}.

Definition set_hd (c : cipher_filter_t) (h : gcry_cipher_hd_t X) :=
  mkCfx h (mdc c) (mdc_method c) (dek c) (datalen c)
        (blkmode_on c) (blkmode_size c) (blkmode_nleft c).

Definition set_mdc (c : cipher_filter_t) (m : option gcry_md_hd_t) :=
  mkCfx (hd c) m (mdc_method c) (dek c) (datalen c)
        (blkmode_on c) (blkmode_size c) (blkmode_nleft c).

Definition set_datalen (c : cipher_filter_t) (n : Z) :=
  mkCfx (hd c) (mdc c) (mdc_method c) (dek c) n
        (blkmode_on c) (blkmode_size c) (blkmode_nleft c).

Definition set_on (c : cipher_filter_t) (n : Z) :=
  mkCfx (hd c) (mdc c) (mdc_method c) (dek c) (datalen c)
        n (blkmode_size c) (blkmode_nleft c).

Definition set_size (c : cipher_filter_t) (n : Z) :=
  mkCfx (hd c) (mdc c) (mdc_method c) (dek c) (datalen c)
        (blkmode_on c) n (blkmode_nleft c).

Definition set_nleft (c : cipher_filter_t) (n : Z) :=
  mkCfx (hd c) (mdc c) (mdc_method c) (dek c) (datalen c)
        (blkmode_on c) (blkmode_size c) n.

(** [buf[i]] for an index known to lie inside the buffer. *)
Definition byte_at (buf : list Z) (i : Z) : Z := nth (Z.to_nat i) buf 0.

(** [gcry_md_open (&h, algo, 0)]: the handle is null on failure. *)
Definition md_open (a : Z) : Z * option gcry_md_hd_t :=
  let err := gcry_md_open X a in
  (err, if err =? 0 then Some (mkMd a [] false) else None).

(** [if (cfx->mdc) gcry_md_write (cfx->mdc, buf, n)]. *)
Definition mdc_write (c : cipher_filter_t) (buf : list Z) : cipher_filter_t :=
  match mdc c with
  | Some m => set_mdc c (Some (gcry_md_write m buf))
  | None => c
  end.

(** *** write_header *)

(** The local [use_mdc]: the caller's flag, overridden for every block
    size other than 8. *)
Definition header_use_mdc (cfx : cipher_filter_t) : Z :=
  if negb (gcry_cipher_get_algo_blklen X (algo (dek cfx)) =? 8)
  then 1 else use_mdc (dek cfx).

(** [cfx->datalen] after [if (use_mdc && cfx->datalen) cfx->datalen += 22]. *)
Definition header_datalen (cfx : cipher_filter_t) : Z :=
  if negb (header_use_mdc cfx =? 0) && negb (datalen cfx =? 0)
  then datalen cfx + 22 else datalen cfx.

(** The packet handed to [_cdk_pkt_write_fp]: [cdk_pkt_alloc] gives a
    zeroed packet, the assignments to [ed] and [pkt] fill it in. *)
Definition header_packet (cfx : cipher_filter_t) : cdk_packet_t :=
  let blocksize := gcry_cipher_get_algo_blklen X (algo (dek cfx)) in
  let use_mdc := header_use_mdc cfx in
  mkPacket
    (if negb (use_mdc =? 0) then CDK_PKT_ENCRYPTED_MDC else CDK_PKT_ENCRYPTED)
    (if negb (rfc1991 (dek cfx) =? 0) && (blkmode_on cfx =? 0) then 1 else 0)
    (mkEncrypted
       (if blkmode_on cfx =? 0 then header_datalen cfx else 0)
       (if blkmode_on cfx =? 0 then blocksize + 2 else 0)
       (if negb (use_mdc =? 0) then GCRY_MD_SHA1 else 0)).

Definition write_header (cfx : cipher_filter_t) (out : list Z)
  : cdk_error_t * cipher_filter_t * list Z :=
  let dek := dek cfx in
  let blocksize := gcry_cipher_get_algo_blklen X (algo dek) in
  if (blocksize <? 8) || (blocksize >? 16) then (CDK_Inv_Algo, cfx, out) else
  let use_mdc := header_use_mdc cfx in
  let pkt := header_packet cfx in
  let cfx := set_datalen cfx (header_datalen cfx) in
  let cfx := if blkmode_on cfx =? 0 then cfx else set_nleft cfx BUFSIZE in
  let opened :=
    if negb (use_mdc =? 0) then md_open GCRY_MD_SHA1 else (0, mdc cfx) in
  let cfx := set_mdc cfx (snd opened) in
  if negb (fst opened =? 0) then (map_gcry_error X (fst opened), cfx, out) else
  let written := _cdk_pkt_write_fp X pkt in
  let out := fwrite (snd written) out in
  if failed (fst written) then (fst written, cfx, out) else
  let nprefix := blocksize in
  let rnd := gcry_randomize X nprefix in
  let temp := rnd ++ [byte_at rnd (nprefix - 2); byte_at rnd (nprefix - 1)] in
  let o := gcry_cipher_open X (algo dek) (use_mdc =? 0) in
  let cfx := set_hd cfx (snd o) in
  if negb (fst o =? 0) then (map_gcry_error X (fst o), cfx, out) else
  let o := gcry_cipher_setiv X (hd cfx) in
  let cfx := set_hd cfx (snd o) in
  if negb (fst o =? 0) then (map_gcry_error X (fst o), cfx, out) else
  let o := gcry_cipher_setkey X (hd cfx) (key dek) (keylen dek) in
  let cfx := set_hd cfx (snd o) in
  if negb (fst o =? 0) then (map_gcry_error X (fst o), cfx, out) else
  let cfx := mdc_write cfx temp in
  let e := gcry_cipher_encrypt X (hd cfx) temp in
  let cfx := set_hd cfx (gcry_cipher_sync X (snd (fst e))) in
  let out := fwrite (snd e) out in
  let cfx :=
    if negb (blkmode_on cfx =? 0)
    then
      let cfx := set_nleft cfx (blkmode_nleft cfx - (blocksize + 2)) in
      if negb (use_mdc =? 0)
      then set_nleft cfx (blkmode_nleft cfx - (22 + 1))
      else cfx
    else cfx in
  (CDK_Success, cfx, out).

(** *** write_mdc_packet *)

(** [m] is [cfx->mdc], which the caller has tested to be non-null. *)
Definition write_mdc_packet (out : list Z) (cfx : cipher_filter_t)
    (m : gcry_md_hd_t) : cdk_error_t * list Z * cipher_filter_t :=
  let dlen := gcry_md_get_algo_dlen X GCRY_MD_SHA1 in
  if negb (dlen =? 20) then (CDK_Inv_Algo, out, cfx) else
  let m := gcry_md_write m [0xd3; 0x14] in
  let m := gcry_md_final m in
  let pktdata := [0xd3; 0x14] ++ firstn (Z.to_nat dlen) (gcry_md_read X m GCRY_MD_SHA1) in
  let e := gcry_cipher_encrypt X (hd cfx) pktdata in
  let cfx := set_hd (set_mdc cfx (Some m)) (snd (fst e)) in
  (CDK_Success, fwrite (snd e) out, cfx).

(** *** num2bits and pow2 *)

Fixpoint num2bits_pos (p : positive) : Z :=
  match p with
  | xH => 0
  | xO q => 1 + num2bits_pos q
  | xI q => 1 + num2bits_pos q
  end.

(** The loop shifts [n] right until it is 1 and counts the shifts. *)
Definition num2bits (n : Z) : Z :=
  match n with
  | Zpos p => num2bits_pos p
  | _ => -1
  end.

Definition pow2 (y : Z) : Z :=
  Nat.iter (Z.to_nat y) (fun x => size_t (Z.shiftl x 1)) 1.

(** *** write_partial_block *)

(** The first half of write_partial_block: when the current chunk is used
    up, the length of the next one is chosen and announced; in any case
    the chunk is taken off the count [*r_len] of bytes still to frame.
    The subtractions are those of the integers, which is what the code
    computes as long as the chunk is not larger than the count; the loop
    of cipher_encode_file keeps it so. *)
Definition next_block_length (out : list Z) (r_len : Z)
    (cfx : cipher_filter_t) : list Z * Z * cipher_filter_t :=
  if blkmode_nleft cfx =? 0 then
    if r_len >? BUFSIZE then
      (fputc (Z.lor 0xE0 DEF_BLOCKBITS) out, r_len - BUFSIZE,
       set_nleft cfx BUFSIZE)
    else if r_len >? 512 then
      let n := size_t (num2bits (size_t r_len)) in
      let cfx := set_nleft cfx (pow2 n) in
      (fputc (Z.lor 0xE0 n) out, r_len - blkmode_nleft cfx, cfx)
    else
      let pktlen := size_t r_len in
      let '(out, pktlen) :=
        if pktlen <? 192 then (fputc pktlen out, pktlen)
        else if pktlen <? 8384 then
          let pktlen := pktlen - 192 in
          (fputc (pktlen mod 256) (fputc (pktlen / 256 + 192) out), pktlen)
        else (out, pktlen) in
      (out, r_len - pktlen, set_nleft cfx pktlen)
  else (out, r_len - blkmode_nleft cfx, cfx).

Definition write_partial_block (inp : FILE) (out : list Z) (r_len : Z)
    (cfx : cipher_filter_t)
  : cdk_error_t * FILE * list Z * Z * cipher_filter_t :=
  let '(out, r_len, cfx) := next_block_length out r_len cfx in
  (* DIM (buf) is BUFSIZE + 1 here *)
  let n := if blkmode_nleft cfx <? BUFSIZE + 1
           then blkmode_nleft cfx else BUFSIZE + 1 in
  let '(buf, inp) := fread n inp in
  let nread := Z.of_nat (length buf) in
  if nread =? 0 then (CDK_EOF, inp, out, r_len, cfx) else
  let cfx := mdc_write cfx buf in
  let e := gcry_cipher_encrypt X (hd cfx) buf in
  let cfx := set_hd cfx (snd (fst e)) in
  let rc := cdk_of_gcry (fst (fst e)) in
  if failed rc then (rc, inp, out, r_len, cfx)
  else (rc, inp, fwrite (snd e) out, r_len,
        set_nleft cfx (blkmode_nleft cfx - nread)).

(** *** cipher_encode_file *)

(** The loop [while (!feof (in))]; the result is the value of [rc] when the
    loop is left.  [None] when [fuel] iterations were not enough. *)
Fixpoint encode_loop (fuel : nat) (cfx : cipher_filter_t) (inp : FILE)
    (out : list Z) (len2 : Z)
  : option (cdk_error_t * cipher_filter_t * FILE * list Z) :=
  match fuel with
  | O => None
  | S fuel' =>
    if feof inp then Some (CDK_Success, cfx, inp, out) else
    if negb (blkmode_on cfx =? 0) then
      let '(rc, inp, out, len2, cfx) := write_partial_block inp out len2 cfx in
      if failed rc then Some (rc, cfx, inp, out)
      else encode_loop fuel' cfx inp out len2
    else
      let '(buf, inp) := fread BUFSIZE inp in
      if Z.of_nat (length buf) =? 0 then Some (CDK_Success, cfx, inp, out) else
      let cfx := mdc_write cfx buf in
      let e := gcry_cipher_encrypt X (hd cfx) buf in
      let cfx := set_hd cfx (snd (fst e)) in
      encode_loop fuel' cfx inp (fwrite (snd e) out) len2
  end.

(** Every iteration that does not leave the loop consumes a byte. *)
Definition loop_fuel (inp : FILE) : nat := S (S (length (f_rest inp))).

Definition cipher_encode_file (cfx : cipher_filter_t) (inp : FILE)
    (out : list Z) : option (cdk_error_t * cipher_filter_t * FILE * list Z) :=
  let len := fp_get_length inp in
  if len =? -1 then Some (CDK_File_Error, cfx, inp, out) else
  match encode_loop (loop_fuel inp) cfx inp out len with
  | None => None
  | Some (rc, cfx, inp, out) =>
    if failed rc then Some (rc, cfx, inp, out) else
    match mdc cfx with
    | Some m =>
      let '(rc, out, cfx) := write_mdc_packet out cfx m in
      Some (rc, cfx, inp, out)
    | None => Some (rc, cfx, inp, out)
    end
  end.

(** *** read_header *)

(** The loop of [fgetc] calls that fills [temp]; [None] when EOF came
    first. *)
Fixpoint fgetc_n (n : nat) (inp : FILE) : option (list Z) * FILE :=
  match n with
  | O => (Some [], inp)
  | S n' =>
    match fgetc inp with
    | (None, inp) => (None, inp)
    | (Some c, inp) =>
      let '(r, inp) := fgetc_n n' inp in
      (option_map (cons c) r, inp)
    end
  end.

Definition read_header (cfx : cipher_filter_t) (inp : FILE)
  : cdk_error_t * cipher_filter_t * FILE :=
  let dek := dek cfx in
  let blocksize := gcry_cipher_get_algo_blklen X (algo dek) in
  if (blocksize <? 8) || (blocksize >? 16) then (CDK_Inv_Algo, cfx, inp) else
  let nprefix := blocksize in
  if (datalen cfx >? 0) && (datalen cfx <? nprefix + 2)
  then (CDK_Inv_Value, cfx, inp) else
  let opened :=
    if negb (mdc_method cfx =? 0) then md_open (mdc_method cfx)
    else (0, mdc cfx) in
  let cfx := set_mdc cfx (snd opened) in
  if negb (fst opened =? 0) then (map_gcry_error X (fst opened), cfx, inp) else
  let o := gcry_cipher_open X (algo dek) (mdc_method cfx =? 0) in
  let cfx := set_hd cfx (snd o) in
  if negb (fst o =? 0) then (map_gcry_error X (fst o), cfx, inp) else
  let o := gcry_cipher_setiv X (hd cfx) in
  let cfx := set_hd cfx (snd o) in
  if negb (fst o =? 0) then (map_gcry_error X (fst o), cfx, inp) else
  let o := gcry_cipher_setkey X (hd cfx) (key dek) (keylen dek) in
  let cfx := set_hd cfx (snd o) in
  if negb (fst o =? 0) then (map_gcry_error X (fst o), cfx, inp) else
  let '(r, inp) := fgetc_n (Z.to_nat (nprefix + 2)) inp in
  match r with
  | None => (CDK_File_Error, cfx, inp)
  | Some temp =>
    let d := gcry_cipher_decrypt X (hd cfx) temp in
    let cfx := set_hd cfx (gcry_cipher_sync X (snd (fst d))) in
    let temp := snd d in
    let i := nprefix in
    if negb (byte_at temp (i - 2) =? byte_at temp i)
       || negb (byte_at temp (i - 1) =? byte_at temp (i + 1))
    then (CDK_Chksum_Error, cfx, inp) else
    let cfx := mdc_write cfx temp in
    let cfx :=
      if negb (blkmode_on cfx =? 0)
      then set_size cfx (blkmode_size cfx - (nprefix + 2)) else cfx in
    (CDK_Success, cfx, inp)
  end.

(** *** finalize_mdc *)

(** [buf] holds the [nread] bytes just read and decrypted.  An index
    outside them is an access the read did not provide: [None]. *)
Definition buf_get (buf : list Z) (i : Z) : option Z :=
  if (0 <=? i) && (i <? Z.of_nat (length buf))
  then Some (byte_at buf i) else None.

(** The [n] bytes from [buf + from] on. *)
Definition buf_range (buf : list Z) (from n : Z) : option (list Z) :=
  if (0 <=? from) && (0 <=? n) && (from + n <=? Z.of_nat (length buf))
  then Some (firstn (Z.to_nat n) (skipn (Z.to_nat from) buf)) else None.

(** [memcmp (a, b, n) == 0]. *)
Definition bytes_eqb (a b : list Z) : bool :=
  if list_eq_dec Z.eq_dec a b then true else false.

(** The result is [None] when the function reads outside the bytes it was
    given; the parameter [nread] has type [size_t]. *)
Definition finalize_mdc (md : gcry_md_hd_t) (buf : list Z) (nread : Z)
  : option (cdk_error_t * gcry_md_hd_t) :=
  let dlen := gcry_md_get_algo_dlen X GCRY_MD_SHA1 in
  if negb (dlen =? 20) then Some (CDK_Inv_Algo, md) else
  match buf_get buf (size_t (nread - dlen - 2)) with
  | None => None
  | Some b0 =>
    if negb (b0 =? 0xD3) then Some (CDK_Inv_Packet, md) else
    match buf_get buf (size_t (nread - dlen - 1)) with
    | None => None
    | Some b1 =>
      if negb (b1 =? 0x14) then Some (CDK_Inv_Packet, md) else
      match buf_range buf 0 (size_t (nread - dlen)),
            buf_range buf (nread - dlen) dlen with
      | Some hashed, Some tail =>
        let md := gcry_md_final (gcry_md_write md hashed) in
        let mdcbuf := firstn (Z.to_nat dlen) (gcry_md_read X md GCRY_MD_SHA1) in
        if bytes_eqb mdcbuf tail then Some (CDK_Success, md)
        else Some (CDK_Bad_MDC, md)
      | _, _ => None
      end
    end
  end.

(** *** cipher_decode_file *)

(** What a pass over a stream ends in. *)
Inductive outcome : Type :=
| Returned (rc : cdk_error_t) (cfx : cipher_filter_t) (inp : FILE)
           (out : list Z)
| Null_Argument   (* CDK_Inv_Value before anything is touched *)
| Out_Of_Bounds   (* an access outside a buffer *)
| Out_Of_Fuel.

(** The tail of an iteration: [fwrite] and the next chunk length. *)
Definition decode_emit (cfx : cipher_filter_t) (inp : FILE) (out : list Z)
    (buf : list Z) (nread : Z)
  : cdk_error_t * cipher_filter_t * FILE * list Z :=
  let out := fwrite (firstn (Z.to_nat nread) buf) out in
  if negb (blkmode_on cfx =? 0) then
    let r := _cdk_pkt_read_len X inp (blkmode_on cfx) in
    let cfx := set_size (set_on cfx (snd (fst r))) (fst (fst r)) in
    if blkmode_size cfx =? SIZE_T_EOF
    then (CDK_Inv_Packet, cfx, snd r, out)
    else (CDK_Success, cfx, snd r, out)
  else (CDK_Success, cfx, inp, out).

Fixpoint decode_loop (fuel : nat) (cfx : cipher_filter_t) (inp : FILE)
    (out : list Z) : outcome :=
  match fuel with
  | O => Out_Of_Fuel
  | S fuel' =>
    if feof inp then Returned CDK_Success cfx inp out else
    (* nreq is an int, and fread takes its count as a size_t: a chunk
       size goes through both conversions, DIM (buf) is left as it is *)
    let nreq := if negb (blkmode_on cfx =? 0)
                then size_t (to_int (blkmode_size cfx)) else BUFSIZE in
    let '(buf, inp) := fread nreq inp in
    let nread := Z.of_nat (length buf) in
    if nread =? 0 then Returned CDK_Success cfx inp out else
    (* buf has BUFSIZE bytes *)
    if nread >? BUFSIZE then Out_Of_Bounds else
    let d := gcry_cipher_decrypt X (hd cfx) buf in
    let cfx := set_hd cfx (snd (fst d)) in
    let buf := snd d in
    let verified :=
      match (if feof inp then mdc cfx else None) with
      | Some m =>
        match finalize_mdc m buf nread with
        | None => None
        | Some (rc, m) => Some (rc, set_mdc cfx (Some m), nread - 22)
        end
      | None => Some (CDK_Success, mdc_write cfx buf, nread)
      end in
    match verified with
    | None => Out_Of_Bounds
    | Some (rc, cfx, nread) =>
      if failed rc then Returned rc cfx inp out else
      let '(rc, cfx, inp, out) := decode_emit cfx inp out buf nread in
      if failed rc then Returned rc cfx inp out
      else decode_loop fuel' cfx inp out
    end
  end.

Definition cipher_decode_file (cfx : cipher_filter_t) (inp : FILE)
    (out : list Z) : outcome :=
  decode_loop (loop_fuel inp) cfx inp out.

(** *** cipher_decode and cipher_encode *)

Definition cipher_decode (opaque : option cipher_filter_t)
    (inp : option FILE) (out : option (list Z)) : outcome :=
  match opaque, inp, out with
  | Some cfx, Some inp, Some out =>
    let '(rc, cfx, inp) := read_header cfx inp in
    if failed rc then Returned rc cfx inp out
    else cipher_decode_file cfx inp out
  | _, _, _ => Null_Argument
  end.

(** The context after the first two statements of cipher_encode: the
    length of the input is recorded and an input shorter than BUFSIZE
    turns chunking off.  The length is recorded as fp_get_length gives
    it; what the field makes of the failure value -1 and of a length that
    does not fit depends on its type in filters.h. *)
Definition encode_context (cfx : cipher_filter_t) (inp : FILE)
  : cipher_filter_t :=
  let cfx := set_datalen cfx (fp_get_length inp) in
  if (datalen cfx <? BUFSIZE) && negb (blkmode_on cfx =? 0)
  then set_on cfx 0 else cfx.

Definition cipher_encode (opaque : option cipher_filter_t)
    (inp : option FILE) (out : option (list Z)) : outcome :=
  match opaque, inp, out with
  | Some cfx, Some inp, Some out =>
    let cfx := encode_context cfx inp in
    let '(rc, cfx, out) := write_header cfx out in
    if failed rc then Returned rc cfx inp out else
    match cipher_encode_file cfx inp out with
    | None => Out_Of_Fuel
    | Some (rc, cfx, inp, out) => Returned rc cfx inp out
    end
  | _, _, _ => Null_Argument
  end.

End Filter.

Arguments hd {X}.
Arguments mdc {X}.
Arguments mdc_method {X}.
Arguments dek {X}.
Arguments datalen {X}.
Arguments blkmode_on {X}.
Arguments blkmode_size {X}.
Arguments blkmode_nleft {X}.
Arguments Returned {X}.
Arguments Null_Argument {X}.
Arguments Out_Of_Bounds {X}.
Arguments Out_Of_Fuel {X}.

(** ** A reference instance of the interface *)

(** A byte-wise CFB mode over a keyed block function, with the OpenPGP
    resynchronisation, a 20-byte digest and the packet framing of the
    format.  The block function and the digest are stand-ins: the filter
    never looks inside them. *)
Module Reference.

Record cfb_hd : Type := mkCfb {
  c_bs : nat;
  c_sync : bool;
  c_key : list Z;
  c_iv : list Z;
  c_lastiv : list Z;
  c_unused : nat
}.

Definition indices (n : nat) : list Z := map Z.of_nat (seq 0 n).

Definition block_encrypt (k : list Z) (b : list Z) : list Z :=
  map (fun p => (5 * snd p + 31 * fst p + fold_right Z.add 11 k) mod 256)
      (combine (indices (length b)) (rev b)).

Definition blklen (a : Z) : Z :=
  if (a =? 7) || (a =? 8) || (a =? 9) then 16
  else if (a =? 2) || (a =? 3) || (a =? 4) then 8
  else 0.


Definition cfb_open (bl : Z -> Z) (a : Z) (sync : bool) : Z * cfb_hd :=
  let bs := Z.to_nat (bl a) in
  (if bl a =? 0 then 12 else 0,
   mkCfb bs sync [] (repeat 0 bs) (repeat 0 bs) O).

Definition cfb_setiv (h : cfb_hd) : Z * cfb_hd :=
  (0, mkCfb (c_bs h) (c_sync h) (c_key h)
            (repeat 0 (c_bs h)) (repeat 0 (c_bs h)) O).

Definition cfb_setkey (h : cfb_hd) (k : list Z) (n : Z) : Z * cfb_hd :=
  (0, mkCfb (c_bs h) (c_sync h) (firstn (Z.to_nat n) k)
            (c_iv h) (c_lastiv h) (c_unused h)).

(** When the mask is used up the register is encrypted again. *)
Definition cfb_refill (h : cfb_hd) : cfb_hd :=
  match c_unused h with
  | O => mkCfb (c_bs h) (c_sync h) (c_key h)
               (block_encrypt (c_key h) (c_iv h)) (c_iv h) (c_bs h)
  | S _ => h
  end.

Definition set_nth (l : list Z) (i : nat) (v : Z) : list Z :=
  firstn i l ++ v :: skipn (S i) l.

(** One byte: the cipher-text byte replaces the mask byte it used. *)
Definition cfb_step (decrypt : bool) (h : cfb_hd) (x : Z) : cfb_hd * Z :=
  let h := cfb_refill h in
  let i := (c_bs h - c_unused h)%nat in
  let y := Z.lxor (nth i (c_iv h) 0) x in
  let c := if decrypt then x else y in
  (mkCfb (c_bs h) (c_sync h) (c_key h) (set_nth (c_iv h) i c)
         (c_lastiv h) (pred (c_unused h)), y).

Fixpoint cfb_run (decrypt : bool) (h : cfb_hd) (buf : list Z)
  : cfb_hd * list Z :=
  match buf with
  | [] => (h, [])
  | x :: r =>
    let '(h, y) := cfb_step decrypt h x in
    let '(h, ys) := cfb_run decrypt h r in
    (h, y :: ys)
  end.

Definition cfb_crypt (decrypt : bool) (h : cfb_hd) (buf : list Z)
  : Z * cfb_hd * list Z :=
  (0, fst (cfb_run decrypt h buf), snd (cfb_run decrypt h buf)).

Definition cfb_sync (h : cfb_hd) : cfb_hd :=
  if c_sync h && negb (Nat.eqb (c_unused h) 0)
  then mkCfb (c_bs h) (c_sync h) (c_key h)
         (skipn (c_bs h - c_unused h) (c_lastiv h)
          ++ firstn (c_bs h - c_unused h) (c_iv h))
         (c_lastiv h) O
  else h.

Definition dlen (a : Z) : Z := if a =? GCRY_MD_SHA1 then 20 else 0.

Definition digest (m : gcry_md_hd_t) (a : Z) : list Z :=
  if a =? GCRY_MD_SHA1
  then map (fun i => fold_left (fun acc b => (31 * acc + b + i) mod 256)
                               (md_buf m) (i + 7))
           (indices 20)
  else [].

Definition randomize (n : Z) : list Z :=
  map (fun i => (37 * i + 11) mod 256) (indices (Z.to_nat n)).

(** Modelled from the spec: the length encodings of the packet format
    (one byte below 192, two bytes below 8384, else 0xFF and four bytes). *)
Definition length_bytes (n : Z) : list Z :=
  if n <? 192 then [n]
  else if n <? 8384 then [(n - 192) / 256 + 192; (n - 192) mod 256]
  else [255; (n / 2 ^ 24) mod 256; (n / 2 ^ 16) mod 256;
        (n / 2 ^ 8) mod 256; n mod 256].

(** Modelled from the spec: the packet writer of write-packet.c, reduced
    to what the spec says of the header: the tag byte, the declared length
    (or the first partial length when none is declared) and, for the
    integrity-protected packet, the version byte. *)
Definition pkt_write_fp (pkt : cdk_packet_t) : cdk_error_t * list Z :=
  let ed := pkt_encrypted pkt in
  match pkttype pkt with
  | CDK_PKT_ENCRYPTED =>
    (CDK_Success,
     [Z.lor 0xC0 9]
       ++ (if ed_len ed =? 0 then [Z.lor 0xE0 DEF_BLOCKBITS]
           else length_bytes (ed_len ed + ed_extralen ed)))
  | CDK_PKT_ENCRYPTED_MDC =>
    (CDK_Success,
     [Z.lor 0xC0 18]
       ++ (if ed_len ed =? 0 then [Z.lor 0xE0 DEF_BLOCKBITS]
           else length_bytes (ed_len ed + ed_extralen ed + 1))
       ++ [1])
  end.

Definition drop1 (f : FILE) : FILE :=
  mkFILE (f_stat f) (tl (f_rest f)) (f_eof f).

(** Modelled from the spec: the length reader of read-packet.c; a byte
    with the top three bits set announces a partial chunk of
    2^(byte & 0x1F) bytes, any other encoding the final chunk. *)
Definition pkt_read_len (f : FILE) (on : Z) : Z * Z * FILE :=
  match f_rest f with
  | [] => (SIZE_T_EOF, on, mkFILE (f_stat f) [] true)
  | c1 :: r1 =>
    if c1 <? 192 then (c1, 0, drop1 f)
    else if c1 <? 224 then
      match r1 with
      | [] => (SIZE_T_EOF, 0, mkFILE (f_stat f) [] true)
      | c2 :: _ => ((c1 - 192) * 256 + c2 + 192, 0, drop1 (drop1 f))
      end
    else if c1 =? 255 then
      match r1 with
      | a :: b :: c :: d :: _ =>
        (((a * 256 + b) * 256 + c) * 256 + d, 0,
         drop1 (drop1 (drop1 (drop1 (drop1 f)))))
      | _ => (SIZE_T_EOF, 0, mkFILE (f_stat f) [] true)
      end
    else (2 ^ Z.land c1 0x1F, on, drop1 f)
  end.

Definition map_error (e : Z) : cdk_error_t := cdk_of_gcry e.

Lemma cfb_run_length : forall d buf h, length (snd (cfb_run d h buf)) = length buf.
Proof.
  intros d buf; induction buf as [|x r IH]; intros h; [reflexivity|].
  cbn [cfb_run]. destruct (cfb_step d h x) as [h1 y].
  specialize (IH h1). destruct (cfb_run d h1 r) as [h2 ys].
  cbn [snd length] in *. now f_equal.
Qed.

Lemma digest_length : forall m a, Z.of_nat (length (digest m a)) = dlen a.
Proof.
  intros m a. unfold digest, dlen.
  destruct (a =? GCRY_MD_SHA1); [rewrite length_map|]; reflexivity.
Qed.

Lemma randomize_length : forall n, length (randomize n) = Z.to_nat n.
Proof.
  intros n. unfold randomize, indices.
  now rewrite !length_map, length_seq.
Qed.

Lemma pkt_read_len_rest : forall f on,
  (length (f_rest (snd (pkt_read_len f on))) <= length (f_rest f))%nat.
Proof.
  intros [st rest e] on. unfold pkt_read_len, drop1. simpl.
  destruct rest as [|c1 r1]; simpl; [lia|].
  destruct (c1 <? 192); simpl; [lia|].
  destruct (c1 <? 224).
  - destruct r1; simpl; lia.
  - destruct (c1 =? 255); simpl; [|lia].
    destruct r1 as [|a [|b [|c [|d r5]]]]; simpl; lia.
Qed.

(** The instance for a table of block lengths. *)
Definition lib_of (bl : Z -> Z) : externals :=
  mkExternals cfb_hd bl (cfb_open bl) cfb_setiv cfb_setkey
    (cfb_crypt false) (cfb_crypt true) cfb_sync
    (fun _ => 0) dlen digest randomize map_error pkt_write_fp pkt_read_len
    (fun h buf => cfb_run_length false buf h)
    (fun h buf => cfb_run_length true buf h)
    digest_length randomize_length pkt_read_len_rest.

Definition lib : externals := lib_of blklen.

(** A fresh context for a key, and a fresh stream over some bytes. *)
Definition context_of (bl : Z -> Z) (d : cdk_dek_t) (method on size : Z)
  : cipher_filter_t (lib_of bl) :=
  mkCfx (lib_of bl) (mkCfb O false [] [] [] O) None method d 0 on size 0.

Definition context (d : cdk_dek_t) (method on size : Z)
  : cipher_filter_t lib :=
  context_of blklen d method on size.

Definition file_of (data : list Z) : FILE :=
  mkFILE (Some (Z.of_nat (length data))) data false.

End Reference.

(** ** Observations on an outcome *)

Definition result_code {X : externals} (o : outcome X) : option cdk_error_t :=
  match o with
  | Returned rc _ _ _ => Some rc
  | Null_Argument => Some CDK_Inv_Value
  | _ => None
  end.

Definition written {X : externals} (o : outcome X) : option (list Z) :=
  match o with
  | Returned _ _ _ out => Some out
  | _ => None
  end.

Definition reads_out_of_bounds {X : externals} (o : outcome X) : bool :=
  match o with
  | Out_Of_Bounds => true
  | _ => false
  end.

Definition returned_context {X : externals} (o : outcome X)
  : option (cipher_filter_t X) :=
  match o with
  | Returned _ cfx _ _ => Some cfx
  | _ => None
  end.

(** The handle [read_header] and [write_header] decrypt or encrypt the
    prefix with: opened, zero IV, keyed. *)
Definition keyed_handle (X : externals) (d : cdk_dek_t) (sync : bool)
  : gcry_cipher_hd_t X :=
  snd (gcry_cipher_setkey X
         (snd (gcry_cipher_setiv X (snd (gcry_cipher_open X (algo d) sync))))
         (key d) (keylen d)).

(** The library calls of the header functions succeed. *)
Definition cipher_ready (X : externals) (d : cdk_dek_t) (sync : bool) : Prop :=
  fst (gcry_cipher_open X (algo d) sync) = 0
  /\ fst (gcry_cipher_setiv X (snd (gcry_cipher_open X (algo d) sync))) = 0
  /\ fst (gcry_cipher_setkey X
            (snd (gcry_cipher_setiv X (snd (gcry_cipher_open X (algo d) sync))))
            (key d) (keylen d)) = 0.

(** Sample keys and plaintexts for the reference instance. *)
Module Sample.

Definition key16 : list Z := [1; 2; 3; 4; 5; 6; 7; 8; 9; 10; 11; 12; 13; 14; 15; 16].

(** Algorithm 3 has 8-byte blocks, algorithm 7 has 16-byte blocks. *)
Definition dek8 (use : Z) : cdk_dek_t := mkDek 3 key16 16 use 0.
Definition dek16 (use : Z) : cdk_dek_t := mkDek 7 key16 16 use 0.

Definition plain (n : Z) : list Z := repeat 65 (Z.to_nat n).

Definition encode (d : cdk_dek_t) (on : Z) (p : list Z)
  : outcome Reference.lib :=
  cipher_encode Reference.lib (Some (Reference.context d 0 on 0))
                (Some (Reference.file_of p)) (Some []).

Definition decode (d : cdk_dek_t) (method : Z) (c : list Z)
  : outcome Reference.lib :=
  cipher_decode Reference.lib (Some (Reference.context d method 0 0))
                (Some (Reference.file_of c)) (Some []).

(** The body of an encoded packet: what follows the packet header. *)
Definition body_of (hdr : nat) (o : outcome Reference.lib) : list Z :=
  match o with
  | Returned _ _ _ out => skipn hdr out
  | _ => []
  end.

End Sample.

(** ** What the header functions yield when the library calls succeed *)

(** The plaintext prefix: [blocksize] random bytes and the last two of
    them again. *)
Definition prefix_plain (X : externals) (bs : Z) : list Z :=
  let rnd := gcry_randomize X bs in
  rnd ++ [byte_at rnd (bs - 2); byte_at rnd (bs - 1)].

(** The conditions under which write_header reaches its end. *)
Definition header_ready (X : externals) (cfx : cipher_filter_t X) : Prop :=
  8 <= gcry_cipher_get_algo_blklen X (algo (dek cfx)) <= 16
  /\ (header_use_mdc X cfx <> 0 -> gcry_md_open X GCRY_MD_SHA1 = 0)
  /\ fst (_cdk_pkt_write_fp X (header_packet X cfx)) = CDK_Success
  /\ cipher_ready X (dek cfx) (header_use_mdc X cfx =? 0).

(** The context write_header leaves then. *)
Definition header_context (X : externals) (cfx : cipher_filter_t X)
  : cipher_filter_t X :=
  let bs := gcry_cipher_get_algo_blklen X (algo (dek cfx)) in
  let use := header_use_mdc X cfx in
  let temp := prefix_plain X bs in
  mkCfx X
    (gcry_cipher_sync X
       (snd (fst (gcry_cipher_encrypt X
                    (keyed_handle X (dek cfx) (use =? 0)) temp))))
    (if use =? 0
     then option_map (fun m => gcry_md_write m temp) (mdc cfx)
     else Some (mkMd GCRY_MD_SHA1 temp false))
    (mdc_method cfx) (dek cfx) (header_datalen X cfx)
    (blkmode_on cfx) (blkmode_size cfx)
    (if blkmode_on cfx =? 0 then blkmode_nleft cfx
     else BUFSIZE - (bs + 2) - (if use =? 0 then 0 else 22 + 1)).

(** The bytes of the packet header and of the encrypted prefix. *)
Definition header_bytes (X : externals) (cfx : cipher_filter_t X) : list Z :=
  snd (_cdk_pkt_write_fp X (header_packet X cfx)).

Definition prefix_cipher (X : externals) (cfx : cipher_filter_t X) : list Z :=
  snd (gcry_cipher_encrypt X
         (keyed_handle X (dek cfx) (header_use_mdc X cfx =? 0))
         (prefix_plain X (gcry_cipher_get_algo_blklen X (algo (dek cfx))))).

(** The conditions under which read_header reaches the prefix. *)
Definition decode_ready (X : externals) (cfx : cipher_filter_t X) : Prop :=
  8 <= gcry_cipher_get_algo_blklen X (algo (dek cfx)) <= 16
  /\ ~ (0 < datalen cfx < gcry_cipher_get_algo_blklen X (algo (dek cfx)) + 2)
  /\ (mdc_method cfx <> 0 -> gcry_md_open X (mdc_method cfx) = 0)
  /\ cipher_ready X (dek cfx) (mdc_method cfx =? 0).

(** The state of the encoder loop in block mode, at the head of an
    iteration: the chunk under way and the count of bytes still to frame
    fit in what is left of the input, and the end has not been seen. *)
Definition block_inv {X : externals} (cfx : cipher_filter_t X) (inp : FILE)
    (r : Z) : Prop :=
  blkmode_on cfx <> 0
  /\ f_eof inp = false
  /\ 0 <= blkmode_nleft cfx <= BUFSIZE
  /\ blkmode_nleft cfx <= r <= Z.of_nat (length (f_rest inp)).

(** ** The cipher as a stream *)

Definition enc_bytes (X : externals) (h : gcry_cipher_hd_t X) (p : list Z)
  : list Z := snd (gcry_cipher_encrypt X h p).

Definition enc_hd (X : externals) (h : gcry_cipher_hd_t X) (p : list Z)
  : gcry_cipher_hd_t X := snd (fst (gcry_cipher_encrypt X h p)).

Definition dec_bytes (X : externals) (h : gcry_cipher_hd_t X) (c : list Z)
  : list Z := snd (gcry_cipher_decrypt X h c).

Definition dec_hd (X : externals) (h : gcry_cipher_hd_t X) (c : list Z)
  : gcry_cipher_hd_t X := snd (fst (gcry_cipher_decrypt X h c)).

(** What CFB mode gives: a buffer may be processed in pieces, and
    decryption undoes encryption and leaves the handle in the same
    state. *)
Record stream_cipher (X : externals) : Prop := mkStreamCipher {
  encrypt_app : forall h a b,
    enc_bytes X h (a ++ b) = enc_bytes X h a ++ enc_bytes X (enc_hd X h a) b
    /\ enc_hd X h (a ++ b) = enc_hd X (enc_hd X h a) b;
  decrypt_app : forall h a b,
    dec_bytes X h (a ++ b) = dec_bytes X h a ++ dec_bytes X (dec_hd X h a) b
    /\ dec_hd X h (a ++ b) = dec_hd X (dec_hd X h a) b;
  decrypt_encrypt : forall h p,
    dec_bytes X h (enc_bytes X h p) = p
    /\ dec_hd X h (enc_bytes X h p) = enc_hd X h p
}.

(** ** The verdict on a trailer *)

(** [buf] is a decrypted buffer of at least 22 bytes that ends the
    stream, [m] the digest handle before it. *)
Definition trailer_tag_ok (buf : list Z) : bool :=
  (byte_at buf (Z.of_nat (length buf) - 22) =? 0xD3)
  && (byte_at buf (Z.of_nat (length buf) - 21) =? 0x14).

Definition hashed_part (buf : list Z) : list Z :=
  firstn (length buf - 20) buf.

Definition trailer_digest (buf : list Z) : list Z :=
  skipn (length buf - 20) buf.

Definition expected_digest (X : externals) (m : gcry_md_hd_t) (buf : list Z)
  : list Z :=
  gcry_md_read X (gcry_md_final (gcry_md_write m (hashed_part buf)))
               GCRY_MD_SHA1.

Definition mdc_verdict (X : externals) (m : gcry_md_hd_t) (buf : list Z)
  : cdk_error_t :=
  if negb (trailer_tag_ok buf) then CDK_Inv_Packet
  else if bytes_eqb (expected_digest X m buf) (trailer_digest buf)
       then CDK_Success
       else CDK_Bad_MDC.

(** What has reached the output when the pass ends: on success all but
    the trailer, on failure the full buffers before the last one. *)
Definition delivered (X : externals) (m : gcry_md_hd_t) (buf : list Z)
  : list Z :=
  match mdc_verdict X m buf with
  | CDK_Success => firstn (length buf - 22) buf
  | _ => firstn (Z.to_nat (BUFSIZE * (Z.of_nat (length buf) / BUFSIZE))) buf
  end.

(** What the loop leaves: all of the input encrypted as one stream from
    the handle of [cfx], the handle ready to continue that stream, the
    input hashed. *)
Definition encoded_all {X : externals} (cfx : cipher_filter_t X)
    (inp : FILE) (out : list Z)
    (r : option (cdk_error_t * cipher_filter_t X * FILE * list Z)) : Prop :=
  exists cfx',
    r = Some (CDK_Success, cfx', mkFILE (f_stat inp) [] true,
              out ++ enc_bytes X (hd cfx) (f_rest inp))
    /\ (forall t, enc_bytes X (hd cfx) (f_rest inp) ++ enc_bytes X (hd cfx') t
                  = enc_bytes X (hd cfx) (f_rest inp ++ t))
    /\ mdc cfx' = option_map (fun m => gcry_md_write m (f_rest inp)) (mdc cfx).

(** The plaintext of the MDC trailer for a body [body] hashed into the
    handle [m]: the two tag bytes, and the digest of what the handle holds,
    the body and the two tag bytes. *)
Definition mdc_trailer (X : externals) (m : gcry_md_hd_t) (body : list Z)
  : list Z :=
  [0xD3; 0x14]
    ++ gcry_md_read X
         (gcry_md_final (gcry_md_write m (body ++ [0xD3; 0x14])))
         GCRY_MD_SHA1.

(** The context read_header leaves after a prefix [temp] that passes the
    self-check. *)
Definition prefix_context (X : externals) (cfx : cipher_filter_t X)
    (temp : list Z) : cipher_filter_t X :=
  let h := keyed_handle X (dek cfx) (mdc_method cfx =? 0) in
  let plain := dec_bytes X h temp in
  mkCfx X
    (gcry_cipher_sync X (dec_hd X h temp))
    (if mdc_method cfx =? 0
     then option_map (fun m => gcry_md_write m plain) (mdc cfx)
     else Some (mkMd (mdc_method cfx) plain false))
    (mdc_method cfx) (dek cfx) (datalen cfx) (blkmode_on cfx)
    (if blkmode_on cfx =? 0 then blkmode_size cfx
     else blkmode_size cfx
          - (gcry_cipher_get_algo_blklen X (algo (dek cfx)) + 2))
    (blkmode_nleft cfx).

(** The body of the packet cipher_encode writes without chunking, for the
    context [cfx0] the header is written from and the plaintext [p]: the
    encrypted prefix, then the plaintext and, with integrity protection,
    the trailer, encrypted as one stream. *)
Definition body_trailer (X : externals) (cfx0 : cipher_filter_t X)
    (p : list Z) : list Z :=
  match mdc (header_context X cfx0) with
  | Some m => mdc_trailer X m p
  | None => []
  end.

Definition encoded_body (X : externals) (cfx0 : cipher_filter_t X)
    (p : list Z) : list Z :=
  prefix_cipher X cfx0
    ++ enc_bytes X (hd (header_context X cfx0)) (p ++ body_trailer X cfx0 p).

(** A decoder context that fits the packet written from [cfx0]: the same
    key, the digest method the packet type stands for, no chunking, no
    digest handle yet, no declared length. *)
Definition decoder_for (X : externals) (cfx0 cfxd : cipher_filter_t X)
  : Prop :=
  dek cfxd = dek cfx0
  /\ mdc_method cfxd
     = (if header_use_mdc X cfx0 =? 0 then 0 else GCRY_MD_SHA1)
  /\ mdc cfxd = None
  /\ blkmode_on cfxd = 0
  /\ datalen cfxd = 0.

(** A packet body with the lowest bit of byte [i] flipped. *)
Definition tamper (l : list Z) (i : nat) : list Z :=
  firstn i l ++ Z.lxor (nth i l 0) 1 :: skipn (S i) l.


(** ** The block lengths of the library *)

(** What gcry_cipher_get_algo_blklen of libgcrypt returns: 0 for an
    algorithm it does not know, 1 for a stream cipher, 8 or 16 for a block
    cipher. *)
Definition libgcrypt_block_lengths (X : externals) : Prop :=
  forall a, In (gcry_cipher_get_algo_blklen X a) [0; 1; 8; 16].

(** ** The hash filter *)

(** The context of the hash filter, [md_filter_t] of filters.h: the digest
    handle, null until a pass opens it, and the algorithm to open it
    with. *)
Record md_filter_t : Type := mkMfx {
  md : option gcry_md_hd_t;
  digest_algo : Z
}.

(** The loop of hash_encode; [None] when [fuel] iterations were not
    enough. *)
Fixpoint hash_loop (fuel : nat) (m : gcry_md_hd_t) (inp : FILE)
  : option (gcry_md_hd_t * FILE) :=
  match fuel with
  | O => None
  | S fuel' =>
    if feof inp then Some (m, inp) else
    let '(buf, inp) := fread BUFSIZE inp in
    if Z.of_nat (length buf) =? 0 then Some (m, inp) else
    hash_loop fuel' (gcry_md_write m buf) inp
  end.

(** hash_encode: the result code, the context, the input and the output,
    which the function never touches.  [md_open] leaves a handle exactly
    when its error code is 0. *)
Definition hash_encode (X : externals) (opaque : option md_filter_t)
    (inp : FILE) (out : list Z)
  : option (cdk_error_t * option md_filter_t * FILE * list Z) :=
  match opaque with
  | None => Some (CDK_Inv_Value, None, inp, out)
  | Some mfx =>
    let opened :=
      match md mfx with
      | Some m => (0, Some m)
      | None => md_open X (digest_algo mfx)
      end in
    match snd opened with
    | None => Some (map_gcry_error X (fst opened), Some mfx, inp, out)
    | Some m =>
      match hash_loop (loop_fuel inp) m inp with
      | None => None
      | Some (m, inp) =>
        Some (CDK_Success, Some (mkMfx (Some m) (digest_algo mfx)), inp, out)
      end
    end
  end.

(** The handle a pass of the hash filter works with: the one of the
    context, or a new one when the context has none and one can be
    opened. *)
Definition hash_handle (X : externals) (mfx : md_filter_t)
  : option gcry_md_hd_t :=
  match md mfx with
  | Some m => Some m
  | None => snd (md_open X (digest_algo mfx))
  end.

(** ** The entry points *)

(** Modelled from the spec: the [ctl] codes that select the read, write
    and free behaviour of a filter.  The constants are declared outside
    cipher.c; [STREAMCTL_OTHER] is any value that is none of the three. *)
Inductive stream_control : Type :=
| STREAMCTL_READ
| STREAMCTL_WRITE
| STREAMCTL_FREE
| STREAMCTL_OTHER.

(** _cdk_filter_hash.  STREAMCTL_FREE closes the handle and clears the
    field; with a null context it falls through to CDK_Inv_Mode. *)
Definition _cdk_filter_hash (X : externals) (opaque : option md_filter_t)
    (ctl : stream_control) (inp : FILE) (out : list Z)
  : option (cdk_error_t * option md_filter_t * FILE * list Z) :=
  match ctl with
  | STREAMCTL_READ => hash_encode X opaque inp out
  | STREAMCTL_FREE =>
    match opaque with
    | Some mfx =>
      Some (CDK_Success, Some (mkMfx None (digest_algo mfx)), inp, out)
    | None => Some (CDK_Inv_Mode, None, inp, out)
    end
  | _ => Some (CDK_Inv_Mode, opaque, inp, out)
  end.

(** What _cdk_filter_cipher leaves: the pass of cipher_decode or
    cipher_encode, or CDK_Inv_Mode with the context as it stands. *)
Inductive filter_outcome (X : externals) : Type :=
| Pass (o : outcome X)
| Inv_Mode (cfx : option (cipher_filter_t X)).

Arguments Pass {X} o.
Arguments Inv_Mode {X} cfx.

(** _cdk_filter_cipher.  STREAMCTL_FREE closes both handles and clears
    both fields, and then returns CDK_Inv_Mode like an unknown code; the
    cipher handle of the model has no null value, a released context is
    not used again. *)
Definition _cdk_filter_cipher (X : externals)
    (opaque : option (cipher_filter_t X)) (ctl : stream_control)
    (inp : option FILE) (out : option (list Z)) : filter_outcome X :=
  match ctl with
  | STREAMCTL_READ => Pass (cipher_decode X opaque inp out)
  | STREAMCTL_WRITE => Pass (cipher_encode X opaque inp out)
  | STREAMCTL_FREE =>
    Inv_Mode (option_map (fun cfx => set_mdc X cfx None) opaque)
  | STREAMCTL_OTHER => Inv_Mode opaque
  end.
(** * Properties *)

Lemma BUFSIZE_eq : BUFSIZE = 8192.
Proof. reflexivity. Qed.

Lemma size_t_small (z : Z) : 0 <= z < 2 ^ 64 -> size_t z = z.
Proof. intros H. unfold size_t. now apply Z.mod_small. Qed.

(** ** Block size *)

(** The test of write_header and read_header: a block size below 8 or
    above 16 makes the encoder and the decoder return CDK_Inv_Algo with
    the input and the output untouched. *)
Lemma block_size_out_of_range_rejected
    (X : externals) (cfx : cipher_filter_t X) (inp : FILE) (out : list Z) :
  gcry_cipher_get_algo_blklen X (algo (dek cfx)) < 8
  \/ 16 < gcry_cipher_get_algo_blklen X (algo (dek cfx)) ->
  cipher_encode X (Some cfx) (Some inp) (Some out)
    = Returned CDK_Inv_Algo (encode_context X cfx inp) inp out
  /\ cipher_decode X (Some cfx) (Some inp) (Some out)
    = Returned CDK_Inv_Algo cfx inp out.
Proof.
  intros Hbs.
  assert (Hdek : dek (encode_context X cfx inp) = dek cfx).
  { unfold encode_context.
    destruct ((_ <? _) && _); reflexivity. }
  assert (Hrange :
    (gcry_cipher_get_algo_blklen X (algo (dek cfx)) <? 8)
    || (gcry_cipher_get_algo_blklen X (algo (dek cfx)) >? 16) = true).
  { apply orb_true_iff. rewrite Z.ltb_lt, Z.gtb_ltb, Z.ltb_lt. exact Hbs. }
  split.
  - unfold cipher_encode, write_header.
    rewrite Hdek, Hrange. reflexivity.
  - unfold cipher_decode, read_header.
    rewrite Hrange. reflexivity.
Qed.

Lemma reference_block_lengths : libgcrypt_block_lengths Reference.lib.
Proof.
  intros a. cbn [gcry_cipher_get_algo_blklen Reference.lib Reference.lib_of].
  unfold Reference.blklen.
  destruct ((a =? 7) || (a =? 8) || (a =? 9)); [cbn; tauto|].
  destruct ((a =? 2) || (a =? 3) || (a =? 4)); cbn; tauto.
Qed.

(** C6: the block size must be 8 or 16.  With the block lengths that
    libgcrypt reports, an algorithm whose block size is neither 8 nor 16
    makes cipher_encode and cipher_decode return CDK_Inv_Algo before
    anything is processed: the output is what it was, no byte of the
    input has been read, and the context has only had the length of the
    input recorded. *)
Theorem block_size_must_be_8_or_16
    (X : externals) (cfx : cipher_filter_t X) (inp : FILE) (out : list Z) :
  libgcrypt_block_lengths X ->
  gcry_cipher_get_algo_blklen X (algo (dek cfx)) <> 8 ->
  gcry_cipher_get_algo_blklen X (algo (dek cfx)) <> 16 ->
  cipher_encode X (Some cfx) (Some inp) (Some out)
    = Returned CDK_Inv_Algo (encode_context X cfx inp) inp out
  /\ cipher_decode X (Some cfx) (Some inp) (Some out)
    = Returned CDK_Inv_Algo cfx inp out.
Proof.
  intros Hlib H8 H16.
  apply block_size_out_of_range_rejected.
  destruct (Hlib (algo (dek cfx))) as [E|[E|[E|[E|[]]]]];
    rewrite <- E in *; try lia; congruence.
Qed.

Lemma block_size_must_be_8_or_16_witness :
  let cfx := Reference.context (mkDek 99 Sample.key16 16 0 0) 0 0 0 in
  let inp := Reference.file_of [1; 2; 3] in
  cipher_encode Reference.lib (Some cfx) (Some inp) (Some [])
    = Returned CDK_Inv_Algo (encode_context Reference.lib cfx inp) inp []
  /\ cipher_decode Reference.lib (Some cfx) (Some inp) (Some [])
    = Returned CDK_Inv_Algo cfx inp [].
Proof.
  apply (block_size_must_be_8_or_16 Reference.lib
           (Reference.context (mkDek 99 Sample.key16 16 0 0) 0 0 0)
           (Reference.file_of [1; 2; 3]) []).
  - exact reference_block_lengths.
  - vm_compute. congruence.
  - vm_compute. congruence.
Defined.

(** ** The prefix self-check *)

Lemma fgetc_n_app (temp tail : list Z) (s : option Z) (e : bool) :
  fgetc_n (length temp) (mkFILE s (temp ++ tail) e)
  = (Some temp, mkFILE s tail e).
Proof.
  revert s e. induction temp as [|c r IH]; intros s e; [reflexivity|].
  cbn [length fgetc_n app]. unfold fgetc. cbn [f_rest f_stat f_eof].
  rewrite IH. reflexivity.
Qed.

(** C4: when the two check bytes of the decrypted prefix differ from the
    two bytes before them, cipher_decode returns CDK_Chksum_Error; the
    output is what it was, and the input stands right after the prefix:
    the body loop has not run. *)
Theorem self_check_mismatch_rejected
    (X : externals) (cfx : cipher_filter_t X) (inp : FILE) (out : list Z)
    (temp tail : list Z) :
  let bs := gcry_cipher_get_algo_blklen X (algo (dek cfx)) in
  let plain :=
    snd (gcry_cipher_decrypt X
           (keyed_handle X (dek cfx) (mdc_method cfx =? 0)) temp) in
  decode_ready X cfx ->
  f_rest inp = temp ++ tail ->
  Z.of_nat (length temp) = bs + 2 ->
  byte_at plain (bs - 2) <> byte_at plain bs
  \/ byte_at plain (bs - 1) <> byte_at plain (bs + 1) ->
  exists cfx',
    cipher_decode X (Some cfx) (Some inp) (Some out)
    = Returned CDK_Chksum_Error cfx' (mkFILE (f_stat inp) tail (f_eof inp)) out.
Proof.
  intros bs plain (Hbs & Hlen & Hmd & Hopen & Hiv & Hkey) Hrest Htemp Hcheck.
  unfold cipher_decode, read_header.
  fold bs.
  replace ((bs <? 8) || (bs >? 16)) with false
    by (symmetry; apply orb_false_iff; rewrite Z.ltb_ge, Z.gtb_ltb, Z.ltb_ge; lia).
  replace ((datalen cfx >? 0) && (datalen cfx <? bs + 2)) with false.
  2:{ symmetry. apply andb_false_iff. rewrite Z.gtb_ltb, !Z.ltb_ge.
      fold bs in Hlen. lia. }
  set (opened := if negb (mdc_method cfx =? 0)
                 then md_open X (mdc_method cfx) else (0, mdc cfx)).
  assert (Hopened : fst opened = 0).
  { subst opened. destruct (mdc_method cfx =? 0) eqn:E; [reflexivity|].
    apply Z.eqb_neq in E. cbn. auto. }
  rewrite Hopened. cbn [Z.eqb negb].
  cbn [dek set_mdc set_hd hd mdc_method].
  rewrite Hopen. cbn [Z.eqb negb]. rewrite Hiv. cbn [Z.eqb negb].
  rewrite Hkey. cbn [Z.eqb negb].
  replace (Z.to_nat (bs + 2)) with (length temp) by lia.
  destruct inp as [s rest e]. cbn [f_rest] in Hrest. subst rest.
  rewrite fgetc_n_app.
  fold (keyed_handle X (dek cfx) (mdc_method cfx =? 0)). fold plain.
  replace (negb (byte_at plain (bs - 2) =? byte_at plain bs)
           || negb (byte_at plain (bs - 1) =? byte_at plain (bs + 1))) with true.
  2:{ symmetry. apply orb_true_iff. rewrite !negb_true_iff, !Z.eqb_neq.
      exact Hcheck. }
  cbn [failed]. eexists. reflexivity.
Qed.

Lemma self_check_mismatch_rejected_witness :
  exists cfx',
    cipher_decode Reference.lib
      (Some (Reference.context (Sample.dek8 0) 0 0 0))
      (Some (Reference.file_of (repeat 0 10 ++ [1; 2; 3]))) (Some [])
    = Returned CDK_Chksum_Error cfx'
        (mkFILE (Some 13) [1; 2; 3] false) [].
Proof.
  apply (self_check_mismatch_rejected Reference.lib
           (Reference.context (Sample.dek8 0) 0 0 0)
           (Reference.file_of (repeat 0 10 ++ [1; 2; 3])) []
           (repeat 0 10) [1; 2; 3]).
  - repeat split; try (vm_compute; congruence). cbn. lia.
  - reflexivity.
  - reflexivity.
  - left. vm_compute. congruence.
Defined.

(** ** The header *)

Ltac cfx_simpl :=
  cbn [dek set_mdc set_hd set_datalen set_nleft set_on set_size hd mdc_method
       blkmode_on datalen mdc blkmode_nleft blkmode_size fst snd negb].

Tactic Notation "cfx_simpl" "in" hyp(H) :=
  cbn [dek set_mdc set_hd set_datalen set_nleft set_on set_size hd mdc_method
       blkmode_on datalen mdc blkmode_nleft blkmode_size fst snd negb] in H.

Lemma write_header_ready (X : externals) (cfx : cipher_filter_t X)
    (out : list Z) :
  header_ready X cfx ->
  write_header X cfx out
  = (CDK_Success, header_context X cfx,
     out ++ header_bytes X cfx ++ prefix_cipher X cfx).
Proof.
  intros (Hbs & Hmd & Hpkt & Hopen & Hiv & Hkey).
  unfold write_header. cbv zeta.
  unfold header_context, header_bytes, prefix_cipher, fwrite, prefix_plain,
    keyed_handle.
  set (bs := gcry_cipher_get_algo_blklen X (algo (dek cfx))) in *.
  replace ((bs <? 8) || (bs >? 16)) with false
    by (symmetry; apply orb_false_iff; rewrite Z.ltb_ge, Z.gtb_ltb, Z.ltb_ge; lia).
  set (use := header_use_mdc X cfx) in *.
  cfx_simpl.
  destruct (blkmode_on cfx =? 0) eqn:Eon; destruct (use =? 0) eqn:Euse;
    cfx_simpl; unfold md_open;
    try (rewrite Hmd by (apply Z.eqb_neq; exact Euse));
    cbn [fst snd Z.eqb negb]; rewrite Hpkt; cbn [failed];
    cfx_simpl; rewrite Hopen; cbn [Z.eqb negb]; rewrite Hiv; cbn [Z.eqb negb];
    rewrite Hkey; cbn [Z.eqb negb]; unfold mdc_write; cfx_simpl;
    try destruct (mdc cfx); cfx_simpl; rewrite ?Eon; cfx_simpl;
    cbn [option_map gcry_md_write md_buf md_algo md_finalized app];
    rewrite <- ?app_assoc; rewrite ?Z.sub_0_r; reflexivity.
Qed.

(** C9, as the code has it: in block mode with integrity protection the
    chunk budget left after the header is BUFSIZE less the blocksize+2
    bytes of the prefix and less 23: the 22 bytes of the MDC trailer and
    one byte for the format version. *)
Theorem block_mode_budget_after_header
    (X : externals) (cfx : cipher_filter_t X) (out : list Z) :
  header_ready X cfx ->
  blkmode_on cfx <> 0 ->
  header_use_mdc X cfx <> 0 ->
  exists cfx' out',
    write_header X cfx out = (CDK_Success, cfx', out')
    /\ blkmode_nleft cfx'
       = BUFSIZE - (gcry_cipher_get_algo_blklen X (algo (dek cfx)) + 2) - 23.
Proof.
  intros Hready Hon Huse.
  exists (header_context X cfx),
         (out ++ header_bytes X cfx ++ prefix_cipher X cfx).
  split; [now apply write_header_ready|].
  unfold header_context. cfx_simpl.
  apply Z.eqb_neq in Hon, Huse. rewrite Hon, Huse. reflexivity.
Qed.

Lemma reference_ready_block_mode :
  header_ready Reference.lib
    (encode_context Reference.lib (Reference.context (Sample.dek16 0) 0 1 0)
                    (Reference.file_of (Sample.plain 8192))).
Proof.
  repeat split; vm_compute; congruence.
Qed.

Lemma block_mode_budget_after_header_witness :
  exists cfx' out',
    write_header Reference.lib
      (encode_context Reference.lib (Reference.context (Sample.dek16 0) 0 1 0)
                      (Reference.file_of (Sample.plain 8192))) []
    = (CDK_Success, cfx', out')
    /\ blkmode_nleft cfx' = BUFSIZE - (16 + 2) - 23.
Proof.
  apply (block_mode_budget_after_header Reference.lib
           (encode_context Reference.lib
              (Reference.context (Sample.dek16 0) 0 1 0)
              (Reference.file_of (Sample.plain 8192))) []).
  - exact reference_ready_block_mode.
  - vm_compute. congruence.
  - vm_compute. congruence.
Defined.

(** C9 as stated fails: with 16-byte blocks the budget after the header is
    8151, not BUFSIZE - 18 - 22 = 8152. *)
Lemma block_mode_budget_is_not_less_22 :
  let cfx := encode_context Reference.lib
               (Reference.context (Sample.dek16 0) 0 1 0)
               (Reference.file_of (Sample.plain 8192)) in
  fst (fst (write_header Reference.lib cfx [])) = CDK_Success
  /\ blkmode_on cfx = 1
  /\ header_use_mdc Reference.lib cfx = 1
  /\ blkmode_nleft (snd (fst (write_header Reference.lib cfx []))) = 8151
  /\ 8151 <> BUFSIZE - (16 + 2) - 22.
Proof.
  cbv zeta. repeat split; vm_compute; congruence.
Qed.

(** ** The framer *)

Lemma num2bits_pos_log2 (p : positive) : num2bits_pos p = Z.log2 (Zpos p).
Proof.
  induction p as [q IH|q IH|]; cbn [num2bits_pos]; [| |reflexivity].
  - change (Zpos q~1) with (2 * Zpos q + 1).
    rewrite Z.log2_succ_double by lia. lia.
  - change (Zpos q~0) with (2 * Zpos q).
    rewrite Z.log2_double by lia. lia.
Qed.

Lemma num2bits_log2 (n : Z) : 0 < n -> num2bits n = Z.log2 n.
Proof.
  destruct n as [|p|p]; intros H; try lia. apply num2bits_pos_log2.
Qed.

Lemma pow2_iter (n : nat) :
  (n < 64)%nat ->
  Nat.iter n (fun x => size_t (Z.shiftl x 1)) 1 = 2 ^ Z.of_nat n.
Proof.
  induction n as [|n IH]; intros Hn; [reflexivity|].
  rewrite Nat.iter_succ, IH by lia.
  rewrite Z.shiftl_mul_pow2 by lia.
  rewrite Nat2Z.inj_succ, Z.pow_succ_r by lia.
  rewrite size_t_small; [lia|].
  split; [apply Z.mul_nonneg_nonneg; [apply Z.pow_nonneg|]; lia|].
  replace (2 ^ 64) with (2 ^ Z.of_nat n * 2 ^ (64 - Z.of_nat n)).
  - rewrite Z.pow_1_r. apply Z.mul_lt_mono_pos_l; [apply Z.pow_pos_nonneg; lia|].
    change 2 with (2 ^ 1) at 1. apply Z.pow_lt_mono_r; lia.
  - rewrite <- Z.pow_add_r by lia. f_equal. lia.
Qed.

Lemma pow2_spec (y : Z) : 0 <= y < 64 -> pow2 y = 2 ^ y.
Proof.
  intros H. unfold pow2. rewrite pow2_iter by lia. f_equal. lia.
Qed.

(** The size of a partial chunk for a remaining count between 513 and
    BUFSIZE: the largest power of two not above it. *)
Lemma partial_chunk_size (r : Z) :
  512 < r <= BUFSIZE ->
  size_t (num2bits (size_t r)) = Z.log2 r
  /\ pow2 (Z.log2 r) = 2 ^ Z.log2 r
  /\ 512 <= 2 ^ Z.log2 r <= r
  /\ 9 <= Z.log2 r <= 13.
Proof.
  intros Hr. pose proof BUFSIZE_eq as HB.
  assert (Hlog : 9 <= Z.log2 r <= 13).
  { split.
    - change 9 with (Z.log2 512). apply Z.log2_le_mono. lia.
    - change 13 with (Z.log2 8192). apply Z.log2_le_mono. lia. }
  assert (Hsz : size_t r = r) by (apply size_t_small; lia).
  rewrite Hsz, num2bits_log2 by lia.
  rewrite size_t_small by lia.
  split; [reflexivity|]. split; [apply pow2_spec; lia|].
  split; [|exact Hlog]. split.
  - change 512 with (2 ^ 9). apply Z.pow_le_mono_r; lia.
  - apply Z.log2_spec. lia.
Qed.

Lemma fread_within (n : Z) (f : FILE) :
  0 <= n <= Z.of_nat (length (f_rest f)) ->
  fread n f = (firstn (Z.to_nat n) (f_rest f),
               mkFILE (f_stat f) (skipn (Z.to_nat n) (f_rest f)) (f_eof f)).
Proof.
  intros H. unfold fread.
  destruct (n <=? Z.of_nat (length (f_rest f))) eqn:E; [reflexivity|].
  apply Z.leb_gt in E. lia.
Qed.

(** C3 at a remaining count from 192 to 512: the two bytes written announce
    a final chunk of [r] bytes, as the policy says, but the chunk is set to
    [r - 192] bytes, only those are read, and the count of bytes still to
    frame stays at 192: chunking does not stop and 192 bytes are left
    over. *)
Theorem final_chunk_of_192_or_more
    (X : externals) (inp : FILE) (out : list Z) (r : Z)
    (cfx : cipher_filter_t X) :
  blkmode_nleft cfx = 0 ->
  192 <= r <= 512 ->
  r <= Z.of_nat (length (f_rest inp)) ->
  let hdr := [(r - 192) / 256 + 192; (r - 192) mod 256] in
  (nth 0 hdr 0 - 192) * 256 + nth 1 hdr 0 + 192 = r
  /\ next_block_length X out r cfx
     = (out ++ hdr, 192, set_nleft X cfx (r - 192))
  /\ exists rc inp' tail cfx',
       write_partial_block X inp out r cfx
       = (rc, inp', out ++ hdr ++ tail, 192, cfx')
       /\ Z.of_nat (length (f_rest inp'))
          = Z.of_nat (length (f_rest inp)) - (r - 192).
Proof.
  intros Hnleft Hr Hlen hdr. pose proof BUFSIZE_eq as HB.
  assert (Hdiv : (r - 192) / 256 = 0 \/ (r - 192) / 256 = 1).
  { assert (0 <= (r - 192) / 256 < 2); [|lia].
    split; [apply Z.div_pos; lia|apply Z.div_lt_upper_bound; lia]. }
  assert (Hmod := Z.mod_pos_bound (r - 192) 256 ltac:(lia)).
  assert (Hdm := Z.div_mod (r - 192) 256 ltac:(lia)).
  assert (Hnext : next_block_length X out r cfx
                  = (out ++ hdr, 192, set_nleft X cfx (r - 192))).
  { unfold next_block_length. rewrite Hnleft. cbn [Z.eqb].
    replace (r >? BUFSIZE) with false by (symmetry; rewrite Z.gtb_ltb; apply Z.ltb_ge; lia).
    replace (r >? 512) with false by (symmetry; rewrite Z.gtb_ltb; apply Z.ltb_ge; lia).
    cbv zeta. rewrite size_t_small by lia.
    replace (r <? 192) with false by (symmetry; apply Z.ltb_ge; lia).
    replace (r <? 8384) with true by (symmetry; apply Z.ltb_lt; lia).
    unfold fputc, hdr. rewrite <- app_assoc. cbn [app].
    rewrite (Z.mod_small ((r - 192) / 256 + 192)) by lia.
    rewrite Z.mod_mod by lia.
    repeat f_equal. lia. }
  split; [subst hdr; cbn [nth]; lia|]. split; [exact Hnext|].
  unfold write_partial_block. rewrite Hnext. cfx_simpl.
  replace (r - 192 <? BUFSIZE + 1) with true by (symmetry; apply Z.ltb_lt; lia).
  rewrite fread_within by lia.
  assert (Hread : Z.of_nat (length (firstn (Z.to_nat (r - 192)) (f_rest inp))) = r - 192).
  { rewrite length_firstn. lia. }
  rewrite Hread.
  assert (Hskip : Z.of_nat (length (skipn (Z.to_nat (r - 192)) (f_rest inp)))
                  = Z.of_nat (length (f_rest inp)) - (r - 192)).
  { rewrite length_skipn. lia. }
  destruct (r - 192 =? 0) eqn:E0.
  { do 2 eexists. exists [], (set_nleft X cfx (r - 192)).
    rewrite app_nil_r. split; [reflexivity|exact Hskip]. }
  match goal with |- context [failed ?rc] => destruct (failed rc) end.
  - do 2 eexists. exists []. eexists.
    rewrite app_nil_r. split; [reflexivity|exact Hskip].
  - do 2 eexists. eexists. eexists. unfold fwrite. rewrite <- app_assoc.
    split; [reflexivity|exact Hskip].
Qed.

Lemma final_chunk_of_192_or_more_witness :
  let hdr := [(300 - 192) / 256 + 192; (300 - 192) mod 256] in
  (nth 0 hdr 0 - 192) * 256 + nth 1 hdr 0 + 192 = 300
  /\ next_block_length Reference.lib [] 300
       (Reference.context (Sample.dek8 0) 0 1 0)
     = ([] ++ hdr, 192,
        set_nleft Reference.lib (Reference.context (Sample.dek8 0) 0 1 0)
                  (300 - 192))
  /\ exists rc inp' tail cfx',
       write_partial_block Reference.lib
         (Reference.file_of (Sample.plain 300)) [] 300
         (Reference.context (Sample.dek8 0) 0 1 0)
       = (rc, inp', [] ++ hdr ++ tail, 192, cfx')
       /\ Z.of_nat (length (f_rest inp'))
          = Z.of_nat (length (f_rest (Reference.file_of (Sample.plain 300))))
            - (300 - 192).
Proof.
  apply (final_chunk_of_192_or_more Reference.lib
           (Reference.file_of (Sample.plain 300)) [] 300
           (Reference.context (Sample.dek8 0) 0 1 0)).
  - reflexivity.
  - lia.
  - vm_compute. congruence.
Defined.

Lemma next_block_length_budget (X : externals) (out : list Z) (r : Z)
    (cfx : cipher_filter_t X) out1 r1 cfx1 :
  0 <= blkmode_nleft cfx <= BUFSIZE ->
  blkmode_nleft cfx <= r ->
  next_block_length X out r cfx = (out1, r1, cfx1) ->
  0 <= blkmode_nleft cfx1 <= BUFSIZE
  /\ 0 <= r1
  /\ blkmode_nleft cfx1 + r1 = r
  /\ blkmode_on cfx1 = blkmode_on cfx.
Proof.
  intros Hn Hr H. pose proof BUFSIZE_eq as HB.
  unfold next_block_length in H.
  destruct (blkmode_nleft cfx =? 0) eqn:E0.
  2:{ inversion H; subst. apply Z.eqb_neq in E0. repeat split; lia. }
  apply Z.eqb_eq in E0.
  destruct (r >? BUFSIZE) eqn:E1.
  { inversion H; subst. cfx_simpl. rewrite Z.gtb_ltb in E1.
    apply Z.ltb_lt in E1. repeat split; lia. }
  rewrite Z.gtb_ltb in E1. apply Z.ltb_ge in E1.
  destruct (r >? 512) eqn:E2.
  { rewrite Z.gtb_ltb in E2. apply Z.ltb_lt in E2.
    destruct (partial_chunk_size r ltac:(lia)) as (Hb & Hp & Hsz & Hlog).
    cbv zeta in H. rewrite Hb, Hp in H. inversion H; subst. cfx_simpl.
    repeat split; lia. }
  rewrite Z.gtb_ltb in E2. apply Z.ltb_ge in E2.
  cbv zeta in H. rewrite size_t_small in H by lia.
  destruct (r <? 192) eqn:E3.
  { inversion H; subst. cfx_simpl. repeat split; lia. }
  apply Z.ltb_ge in E3.
  replace (r <? 8384) with true in H by (symmetry; apply Z.ltb_lt; lia).
  inversion H; subst. cfx_simpl. repeat split; lia.
Qed.

Lemma write_partial_block_progress (X : externals) (inp : FILE)
    (out : list Z) (r : Z) (cfx : cipher_filter_t X) rc inp' out' r' cfx' :
  block_inv cfx inp r ->
  write_partial_block X inp out r cfx = (rc, inp', out', r', cfx') ->
  failed rc = true
  \/ (block_inv cfx' inp' r'
      /\ (length (f_rest inp') < length (f_rest inp))%nat).
Proof.
  intros (Hon & Heof & Hn & Hr) H. pose proof BUFSIZE_eq as HB.
  unfold write_partial_block in H.
  destruct (next_block_length X out r cfx) as [[out1 r1] cfx1] eqn:En.
  destruct (next_block_length_budget X out r cfx out1 r1 cfx1 Hn (proj1 Hr) En)
    as (Hn1 & Hr1 & Hsum & Hon1).
  replace (blkmode_nleft cfx1 <? BUFSIZE + 1) with true in H
    by (symmetry; apply Z.ltb_lt; lia).
  rewrite fread_within in H by lia.
  rewrite length_firstn in H.
  replace (Z.of_nat (Init.Nat.min (Z.to_nat (blkmode_nleft cfx1)) (length (f_rest inp))))
    with (blkmode_nleft cfx1) in H by lia.
  destruct (blkmode_nleft cfx1 =? 0) eqn:E0.
  { inversion H; subst. left. reflexivity. }
  apply Z.eqb_neq in E0.
  match type of H with context [failed ?c] => destruct (failed c) eqn:Ef end.
  { inversion H; subst. left. exact Ef. }
  inversion H; subst. right. unfold block_inv, mdc_write.
  destruct (mdc cfx1); cfx_simpl; cbn [f_rest f_eof]; rewrite length_skipn;
    (split; [repeat split; try lia; try assumption; congruence | lia]).
Qed.

Lemma encode_loop_block_mode_fails (X : externals) (fuel : nat) :
  forall (cfx : cipher_filter_t X) (inp : FILE) (out : list Z) (r : Z),
  block_inv cfx inp r ->
  (length (f_rest inp) < fuel)%nat ->
  exists rc cfx' inp' out',
    encode_loop X fuel cfx inp out r = Some (rc, cfx', inp', out')
    /\ failed rc = true.
Proof.
  induction fuel as [|fuel IH]; intros cfx inp out r Hinv Hfuel; [lia|].
  cbn [encode_loop]. unfold feof.
  destruct Hinv as (Hon & Heof & Hrest). rewrite Heof.
  apply Z.eqb_neq in Hon. rewrite Hon. cbn [negb]. apply Z.eqb_neq in Hon.
  destruct (write_partial_block X inp out r cfx) as [[[[rc inp1] out1] r1] cfx1] eqn:Ew.
  destruct (write_partial_block_progress X inp out r cfx rc inp1 out1 r1 cfx1
              (conj Hon (conj Heof Hrest)) Ew) as [Hf | [Hinv1 Hlt]].
  - rewrite Hf. eauto 6.
  - destruct (failed rc) eqn:Ef; [eauto 6|].
    apply IH; [exact Hinv1|lia].
Qed.

Lemma write_header_block_mode (X : externals) (cfx : cipher_filter_t X)
    (out : list Z) rc cfx1 out1 :
  write_header X cfx out = (rc, cfx1, out1) ->
  blkmode_on cfx <> 0 ->
  failed rc = false ->
  blkmode_on cfx1 = blkmode_on cfx /\ 0 < blkmode_nleft cfx1 <= BUFSIZE.
Proof.
  intros H Hon Hf. pose proof BUFSIZE_eq as HB.
  unfold write_header in H. cbv zeta in H.
  set (B := BUFSIZE) in *. clearbody B.
  set (bs := gcry_cipher_get_algo_blklen X (algo (dek cfx))) in *.
  destruct ((bs <? 8) || (bs >? 16)) eqn:Ebs.
  { injection H as ? ? ?; subst. discriminate. }
  apply orb_false_iff in Ebs. rewrite Z.gtb_ltb, !Z.ltb_ge in Ebs.
  apply Z.eqb_neq in Hon. cfx_simpl in H. rewrite Hon in H. cfx_simpl in H.
  unfold mdc_write in H.
  destruct (header_use_mdc X cfx =? 0); cfx_simpl in H;
    repeat match type of H with
    | (if ?c then _ else _) = _ =>
        destruct c;
        [injection H as ? ? ?; subst; cfx_simpl; split; [reflexivity|lia]|]
    end;
    match type of H with
    | context [match ?m with Some _ => _ | None => _ end] => destruct m
    end;
    cfx_simpl in H; rewrite Hon in H; cfx_simpl in H;
    injection H as ? ? ?; subst; cfx_simpl; split; (reflexivity || lia).
Qed.

(** C1 in block mode: for an input of BUFSIZE bytes or more with chunking
    switched on, cipher_encode never returns CDK_Success, whatever the
    cipher, the key and the plaintext: the loop is only left through a
    failing write_partial_block, so there is no packet to decode. *)
Theorem chunked_encode_never_succeeds
    (X : externals) (cfx : cipher_filter_t X) (inp : FILE) (out : list Z) :
  blkmode_on cfx <> 0 ->
  f_stat inp = Some (Z.of_nat (length (f_rest inp))) ->
  f_eof inp = false ->
  BUFSIZE <= Z.of_nat (length (f_rest inp)) ->
  exists rc cfx' inp' out',
    cipher_encode X (Some cfx) (Some inp) (Some out)
    = Returned rc cfx' inp' out'
    /\ rc <> CDK_Success.
Proof.
  intros Hon Hstat Heof Hlen. pose proof BUFSIZE_eq as HB.
  unfold cipher_encode.
  assert (Hctx : encode_context X cfx inp
                 = set_datalen X cfx (Z.of_nat (length (f_rest inp)))).
  { unfold encode_context, fp_get_length. rewrite Hstat. cfx_simpl.
    replace (Z.of_nat (length (f_rest inp)) <? BUFSIZE) with false
      by (symmetry; apply Z.ltb_ge; lia). reflexivity. }
  rewrite Hctx.
  destruct (write_header X _ out) as [[rc cfx1] out1] eqn:Eh.
  destruct (failed rc) eqn:Ef.
  { exists rc, cfx1, inp, out1. split; [reflexivity|]. intros E; rewrite E in *; discriminate. }
  destruct (write_header_block_mode X _ out rc cfx1 out1 Eh Hon Ef) as [Hon1 Hn1].
  cfx_simpl in Hon1.
  unfold cipher_encode_file, fp_get_length. rewrite Hstat.
  replace (Z.of_nat (length (f_rest inp)) =? -1) with false
    by (symmetry; apply Z.eqb_neq; lia).
  destruct (encode_loop_block_mode_fails X (loop_fuel inp) cfx1 inp out1
              (Z.of_nat (length (f_rest inp))))
    as (rc' & cfx' & inp' & out' & Hloop & Hfail).
  - unfold block_inv. rewrite Hon1. repeat split; try assumption; lia.
  - unfold loop_fuel. lia.
  - rewrite Hloop, Hfail. exists rc', cfx', inp', out'.
    split; [reflexivity|]. intros E; rewrite E in *; discriminate.
Qed.

Lemma chunked_encode_never_succeeds_witness :
  exists rc cfx' inp' out',
    cipher_encode Reference.lib
      (Some (Reference.context (Sample.dek8 1) 0 1 0))
      (Some (Reference.file_of (Sample.plain 8192))) (Some [])
    = Returned rc cfx' inp' out'
    /\ rc <> CDK_Success.
Proof.
  apply (chunked_encode_never_succeeds Reference.lib
           (Reference.context (Sample.dek8 1) 0 1 0)
           (Reference.file_of (Sample.plain 8192)) []).
  - vm_compute. congruence.
  - vm_compute. reflexivity.
  - reflexivity.
  - vm_compute. congruence.
Defined.

(** ** The reference instance is a stream cipher *)

Lemma cfb_run_app (d : bool) (a b : list Z) :
  forall h,
  Reference.cfb_run d h (a ++ b)
  = (fst (Reference.cfb_run d (fst (Reference.cfb_run d h a)) b),
     snd (Reference.cfb_run d h a)
     ++ snd (Reference.cfb_run d (fst (Reference.cfb_run d h a)) b)).
Proof.
  induction a as [|x r IH]; intros h.
  - cbn [app Reference.cfb_run fst snd].
    now destruct (Reference.cfb_run d h b).
  - cbn [app Reference.cfb_run].
    destruct (Reference.cfb_step d h x) as [h1 y].
    rewrite IH.
    destruct (Reference.cfb_run d h1 r) as [h2 ys].
    reflexivity.
Qed.

Lemma xor_twice (a b : Z) : Z.lxor a (Z.lxor a b) = b.
Proof.
  now rewrite <- Z.lxor_assoc, Z.lxor_nilpotent, Z.lxor_0_l.
Qed.

Lemma cfb_step_inverse (h : Reference.cfb_hd) (x : Z) :
  Reference.cfb_step true h (snd (Reference.cfb_step false h x))
  = (fst (Reference.cfb_step false h x), x).
Proof.
  unfold Reference.cfb_step. cbn [fst snd]. now rewrite xor_twice.
Qed.

Lemma cfb_run_inverse (p : list Z) :
  forall h,
  Reference.cfb_run true h (snd (Reference.cfb_run false h p))
  = (fst (Reference.cfb_run false h p), p).
Proof.
  induction p as [|x r IH]; intros h; [reflexivity|].
  cbn [Reference.cfb_run].
  pose proof (cfb_step_inverse h x) as Hstep.
  destruct (Reference.cfb_step false h x) as [h1 y]. cbn [fst snd] in Hstep.
  specialize (IH h1).
  destruct (Reference.cfb_run false h1 r) as [h2 ys]. cbn [fst snd] in *.
  cbn [Reference.cfb_run]. rewrite Hstep, IH. reflexivity.
Qed.

Lemma reference_stream_cipher (bl : Z -> Z) :
  stream_cipher (Reference.lib_of bl).
Proof.
  constructor; intros h a; [intros b|intros b|];
    unfold enc_bytes, enc_hd, dec_bytes, dec_hd;
    cbn [gcry_cipher_encrypt gcry_cipher_decrypt Reference.lib_of
         Reference.cfb_crypt fst snd].
  - rewrite cfb_run_app. split; reflexivity.
  - rewrite cfb_run_app. split; reflexivity.
  - rewrite cfb_run_inverse. split; reflexivity.
Qed.

Lemma fread_beyond (n : Z) (f : FILE) :
  Z.of_nat (length (f_rest f)) < n ->
  fread n f = (f_rest f, mkFILE (f_stat f) [] true).
Proof.
  intros H. unfold fread.
  destruct (n <=? Z.of_nat (length (f_rest f))) eqn:E; [|reflexivity].
  apply Z.leb_le in E. lia.
Qed.

(** ** Termination of the encoder *)

(** A read takes its bytes off the stream. *)
Lemma fread_consumes (n : Z) (f : FILE) :
  (length (f_rest (snd (fread n f))) + length (fst (fread n f))
   = length (f_rest f))%nat.
Proof.
  unfold fread. destruct (n <=? Z.of_nat (length (f_rest f))) eqn:E;
    cbn [fst snd f_rest].
  - rewrite length_skipn, length_firstn. apply Z.leb_le in E. lia.
  - cbn [length]. lia.
Qed.

Lemma next_block_length_appends (X : externals) (out : list Z) (r : Z)
    (cfx : cipher_filter_t X) :
  exists hdr, fst (fst (next_block_length X out r cfx)) = out ++ hdr.
Proof.
  unfold next_block_length, fputc.
  repeat match goal with
  | |- context [if ?c then _ else _] => destruct c
  end; cbn [fst snd]; rewrite <- ?app_assoc; eauto using app_nil_r.
Qed.

Lemma write_partial_block_steps (X : externals) (inp : FILE) (out : list Z)
    (r : Z) (cfx : cipher_filter_t X) rc inp' out' r' cfx' :
  write_partial_block X inp out r cfx = (rc, inp', out', r', cfx') ->
  (exists tail, out' = out ++ tail)
  /\ (failed rc = false ->
      (length (f_rest inp') < length (f_rest inp))%nat).
Proof.
  unfold write_partial_block.
  destruct (next_block_length_appends X out r cfx) as [hdr Hhdr].
  destruct (next_block_length X out r cfx) as [[out1 r1] cfx1].
  cbn [fst snd] in Hhdr. subst out1.
  set (n := if blkmode_nleft cfx1 <? BUFSIZE + 1
            then blkmode_nleft cfx1 else BUFSIZE + 1).
  pose proof (fread_consumes n inp) as Hc.
  destruct (fread n inp) as [buf inp1]. cbn [fst snd] in Hc.
  destruct (Z.of_nat (length buf) =? 0) eqn:E0.
  { intros H. injection H as <- <- <- <- <-. split; [eauto|discriminate]. }
  apply Z.eqb_neq in E0.
  match goal with |- context [failed ?c] => destruct (failed c) eqn:Ef end;
    intros H; injection H as <- <- <- <- <-.
  - split; [eauto|]. rewrite Ef. discriminate.
  - split; [unfold fwrite; rewrite <- app_assoc; eauto|].
    intros _. lia.
Qed.

(** The encoder loop ends, whatever the mode, and only appends to the
    output. *)
Lemma encode_loop_returns (X : externals) (fuel : nat) :
  forall (cfx : cipher_filter_t X) (inp : FILE) (out : list Z) (len2 : Z),
  (length (f_rest inp) < fuel)%nat ->
  exists rc cfx' inp' tail,
    encode_loop X fuel cfx inp out len2 = Some (rc, cfx', inp', out ++ tail).
Proof.
  induction fuel as [|fuel IH]; intros cfx inp out len2 Hfuel; [lia|].
  cbn [encode_loop].
  destruct (feof inp). { exists CDK_Success, cfx, inp, []. now rewrite app_nil_r. }
  destruct (negb (blkmode_on cfx =? 0)).
  - destruct (write_partial_block X inp out len2 cfx)
      as [[[[rc inp1] out1] len1] cfx1] eqn:Ew.
    destruct (write_partial_block_steps X _ _ _ _ _ _ _ _ _ Ew)
      as [[tail ->] Hlt].
    destruct (failed rc); [eauto|].
    destruct (IH cfx1 inp1 (out ++ tail) len1 ltac:(specialize (Hlt eq_refl); lia))
      as (rc' & cfx' & inp' & tail' & Hloop).
    rewrite Hloop, <- app_assoc. eauto.
  - pose proof (fread_consumes BUFSIZE inp) as Hc.
    destruct (fread BUFSIZE inp) as [buf inp1]. cbn [fst snd] in Hc.
    destruct (Z.of_nat (length buf) =? 0) eqn:E0.
    { exists CDK_Success, cfx, inp1, []. now rewrite app_nil_r. }
    apply Z.eqb_neq in E0.
    match goal with
    | |- context [encode_loop X fuel ?c ?i ?o ?l] =>
        destruct (IH c i o l ltac:(lia)) as (rc' & cfx' & inp' & tail' & Hloop)
    end.
    rewrite Hloop. unfold fwrite. rewrite <- app_assoc. eauto.
Qed.

Lemma write_mdc_packet_appends (X : externals) (out : list Z)
    (cfx : cipher_filter_t X) (m : gcry_md_hd_t) :
  exists tail, snd (fst (write_mdc_packet X out cfx m)) = out ++ tail.
Proof.
  unfold write_mdc_packet.
  destruct (negb (gcry_md_get_algo_dlen X GCRY_MD_SHA1 =? 20)); cbn [fst snd].
  - exists []. now rewrite app_nil_r.
  - unfold fwrite. eauto.
Qed.

Lemma cipher_encode_file_returns (X : externals) (cfx : cipher_filter_t X)
    (inp : FILE) (out : list Z) :
  exists rc cfx' inp' tail,
    cipher_encode_file X cfx inp out = Some (rc, cfx', inp', out ++ tail).
Proof.
  unfold cipher_encode_file.
  destruct (fp_get_length inp =? -1).
  { exists CDK_File_Error, cfx, inp, []. now rewrite app_nil_r. }
  destruct (encode_loop_returns X (loop_fuel inp) cfx inp out
              (fp_get_length inp) ltac:(unfold loop_fuel; lia))
    as (rc & cfx1 & inp1 & tail & Hloop).
  rewrite Hloop. destruct (failed rc); [eauto|].
  destruct (mdc cfx1) as [m|]; [|eauto].
  destruct (write_mdc_packet_appends X (out ++ tail) cfx1 m) as [t Ht].
  destruct (write_mdc_packet X (out ++ tail) cfx1 m) as [[rc' out'] cfx'].
  cbn [fst snd] in Ht. subst out'. rewrite <- app_assoc. eauto.
Qed.

(** cipher_encode returns on every input: the fuel of the model is always
    enough. *)
Lemma cipher_encode_returns (X : externals) (cfx : cipher_filter_t X)
    (inp : FILE) (out : list Z) :
  exists rc cfx' inp' out',
    cipher_encode X (Some cfx) (Some inp) (Some out)
    = Returned rc cfx' inp' out'.
Proof.
  unfold cipher_encode.
  destruct (write_header X (encode_context X cfx inp) out) as [[rc cfx1] out1].
  destruct (failed rc); [eauto|].
  destruct (cipher_encode_file_returns X cfx1 inp out1)
    as (rc' & cfx' & inp' & tail & H).
  rewrite H. eauto.
Qed.

(** ** The encoder loop without chunking *)

Lemma mdc_write_fields (X : externals) (c : cipher_filter_t X) (buf : list Z) :
  hd (mdc_write X c buf) = hd c
  /\ blkmode_on (mdc_write X c buf) = blkmode_on c
  /\ mdc (mdc_write X c buf)
     = option_map (fun m => gcry_md_write m buf) (mdc c).
Proof.
  unfold mdc_write. destruct (mdc c) eqn:E; cfx_simpl; rewrite ?E; auto.
Qed.

Lemma gcry_md_write_app (m : gcry_md_hd_t) (a b : list Z) :
  gcry_md_write (gcry_md_write m a) b = gcry_md_write m (a ++ b).
Proof.
  unfold gcry_md_write. cbn [md_algo md_buf md_finalized].
  now rewrite app_assoc.
Qed.

Lemma gcry_md_write_nil (m : gcry_md_hd_t) : gcry_md_write m [] = m.
Proof.
  destruct m as [a b f]. unfold gcry_md_write.
  cbn [md_algo md_buf md_finalized]. now rewrite app_nil_r.
Qed.

Lemma enc_bytes_nil (X : externals) (h : gcry_cipher_hd_t X) :
  enc_bytes X h [] = [].
Proof.
  unfold enc_bytes. pose proof (encrypt_length X h []) as H.
  destruct (snd (gcry_cipher_encrypt X h [])); [reflexivity|discriminate].
Qed.

(** A stream of at least BUFSIZE bytes starts with a full buffer. *)
Lemma split_buffer (l : list Z) :
  BUFSIZE <= Z.of_nat (length l) ->
  exists chunk rest,
    l = chunk ++ rest
    /\ Z.of_nat (length chunk) = BUFSIZE
    /\ firstn (Z.to_nat BUFSIZE) l = chunk
    /\ skipn (Z.to_nat BUFSIZE) l = rest.
Proof.
  intros H. pose proof BUFSIZE_eq as HB.
  exists (firstn (Z.to_nat BUFSIZE) l), (skipn (Z.to_nat BUFSIZE) l).
  rewrite firstn_skipn, length_firstn. repeat split; lia.
Qed.

(** An iteration that finds a full buffer. *)
Lemma encode_loop_full_buffer (X : externals) (fuel : nat)
    (cfx : cipher_filter_t X) (inp : FILE) (out : list Z) (len2 : Z)
    (chunk rest : list Z) :
  blkmode_on cfx = 0 ->
  f_eof inp = false ->
  Z.of_nat (length chunk) = BUFSIZE ->
  firstn (Z.to_nat BUFSIZE) (f_rest inp) = chunk ->
  skipn (Z.to_nat BUFSIZE) (f_rest inp) = rest ->
  encode_loop X (S fuel) cfx inp out len2
  = encode_loop X fuel
      (set_hd X (mdc_write X cfx chunk) (enc_hd X (hd cfx) chunk))
      (mkFILE (f_stat inp) rest false)
      (out ++ enc_bytes X (hd cfx) chunk) len2.
Proof.
  intros Hon Heof Hchunk Hfirst Hskip. pose proof BUFSIZE_eq as HB.
  assert (Hlen : BUFSIZE <= Z.of_nat (length (f_rest inp))).
  { rewrite <- Hchunk, <- Hfirst, length_firstn. lia. }
  cbn [encode_loop]. unfold feof. rewrite Heof, Hon. cbn [Z.eqb negb].
  rewrite fread_within by lia. rewrite Hfirst, Hskip, Heof, Hchunk.
  replace (BUFSIZE =? 0) with false by (symmetry; apply Z.eqb_neq; lia).
  destruct (mdc_write_fields X cfx chunk) as (Hhd & _ & _).
  rewrite Hhd. reflexivity.
Qed.

(** The iteration that meets the end of the input. *)
Lemma encode_loop_last_buffer (X : externals) (fuel : nat)
    (cfx : cipher_filter_t X) (inp : FILE) (out : list Z) (len2 : Z) :
  blkmode_on cfx = 0 ->
  f_eof inp = false ->
  0 < Z.of_nat (length (f_rest inp)) < BUFSIZE ->
  encode_loop X (S (S fuel)) cfx inp out len2
  = Some (CDK_Success,
          set_hd X (mdc_write X cfx (f_rest inp))
                 (enc_hd X (hd cfx) (f_rest inp)),
          mkFILE (f_stat inp) [] true,
          out ++ enc_bytes X (hd cfx) (f_rest inp)).
Proof.
  intros Hon Heof Hlen. pose proof BUFSIZE_eq as HB.
  cbn [encode_loop]. unfold feof. rewrite Heof, Hon. cbn [Z.eqb negb].
  rewrite fread_beyond by lia. cbn [f_eof].
  replace (Z.of_nat (length (f_rest inp)) =? 0) with false
    by (symmetry; apply Z.eqb_neq; lia).
  destruct (mdc_write_fields X cfx (f_rest inp)) as (Hhd & _ & _).
  rewrite Hhd. reflexivity.
Qed.

Lemma encode_loop_at_end (X : externals) (fuel : nat)
    (cfx : cipher_filter_t X) (inp : FILE) (out : list Z) (len2 : Z) :
  blkmode_on cfx = 0 ->
  f_eof inp = false ->
  f_rest inp = [] ->
  encode_loop X (S fuel) cfx inp out len2
  = Some (CDK_Success, cfx, mkFILE (f_stat inp) [] true, out).
Proof.
  intros Hon Heof Hnil. pose proof BUFSIZE_eq as HB.
  cbn [encode_loop]. unfold feof. rewrite Heof, Hon. cbn [Z.eqb negb].
  rewrite fread_beyond by (rewrite Hnil; cbn; lia).
  rewrite Hnil. reflexivity.
Qed.

Lemma encode_loop_definite (X : externals) (HX : stream_cipher X)
    (fuel : nat) :
  forall (cfx : cipher_filter_t X) (inp : FILE) (out : list Z) (len2 : Z),
  blkmode_on cfx = 0 ->
  f_eof inp = false ->
  (S (length (f_rest inp)) < fuel)%nat ->
  encoded_all cfx inp out (encode_loop X fuel cfx inp out len2).
Proof.
  pose proof BUFSIZE_eq as HB.
  induction fuel as [|fuel IH]; intros cfx inp out len2 Hon Heof Hfuel; [lia|].
  destruct (Z.lt_ge_cases (Z.of_nat (length (f_rest inp))) BUFSIZE) as [Hlt|Hge].
  - destruct (Z.eq_dec (Z.of_nat (length (f_rest inp))) 0) as [E0|E0].
    + assert (Hnil : f_rest inp = []).
      { destruct (f_rest inp); [reflexivity|cbn in E0; lia]. }
      rewrite encode_loop_at_end by assumption.
      exists cfx. rewrite Hnil, enc_bytes_nil, app_nil_r. cbn [app].
      split; [reflexivity|]. split; [reflexivity|].
      destruct (mdc cfx) as [m|]; cbn [option_map];
        [now rewrite gcry_md_write_nil|reflexivity].
    + destruct fuel as [|fuel]; [lia|].
      rewrite encode_loop_last_buffer by (assumption || lia).
      destruct (mdc_write_fields X cfx (f_rest inp)) as (_ & _ & Hmdc).
      eexists. split; [reflexivity|]. cfx_simpl.
      split; [|exact Hmdc].
      intros t. symmetry. apply (encrypt_app X HX).
  - destruct (split_buffer (f_rest inp) Hge)
      as (chunk & rest' & Hsplit & Hchunk & Hfirst & Hskip).
    rewrite (encode_loop_full_buffer X fuel cfx inp out len2 chunk rest')
      by assumption.
    destruct (mdc_write_fields X cfx chunk) as (Hhd & Hon' & Hmdc).
    destruct (IH (set_hd X (mdc_write X cfx chunk) (enc_hd X (hd cfx) chunk))
                 (mkFILE (f_stat inp) rest' false)
                 (out ++ enc_bytes X (hd cfx) chunk) len2)
      as (cfx' & Hloop & Hcont & Hmdc').
    + cfx_simpl. rewrite Hon'. exact Hon.
    + reflexivity.
    + cbn [f_rest]. rewrite Hsplit, length_app in Hfuel. lia.
    + cfx_simpl in Hloop. cfx_simpl in Hcont. cfx_simpl in Hmdc'.
      cbn [f_rest f_stat] in Hloop. cbn [f_rest] in Hcont.
      cbn [f_rest] in Hmdc'.
      destruct (encrypt_app X HX (hd cfx) chunk rest') as [Hbytes _].
      exists cfx'. rewrite Hloop, Hsplit, Hbytes.
      rewrite <- app_assoc. split; [reflexivity|]. split.
      * intros t. rewrite <- !app_assoc, Hcont.
        symmetry. apply (encrypt_app X HX).
      * rewrite Hmdc', Hmdc. destruct (mdc cfx) as [m|]; cbn [option_map];
          [now rewrite gcry_md_write_app|reflexivity].
Qed.

(** ** The trailer check *)

Lemma size_t_negative (z : Z) : - 2 ^ 64 <= z < 0 -> size_t z = z + 2 ^ 64.
Proof.
  intros H. unfold size_t. symmetry.
  apply (Z.mod_unique z (2 ^ 64) (-1) (z + 2 ^ 64)); lia.
Qed.

Lemma two_64_large : 8192 < 2 ^ 64.
Proof. reflexivity. Qed.

(** finalize_mdc on fewer than 22 bytes reads outside them. *)
Lemma finalize_mdc_short (X : externals) (m : gcry_md_hd_t) (buf : list Z) :
  gcry_md_get_algo_dlen X GCRY_MD_SHA1 = 20 ->
  Z.of_nat (length buf) < 22 ->
  Z.of_nat (length buf) <= BUFSIZE ->
  finalize_mdc X m buf (Z.of_nat (length buf)) = None.
Proof.
  intros Hd Hshort Hbuf. pose proof BUFSIZE_eq as HB.
  pose proof two_64_large as H64.
  unfold finalize_mdc. rewrite Hd. cbn [Z.eqb negb].
  rewrite size_t_negative by lia.
  unfold buf_get.
  replace (Z.of_nat (length buf) - 20 - 2 + 2 ^ 64 <? Z.of_nat (length buf))
    with false by (symmetry; apply Z.ltb_ge; lia).
  rewrite andb_false_r. reflexivity.
Qed.

Lemma finalize_mdc_in_bounds (X : externals) (m : gcry_md_hd_t)
    (buf : list Z) :
  gcry_md_get_algo_dlen X GCRY_MD_SHA1 = 20 ->
  22 <= Z.of_nat (length buf) <= BUFSIZE ->
  finalize_mdc X m buf (Z.of_nat (length buf))
  = Some (mdc_verdict X m buf,
          if trailer_tag_ok buf
          then gcry_md_final (gcry_md_write m (hashed_part buf))
          else m).
Proof.
  intros Hd Hlen. pose proof BUFSIZE_eq as HB.
  pose proof two_64_large as H64.
  unfold finalize_mdc, mdc_verdict, trailer_tag_ok. rewrite Hd.
  cbn [Z.eqb negb].
  rewrite !size_t_small by lia.
  unfold buf_get, buf_range.
  replace (Z.of_nat (length buf) - 20 - 2) with (Z.of_nat (length buf) - 22) by lia.
  replace (Z.of_nat (length buf) - 20 - 1) with (Z.of_nat (length buf) - 21) by lia.
  replace (0 <=? Z.of_nat (length buf) - 22) with true by (symmetry; apply Z.leb_le; lia).
  replace (0 <=? Z.of_nat (length buf) - 21) with true by (symmetry; apply Z.leb_le; lia).
  replace (0 <=? Z.of_nat (length buf) - 20) with true by (symmetry; apply Z.leb_le; lia).
  replace (Z.of_nat (length buf) - 22 <? Z.of_nat (length buf)) with true by (symmetry; apply Z.ltb_lt; lia).
  replace (Z.of_nat (length buf) - 21 <? Z.of_nat (length buf)) with true by (symmetry; apply Z.ltb_lt; lia).
  replace (0 + (Z.of_nat (length buf) - 20) <=? Z.of_nat (length buf)) with true by (symmetry; apply Z.leb_le; lia).
  replace (Z.of_nat (length buf) - 20 + 20 <=? Z.of_nat (length buf)) with true by (symmetry; apply Z.leb_le; lia).
  cbn [andb Z.leb Z.compare].
  destruct (byte_at buf (Z.of_nat (length buf) - 22) =? 211); cbn [negb andb]; [|reflexivity].
  destruct (byte_at buf (Z.of_nat (length buf) - 21) =? 20); cbn [negb]; [|reflexivity].
  change (Z.to_nat 0) with O. rewrite skipn_O.
  replace (Z.to_nat (Z.of_nat (length buf) - 20)) with (length buf - 20)%nat by lia.
  fold (hashed_part buf).
  assert (Htail : firstn (Z.to_nat 20) (skipn (length buf - 20) buf) = trailer_digest buf).
  { unfold trailer_digest. apply firstn_all2. rewrite length_skipn. lia. }
  rewrite Htail.
  assert (Hexp : firstn (Z.to_nat 20)
                   (gcry_md_read X (gcry_md_final (gcry_md_write m (hashed_part buf))) GCRY_MD_SHA1)
                 = expected_digest X m buf).
  { unfold expected_digest. apply firstn_all2.
    pose proof (md_read_length X (gcry_md_final (gcry_md_write m (hashed_part buf))) GCRY_MD_SHA1).
    lia. }
  rewrite Hexp.
  destruct (bytes_eqb (expected_digest X m buf) (trailer_digest buf)); reflexivity.
Qed.

(** *** The decoder loop without chunking *)

(** An iteration that finds a full buffer: it is decrypted, hashed and
    written, and the loop goes on. *)
Lemma decode_loop_full_buffer (X : externals) (fuel : nat)
    (cfx : cipher_filter_t X) (inp : FILE) (out : list Z)
    (chunk rest : list Z) :
  blkmode_on cfx = 0 ->
  f_eof inp = false ->
  Z.of_nat (length chunk) = BUFSIZE ->
  firstn (Z.to_nat BUFSIZE) (f_rest inp) = chunk ->
  skipn (Z.to_nat BUFSIZE) (f_rest inp) = rest ->
  decode_loop X (S fuel) cfx inp out
  = decode_loop X fuel
      (mdc_write X (set_hd X cfx (dec_hd X (hd cfx) chunk))
                 (dec_bytes X (hd cfx) chunk))
      (mkFILE (f_stat inp) rest false)
      (out ++ dec_bytes X (hd cfx) chunk).
Proof.
  intros Hon Heof Hchunk Hfirst Hskip. pose proof BUFSIZE_eq as HB.
  assert (Hlen : BUFSIZE <= Z.of_nat (length (f_rest inp))).
  { rewrite <- Hchunk, <- Hfirst, length_firstn. lia. }
  cbn [decode_loop]. unfold feof. rewrite Heof, Hon. cbn [Z.eqb negb].
  rewrite fread_within by lia. rewrite Hfirst, Hskip. cbn [f_eof].
  rewrite Heof, Hchunk.
  replace (BUFSIZE =? 0) with false by (symmetry; apply Z.eqb_neq; lia).
  replace (BUFSIZE >? BUFSIZE) with false
    by (symmetry; rewrite Z.gtb_ltb; apply Z.ltb_ge; lia).
  fold (dec_bytes X (hd cfx) chunk). fold (dec_hd X (hd cfx) chunk).
  cbn [failed]. unfold decode_emit.
  destruct (mdc_write_fields X (set_hd X cfx (dec_hd X (hd cfx) chunk))
              (dec_bytes X (hd cfx) chunk)) as (_ & Hon' & _).
  rewrite Hon'. cfx_simpl. rewrite Hon. cbn [Z.eqb negb failed].
  unfold fwrite. rewrite firstn_all2; [reflexivity|].
  unfold dec_bytes. rewrite decrypt_length. lia.
Qed.

Lemma mod_minus_period (n b : Z) : 0 < b -> (n - b) mod b = n mod b.
Proof.
  intros Hb. rewrite <- (Z.mod_add (n - b) 1 b) by lia. f_equal. lia.
Qed.

Lemma div_minus_period (n b : Z) : 0 < b -> n / b = (n - b) / b + 1.
Proof.
  intros Hb. rewrite <- (Z.div_add (n - b) 1 b) by lia. f_equal. lia.
Qed.

(** The iteration that meets the end of the input with fewer than 22
    bytes and a digest handle. *)
Lemma decode_loop_last_short (X : externals) (fuel : nat)
    (cfx : cipher_filter_t X) (inp : FILE) (out : list Z) :
  blkmode_on cfx = 0 ->
  f_eof inp = false ->
  mdc cfx <> None ->
  gcry_md_get_algo_dlen X GCRY_MD_SHA1 = 20 ->
  0 < Z.of_nat (length (f_rest inp)) < 22 ->
  decode_loop X (S fuel) cfx inp out = Out_Of_Bounds.
Proof.
  intros Hon Heof Hmdc Hd Hlen. pose proof BUFSIZE_eq as HB.
  cbn [decode_loop]. unfold feof. rewrite Heof, Hon. cbn [Z.eqb negb].
  rewrite fread_beyond by lia. cbn [f_eof].
  replace (Z.of_nat (length (f_rest inp)) =? 0) with false
    by (symmetry; apply Z.eqb_neq; lia).
  replace (Z.of_nat (length (f_rest inp)) >? BUFSIZE) with false
    by (symmetry; rewrite Z.gtb_ltb; apply Z.ltb_ge; lia).
  cfx_simpl. destruct (mdc cfx) as [m|]; [|congruence].
  pose proof (decrypt_length X (hd cfx) (f_rest inp)) as Hdl.
  rewrite <- Hdl at 1.
  rewrite finalize_mdc_short; [reflexivity|exact Hd|lia|lia].
Qed.

(** C10 for a stream without chunking. *)
Lemma decode_loop_out_of_bounds (X : externals) (fuel : nat) :
  forall (cfx : cipher_filter_t X) (inp : FILE) (out : list Z),
  blkmode_on cfx = 0 ->
  f_eof inp = false ->
  mdc cfx <> None ->
  gcry_md_get_algo_dlen X GCRY_MD_SHA1 = 20 ->
  (length (f_rest inp) < fuel)%nat ->
  0 < Z.of_nat (length (f_rest inp)) mod BUFSIZE < 22 ->
  decode_loop X fuel cfx inp out = Out_Of_Bounds.
Proof.
  pose proof BUFSIZE_eq as HB.
  induction fuel as [|fuel IH]; intros cfx inp out Hon Heof Hmdc Hd Hfuel Hmod;
    [lia|].
  destruct (Z.lt_ge_cases (Z.of_nat (length (f_rest inp))) BUFSIZE) as [Hlt|Hge].
  - rewrite Z.mod_small in Hmod by lia.
    now apply decode_loop_last_short.
  - destruct (split_buffer (f_rest inp) Hge)
      as (chunk & rest' & Hsplit & Hchunk & Hfirst & Hskip).
    rewrite (decode_loop_full_buffer X fuel cfx inp out chunk rest')
      by assumption.
    assert (Hrest' : Z.of_nat (length rest')
                     = Z.of_nat (length (f_rest inp)) - BUFSIZE).
    { rewrite Hsplit, length_app. lia. }
    destruct (mdc_write_fields X (set_hd X cfx (dec_hd X (hd cfx) chunk))
                (dec_bytes X (hd cfx) chunk)) as (_ & Hon' & Hmdc').
    apply IH; cbn [f_rest f_eof].
    + rewrite Hon'. exact Hon.
    + reflexivity.
    + rewrite Hmdc'. cfx_simpl. destruct (mdc cfx); [discriminate|congruence].
    + exact Hd.
    + lia.
    + rewrite Hrest', mod_minus_period by lia. exact Hmod.
Qed.

(** C10 fails on the code: without chunking the last read of a pass has
    the length of the body modulo BUFSIZE; when that is between 1 and 21
    and a digest handle is present, finalize_mdc is called on those bytes
    and reads before the start of the buffer. *)
Theorem trailer_check_reads_out_of_bounds
    (X : externals) (cfx : cipher_filter_t X) (inp : FILE) (out : list Z) :
  blkmode_on cfx = 0 ->
  f_eof inp = false ->
  mdc cfx <> None ->
  gcry_md_get_algo_dlen X GCRY_MD_SHA1 = 20 ->
  0 < Z.of_nat (length (f_rest inp)) mod BUFSIZE < 22 ->
  cipher_decode_file X cfx inp out = Out_Of_Bounds.
Proof.
  intros Hon Heof Hmdc Hd Hmod. unfold cipher_decode_file.
  apply decode_loop_out_of_bounds; try assumption.
  unfold loop_fuel. lia.
Qed.

(** The iteration that meets the end of the input with at least 22 bytes
    and a digest handle: the trailer is checked, the bytes before it are
    written, and the next test of the loop ends the pass. *)
Lemma decode_loop_last_verified (X : externals) (fuel : nat)
    (cfx : cipher_filter_t X) (inp : FILE) (out : list Z) (m : gcry_md_hd_t) :
  blkmode_on cfx = 0 ->
  f_eof inp = false ->
  mdc cfx = Some m ->
  gcry_md_get_algo_dlen X GCRY_MD_SHA1 = 20 ->
  22 <= Z.of_nat (length (f_rest inp)) < BUFSIZE ->
  exists cfx' inp',
    decode_loop X (S (S fuel)) cfx inp out
    = Returned (mdc_verdict X m (dec_bytes X (hd cfx) (f_rest inp))) cfx' inp'
        (out ++ delivered X m (dec_bytes X (hd cfx) (f_rest inp))).
Proof.
  intros Hon Heof Hmdc Hd Hlen. pose proof BUFSIZE_eq as HB.
  cbn [decode_loop]. unfold feof. rewrite Heof, Hon. cbn [Z.eqb negb].
  rewrite fread_beyond by lia. cbn [f_eof].
  replace (Z.of_nat (length (f_rest inp)) =? 0) with false
    by (symmetry; apply Z.eqb_neq; lia).
  replace (Z.of_nat (length (f_rest inp)) >? BUFSIZE) with false
    by (symmetry; rewrite Z.gtb_ltb; apply Z.ltb_ge; lia).
  cfx_simpl. rewrite Hmdc.
  fold (dec_bytes X (hd cfx) (f_rest inp)). fold (dec_hd X (hd cfx) (f_rest inp)).
  set (D := dec_bytes X (hd cfx) (f_rest inp)).
  assert (HD : length D = length (f_rest inp)).
  { subst D. unfold dec_bytes. apply decrypt_length. }
  rewrite <- HD. rewrite finalize_mdc_in_bounds by (rewrite ?HD; auto; lia).
  unfold delivered.
  destruct (mdc_verdict X m D) eqn:Ev; cbn [failed];
    try (rewrite Z.div_small by lia; rewrite Z.mul_0_r; cbn [Z.to_nat firstn];
         rewrite app_nil_r; eauto).
  unfold decode_emit. cfx_simpl. rewrite Hon. cbn [Z.eqb negb failed].
  cbn [decode_loop]. unfold feof. cbn [f_eof].
  unfold fwrite.
  replace (Z.to_nat (Z.of_nat (length D) - 22)) with (length D - 22)%nat by lia.
  eauto.
Qed.

(** The iteration that meets the end of the input without a digest
    handle. *)
Lemma decode_loop_last_plain (X : externals) (fuel : nat)
    (cfx : cipher_filter_t X) (inp : FILE) (out : list Z) :
  blkmode_on cfx = 0 ->
  f_eof inp = false ->
  mdc cfx = None ->
  Z.of_nat (length (f_rest inp)) < BUFSIZE ->
  exists cfx' inp',
    decode_loop X (S (S fuel)) cfx inp out
    = Returned CDK_Success cfx' inp'
        (out ++ dec_bytes X (hd cfx) (f_rest inp)).
Proof.
  intros Hon Heof Hmdc Hlen. pose proof BUFSIZE_eq as HB.
  cbn [decode_loop]. unfold feof. rewrite Heof, Hon. cbn [Z.eqb negb].
  rewrite fread_beyond by lia. cbn [f_eof].
  destruct (Z.of_nat (length (f_rest inp)) =? 0) eqn:E0.
  { apply Z.eqb_eq in E0. assert (Hnil : f_rest inp = []).
    { destruct (f_rest inp); [reflexivity|cbn in E0; lia]. }
    rewrite Hnil. pose proof (decrypt_length X (hd cfx) []) as Hl.
    unfold dec_bytes.
    destruct (snd (gcry_cipher_decrypt X (hd cfx) [])); [|discriminate].
    rewrite app_nil_r. eauto. }
  replace (Z.of_nat (length (f_rest inp)) >? BUFSIZE) with false
    by (symmetry; rewrite Z.gtb_ltb; apply Z.ltb_ge; lia).
  cfx_simpl. rewrite Hmdc.
  fold (dec_bytes X (hd cfx) (f_rest inp)). fold (dec_hd X (hd cfx) (f_rest inp)).
  cbn [failed]. unfold decode_emit, mdc_write. cfx_simpl. rewrite Hmdc.
  cfx_simpl. rewrite Hon. cbn [Z.eqb negb failed].
  cbn [decode_loop]. unfold feof. cbn [f_eof].
  unfold fwrite. rewrite firstn_all2.
  2:{ unfold dec_bytes. rewrite decrypt_length. lia. }
  eauto.
Qed.

(** The iteration that finds nothing left. *)
Lemma decode_loop_at_end (X : externals) (fuel : nat)
    (cfx : cipher_filter_t X) (inp : FILE) (out : list Z) :
  blkmode_on cfx = 0 ->
  f_eof inp = false ->
  f_rest inp = [] ->
  decode_loop X (S fuel) cfx inp out
  = Returned CDK_Success cfx (mkFILE (f_stat inp) [] true) out.
Proof.
  intros Hon Heof Hnil. pose proof BUFSIZE_eq as HB.
  cbn [decode_loop]. unfold feof. rewrite Heof, Hon. cbn [Z.eqb negb].
  rewrite fread_beyond by (rewrite Hnil; cbn; lia).
  rewrite Hnil. reflexivity.
Qed.

(** *** A trailer at the end of a longer stream *)

Section Trailer_After_Prefix.

Variables (D1 L : list Z).
Hypothesis HL : (22 <= length L)%nat.

Lemma trailer_tag_ok_app : trailer_tag_ok (D1 ++ L) = trailer_tag_ok L.
Proof.
  unfold trailer_tag_ok, byte_at. rewrite length_app.
  rewrite !app_nth2 by lia.
  repeat f_equal; lia.
Qed.

Lemma hashed_part_app : hashed_part (D1 ++ L) = D1 ++ hashed_part L.
Proof.
  unfold hashed_part. rewrite length_app, firstn_app.
  rewrite firstn_all2 by lia. do 2 f_equal. lia.
Qed.

Lemma trailer_digest_app : trailer_digest (D1 ++ L) = trailer_digest L.
Proof.
  unfold trailer_digest. rewrite length_app, skipn_app.
  rewrite skipn_all2 by lia. cbn [app]. f_equal. lia.
Qed.

Lemma mdc_verdict_app (X : externals) (m : gcry_md_hd_t) :
  mdc_verdict X (gcry_md_write m D1) L = mdc_verdict X m (D1 ++ L).
Proof.
  unfold mdc_verdict, expected_digest.
  now rewrite trailer_tag_ok_app, trailer_digest_app, hashed_part_app,
    gcry_md_write_app.
Qed.

Lemma delivered_app (X : externals) (m : gcry_md_hd_t) :
  Z.of_nat (length D1) = BUFSIZE ->
  D1 ++ delivered X (gcry_md_write m D1) L = delivered X m (D1 ++ L).
Proof.
  intros HD1. pose proof BUFSIZE_eq as HB.
  unfold delivered. rewrite mdc_verdict_app.
  assert (Hfull :
    D1 ++ firstn (Z.to_nat (BUFSIZE * (Z.of_nat (length L) / BUFSIZE))) L
    = firstn (Z.to_nat (BUFSIZE * (Z.of_nat (length (D1 ++ L)) / BUFSIZE)))
             (D1 ++ L)).
  { rewrite length_app, Nat2Z.inj_add, HD1.
    rewrite (div_minus_period (BUFSIZE + Z.of_nat (length L)) BUFSIZE) by lia.
    replace (BUFSIZE + Z.of_nat (length L) - BUFSIZE) with (Z.of_nat (length L)) by lia.
    assert (0 <= Z.of_nat (length L) / BUFSIZE) by (apply Z.div_pos; lia).
    set (q := Z.of_nat (length L) / BUFSIZE) in *.
    replace (Z.to_nat (BUFSIZE * (q + 1)))
      with (length D1 + Z.to_nat (BUFSIZE * q))%nat.
    2:{ clearbody q. rewrite HB in *. lia. }
    rewrite firstn_app, (firstn_all2 D1) by lia.
    do 2 f_equal. lia. }
  destruct (mdc_verdict X m (D1 ++ L)); try exact Hfull.
  rewrite length_app, firstn_app, (firstn_all2 D1) by lia.
  do 2 f_equal. lia.
Qed.

End Trailer_After_Prefix.

(** *** The whole pass without chunking *)

Lemma decode_loop_verified (X : externals) (HX : stream_cipher X)
    (fuel : nat) :
  forall (cfx : cipher_filter_t X) (inp : FILE) (out : list Z)
         (m : gcry_md_hd_t),
  blkmode_on cfx = 0 ->
  f_eof inp = false ->
  mdc cfx = Some m ->
  gcry_md_get_algo_dlen X GCRY_MD_SHA1 = 20 ->
  (S (length (f_rest inp)) < fuel)%nat ->
  22 <= Z.of_nat (length (f_rest inp)) mod BUFSIZE ->
  exists cfx' inp',
    decode_loop X fuel cfx inp out
    = Returned (mdc_verdict X m (dec_bytes X (hd cfx) (f_rest inp))) cfx' inp'
        (out ++ delivered X m (dec_bytes X (hd cfx) (f_rest inp))).
Proof.
  pose proof BUFSIZE_eq as HB.
  induction fuel as [|fuel IH];
    intros cfx inp out m Hon Heof Hmdc Hd Hfuel Hmod; [lia|].
  destruct (Z.lt_ge_cases (Z.of_nat (length (f_rest inp))) BUFSIZE) as [Hlt|Hge].
  - rewrite Z.mod_small in Hmod by lia.
    destruct fuel as [|fuel]; [lia|].
    now apply decode_loop_last_verified.
  - destruct (split_buffer (f_rest inp) Hge)
      as (chunk & rest' & Hsplit & Hchunk & Hfirst & Hskip).
    rewrite (decode_loop_full_buffer X fuel cfx inp out chunk rest')
      by assumption.
    assert (Hrest' : Z.of_nat (length rest')
                     = Z.of_nat (length (f_rest inp)) - BUFSIZE).
    { rewrite Hsplit, length_app. lia. }
    destruct (mdc_write_fields X (set_hd X cfx (dec_hd X (hd cfx) chunk))
                (dec_bytes X (hd cfx) chunk)) as (Hhd' & Hon' & Hmdc').
    cfx_simpl in Hhd'. cfx_simpl in Hon'. cfx_simpl in Hmdc'.
    rewrite Hmdc in Hmdc'. cbn [option_map] in Hmdc'.
    assert (Hmod' : 22 <= Z.of_nat (length rest') mod BUFSIZE).
    { rewrite Hrest', mod_minus_period by lia. exact Hmod. }
    destruct (IH _ (mkFILE (f_stat inp) rest' false)
                 (out ++ dec_bytes X (hd cfx) chunk) _
                 (eq_trans Hon' Hon) eq_refl Hmdc' Hd
                 ltac:(cbn [f_rest]; lia) Hmod')
      as (cfx' & inp' & Hloop).
    exists cfx', inp'. rewrite Hloop. cbn [f_rest]. rewrite Hhd'.
    destruct (decrypt_app X HX (hd cfx) chunk rest') as [Hbytes _].
    rewrite Hsplit, Hbytes.
    assert (HL : (22 <= length (dec_bytes X (dec_hd X (hd cfx) chunk) rest'))%nat).
    { unfold dec_bytes. rewrite decrypt_length.
      pose proof (Z.mod_le (Z.of_nat (length rest')) BUFSIZE ltac:(lia) ltac:(lia)).
      lia. }
    rewrite mdc_verdict_app by exact HL.
    rewrite <- delivered_app, <- app_assoc; [reflexivity|exact HL|].
    unfold dec_bytes. rewrite decrypt_length. exact Hchunk.
Qed.

Lemma dec_bytes_nil (X : externals) (h : gcry_cipher_hd_t X) :
  dec_bytes X h [] = [].
Proof.
  unfold dec_bytes. pose proof (decrypt_length X h []) as H.
  destruct (snd (gcry_cipher_decrypt X h [])); [reflexivity|discriminate].
Qed.

(** The pass in which finalize_mdc is never called: there is no digest
    handle, or the input ends on a buffer boundary.  Everything decrypted
    is written, and the pass succeeds. *)
Lemma decode_loop_unverified (X : externals) (HX : stream_cipher X)
    (fuel : nat) :
  forall (cfx : cipher_filter_t X) (inp : FILE) (out : list Z),
  blkmode_on cfx = 0 ->
  f_eof inp = false ->
  mdc cfx = None \/ Z.of_nat (length (f_rest inp)) mod BUFSIZE = 0 ->
  (S (length (f_rest inp)) < fuel)%nat ->
  exists cfx' inp',
    decode_loop X fuel cfx inp out
    = Returned CDK_Success cfx' inp'
        (out ++ dec_bytes X (hd cfx) (f_rest inp)).
Proof.
  pose proof BUFSIZE_eq as HB.
  induction fuel as [|fuel IH]; intros cfx inp out Hon Heof Hcase Hfuel; [lia|].
  destruct (Z.lt_ge_cases (Z.of_nat (length (f_rest inp))) BUFSIZE) as [Hlt|Hge].
  - destruct Hcase as [Hnone|Hmod].
    + destruct fuel as [|fuel]; [lia|]. now apply decode_loop_last_plain.
    + rewrite Z.mod_small in Hmod by lia.
      assert (Hnil : f_rest inp = []).
      { destruct (f_rest inp); [reflexivity|cbn in Hmod; lia]. }
      rewrite decode_loop_at_end by assumption.
      rewrite Hnil, dec_bytes_nil, app_nil_r. eauto.
  - destruct (split_buffer (f_rest inp) Hge)
      as (chunk & rest' & Hsplit & Hchunk & Hfirst & Hskip).
    rewrite (decode_loop_full_buffer X fuel cfx inp out chunk rest')
      by assumption.
    assert (Hrest' : Z.of_nat (length rest')
                     = Z.of_nat (length (f_rest inp)) - BUFSIZE).
    { rewrite Hsplit, length_app. lia. }
    destruct (mdc_write_fields X (set_hd X cfx (dec_hd X (hd cfx) chunk))
                (dec_bytes X (hd cfx) chunk)) as (Hhd' & Hon' & Hmdc').
    cfx_simpl in Hhd'. cfx_simpl in Hon'. cfx_simpl in Hmdc'.
    destruct (IH _ (mkFILE (f_stat inp) rest' false)
                 (out ++ dec_bytes X (hd cfx) chunk)
                 (eq_trans Hon' Hon) eq_refl)
      as (cfx' & inp' & Hloop).
    + cbn [f_rest]. destruct Hcase as [Hnone|Hmod].
      * left. rewrite Hmdc', Hnone. reflexivity.
      * right. rewrite Hrest', mod_minus_period by lia. exact Hmod.
    + cbn [f_rest]. lia.
    + exists cfx', inp'. rewrite Hloop. cbn [f_rest]. rewrite Hhd'.
      destruct (decrypt_app X HX (hd cfx) chunk rest') as [Hbytes _].
      rewrite Hsplit, Hbytes, <- app_assoc. reflexivity.
Qed.


(** ** The trailer on the encoder side *)

Lemma mdc_trailer_length (X : externals) (m : gcry_md_hd_t) (body : list Z) :
  gcry_md_get_algo_dlen X GCRY_MD_SHA1 = 20 ->
  length (mdc_trailer X m body) = 22%nat.
Proof.
  intros Hd. unfold mdc_trailer. rewrite length_app. cbn [length].
  pose proof (md_read_length X
                (gcry_md_final (gcry_md_write m (body ++ [0xD3; 0x14])))
                GCRY_MD_SHA1).
  lia.
Qed.

(** write_mdc_packet, whenever it runs: the tag bytes are hashed last, the
    22 bytes are encrypted with the handle as the body left it. *)
Lemma write_mdc_packet_spec (X : externals) (out : list Z)
    (cfx : cipher_filter_t X) (m : gcry_md_hd_t) :
  gcry_md_get_algo_dlen X GCRY_MD_SHA1 = 20 ->
  exists cfx',
    write_mdc_packet X out cfx m
    = (CDK_Success, out ++ enc_bytes X (hd cfx) (mdc_trailer X m []), cfx').
Proof.
  intros Hd. unfold write_mdc_packet. rewrite Hd, Z.eqb_refl. cbn [negb].
  unfold mdc_trailer, fwrite, enc_bytes. cbn [app].
  rewrite firstn_all2; [eauto|].
  pose proof (md_read_length X (gcry_md_final (gcry_md_write m [0xd3; 0x14]))
                GCRY_MD_SHA1).
  lia.
Qed.

Lemma mdc_trailer_after (m : gcry_md_hd_t) (X : externals) (body : list Z) :
  mdc_trailer X (gcry_md_write m body) [] = mdc_trailer X m body.
Proof.
  unfold mdc_trailer. cbn [app]. now rewrite gcry_md_write_app.
Qed.

(** The pass over the body without chunking: the body and the trailer
    leave as one cipher stream. *)
Lemma cipher_encode_file_definite (X : externals) (HX : stream_cipher X)
    (cfx : cipher_filter_t X) (inp : FILE) (out : list Z) :
  blkmode_on cfx = 0 ->
  f_eof inp = false ->
  fp_get_length inp <> -1 ->
  gcry_md_get_algo_dlen X GCRY_MD_SHA1 = 20 ->
  let trailer := match mdc cfx with
                 | Some m => mdc_trailer X m (f_rest inp)
                 | None => []
                 end in
  exists cfx' c,
    cipher_encode_file X cfx inp out
    = Some (CDK_Success, cfx', mkFILE (f_stat inp) [] true,
            out ++ enc_bytes X (hd cfx) (f_rest inp) ++ c)
    /\ length c = length trailer
    /\ enc_bytes X (hd cfx) (f_rest inp) ++ c
       = enc_bytes X (hd cfx) (f_rest inp ++ trailer).
Proof.
  intros Hon Heof Hlen Hd trailer.
  unfold cipher_encode_file.
  replace (fp_get_length inp =? -1) with false
    by (symmetry; apply Z.eqb_neq; exact Hlen).
  destruct (encode_loop_definite X HX (loop_fuel inp) cfx inp out
              (fp_get_length inp) Hon Heof ltac:(unfold loop_fuel; lia))
    as (cfx1 & Hloop & Hcont & Hmdc).
  rewrite Hloop. cbn [failed]. rewrite Hmdc. subst trailer.
  destruct (mdc cfx) as [m|]; cbn [option_map].
  - destruct (write_mdc_packet_spec X
                (out ++ enc_bytes X (hd cfx) (f_rest inp)) cfx1
                (gcry_md_write m (f_rest inp)) Hd) as [cfx' Hw].
    rewrite Hw, mdc_trailer_after, <- app_assoc.
    exists cfx', (enc_bytes X (hd cfx1) (mdc_trailer X m (f_rest inp))).
    split; [reflexivity|]. split; [|apply Hcont].
    unfold enc_bytes. apply encrypt_length.
  - exists cfx1, []. rewrite !app_nil_r. auto.
Qed.

(** C8: with a digest handle and without chunking the encoder ends the
    body with 22 bytes, written after the encrypted plaintext and nothing
    after them.  They are the encryption, under the cipher stream that
    encrypted the plaintext and continues, of 0xD3 0x14 and the 20-byte
    digest; the digest is read from the handle after the two tag bytes were
    hashed last, and nothing is written between the body and the trailer. *)
Theorem mdc_trailer_closes_the_body
    (X : externals) (HX : stream_cipher X) (cfx : cipher_filter_t X)
    (inp : FILE) (out : list Z) (m : gcry_md_hd_t) :
  blkmode_on cfx = 0 ->
  mdc cfx = Some m ->
  f_eof inp = false ->
  fp_get_length inp <> -1 ->
  gcry_md_get_algo_dlen X GCRY_MD_SHA1 = 20 ->
  let body := f_rest inp in
  let digest :=
    gcry_md_read X (gcry_md_final (gcry_md_write m (body ++ [0xD3; 0x14])))
                 GCRY_MD_SHA1 in
  exists cfx' c,
    cipher_encode_file X cfx inp out
    = Some (CDK_Success, cfx', mkFILE (f_stat inp) [] true,
            out ++ enc_bytes X (hd cfx) body ++ c)
    /\ length c = 22%nat
    /\ length digest = 20%nat
    /\ enc_bytes X (hd cfx) body ++ c
       = enc_bytes X (hd cfx) (body ++ [0xD3; 0x14] ++ digest).
Proof.
  intros Hon Hmdc Heof Hlen Hd body digest.
  destruct (cipher_encode_file_definite X HX cfx inp out Hon Heof Hlen Hd)
    as (cfx' & c & Hres & Hc & Hstream).
  rewrite Hmdc in Hc, Hstream.
  exists cfx', c. split; [exact Hres|].
  rewrite mdc_trailer_length in Hc by exact Hd.
  split; [exact Hc|]. split; [|exact Hstream].
  pose proof (md_read_length X
                (gcry_md_final (gcry_md_write m (body ++ [0xD3; 0x14])))
                GCRY_MD_SHA1).
  subst digest. lia.
Qed.

Lemma mdc_trailer_closes_the_body_witness :
  let cfx := set_mdc Reference.lib (Reference.context (Sample.dek8 1) 0 0 0)
               (Some (mkMd GCRY_MD_SHA1 [] false)) in
  let inp := Reference.file_of [1; 2; 3] in
  let body := [1; 2; 3] in
  let digest :=
    gcry_md_read Reference.lib
      (gcry_md_final (gcry_md_write (mkMd GCRY_MD_SHA1 [] false)
                                    (body ++ [0xD3; 0x14])))
      GCRY_MD_SHA1 in
  exists cfx' c,
    cipher_encode_file Reference.lib cfx inp []
    = Some (CDK_Success, cfx', mkFILE (f_stat inp) [] true,
            [] ++ enc_bytes Reference.lib (hd cfx) body ++ c)
    /\ length c = 22%nat
    /\ length digest = 20%nat
    /\ enc_bytes Reference.lib (hd cfx) body ++ c
       = enc_bytes Reference.lib (hd cfx) (body ++ [0xD3; 0x14] ++ digest).
Proof.
  apply (mdc_trailer_closes_the_body Reference.lib
           (reference_stream_cipher Reference.blklen)
           (set_mdc Reference.lib (Reference.context (Sample.dek8 1) 0 0 0)
                    (Some (mkMd GCRY_MD_SHA1 [] false)))
           (Reference.file_of [1; 2; 3]) [] (mkMd GCRY_MD_SHA1 [] false)).
  - reflexivity.
  - reflexivity.
  - reflexivity.
  - vm_compute. congruence.
  - reflexivity.
Defined.

(** ** The whole encoder without chunking *)

Lemma cipher_encode_definite (X : externals) (HX : stream_cipher X)
    (cfx : cipher_filter_t X) (inp : FILE) (out : list Z) :
  let cfx0 := encode_context X cfx inp in
  header_ready X cfx0 ->
  blkmode_on cfx0 = 0 ->
  f_eof inp = false ->
  fp_get_length inp <> -1 ->
  gcry_md_get_algo_dlen X GCRY_MD_SHA1 = 20 ->
  exists cfx',
    cipher_encode X (Some cfx) (Some inp) (Some out)
    = Returned CDK_Success cfx' (mkFILE (f_stat inp) [] true)
        (out ++ header_bytes X cfx0 ++ encoded_body X cfx0 (f_rest inp)).
Proof.
  intros cfx0 Hready Hon Heof Hlen Hd.
  unfold cipher_encode. fold cfx0.
  rewrite write_header_ready by exact Hready. cbn [failed].
  assert (Hon1 : blkmode_on (header_context X cfx0) = 0) by exact Hon.
  destruct (cipher_encode_file_definite X HX (header_context X cfx0) inp
              (out ++ header_bytes X cfx0 ++ prefix_cipher X cfx0)
              Hon1 Heof Hlen Hd) as (cfx' & c & Hres & _ & Hstream).
  rewrite Hres. exists cfx'. f_equal.
  unfold encoded_body, body_trailer.
  rewrite <- Hstream, <- !app_assoc. reflexivity.
Qed.

(** ** The declared length *)

Lemma encode_context_fields (X : externals) (cfx : cipher_filter_t X)
    (inp : FILE) :
  dek (encode_context X cfx inp) = dek cfx
  /\ datalen (encode_context X cfx inp) = fp_get_length inp
  /\ mdc (encode_context X cfx inp) = mdc cfx
  /\ blkmode_on (encode_context X cfx inp)
     = (if (fp_get_length inp <? BUFSIZE) && negb (blkmode_on cfx =? 0)
        then 0 else blkmode_on cfx).
Proof.
  unfold encode_context. cfx_simpl.
  destruct ((fp_get_length inp <? BUFSIZE) && negb (blkmode_on cfx =? 0));
    cfx_simpl; auto.
Qed.

(** C7, as the code has it: for an input of known length L that is not
    zero, taken without chunking and with integrity protection, the packet
    handed to the packet writer is of the integrity-protected type and
    declares L + 22 as length and blocksize + 2 as extra length, so
    L + (blocksize + 2) + 22 in all; the bytes the writer makes of it open
    the output. *)
Theorem declared_length_with_mdc
    (X : externals) (cfx : cipher_filter_t X) (inp : FILE) (out : list Z)
    (L : Z) :
  f_stat inp = Some L ->
  0 < L ->
  blkmode_on cfx = 0 \/ L < BUFSIZE ->
  header_use_mdc X cfx <> 0 ->
  let cfx0 := encode_context X cfx inp in
  let pkt := header_packet X cfx0 in
  pkttype pkt = CDK_PKT_ENCRYPTED_MDC
  /\ ed_len (pkt_encrypted pkt) + ed_extralen (pkt_encrypted pkt)
     = L + (gcry_cipher_get_algo_blklen X (algo (dek cfx)) + 2) + 22
  /\ (header_ready X cfx0 ->
      exists rc cfx' inp' tail,
        cipher_encode X (Some cfx) (Some inp) (Some out)
        = Returned rc cfx' inp'
            (out ++ snd (_cdk_pkt_write_fp X pkt) ++ tail)).
Proof.
  intros Hstat HL Hmode Huse cfx0 pkt.
  destruct (encode_context_fields X cfx inp) as (Hdek & Hdl & _ & Hon).
  fold cfx0 in Hdek, Hdl, Hon.
  assert (Hlen : fp_get_length inp = L) by (unfold fp_get_length; now rewrite Hstat).
  rewrite Hlen in Hdl, Hon.
  assert (Hon0 : blkmode_on cfx0 = 0).
  { rewrite Hon. destruct Hmode as [H0|Hlt].
    - rewrite H0. now destruct (L <? BUFSIZE).
    - apply Z.ltb_lt in Hlt. rewrite Hlt. cbn [andb].
      destruct (blkmode_on cfx =? 0) eqn:E; cbn [negb]; [|reflexivity].
      now apply Z.eqb_eq. }
  assert (Huse0 : header_use_mdc X cfx0 = header_use_mdc X cfx).
  { unfold header_use_mdc. now rewrite Hdek. }
  subst pkt. unfold header_packet, header_datalen.
  rewrite Huse0, Hon0, Hdek, Hdl. cbn [Z.eqb pkttype pkt_encrypted ed_len ed_extralen].
  apply Z.eqb_neq in Huse. rewrite Huse.
  replace (L =? 0) with false by (symmetry; apply Z.eqb_neq; lia).
  cbn [negb andb]. split; [reflexivity|]. split; [lia|].
  intros Hready. unfold cipher_encode. fold cfx0.
  rewrite write_header_ready by exact Hready. cbn [failed].
  destruct (cipher_encode_file_returns X (header_context X cfx0) inp
              (out ++ header_bytes X cfx0 ++ prefix_cipher X cfx0))
    as (rc & cfx' & inp' & tail & Hres).
  rewrite Hres. exists rc, cfx', inp', (prefix_cipher X cfx0 ++ tail).
  f_equal. unfold header_bytes, header_packet, header_datalen.
  rewrite Huse0, Hon0, Hdek, Hdl, Huse.
  replace (L =? 0) with false by (symmetry; apply Z.eqb_neq; lia).
  cbn [Z.eqb negb andb]. now rewrite <- !app_assoc.
Qed.

Lemma reference_ready_definite :
  header_ready Reference.lib
    (encode_context Reference.lib (Reference.context (Sample.dek8 1) 0 0 0)
                    (Reference.file_of [1; 2; 3])).
Proof.
  repeat split; vm_compute; congruence.
Qed.

Lemma declared_length_with_mdc_witness :
  let cfx := Reference.context (Sample.dek8 1) 0 0 0 in
  let inp := Reference.file_of [1; 2; 3] in
  let cfx0 := encode_context Reference.lib cfx inp in
  let pkt := header_packet Reference.lib cfx0 in
  pkttype pkt = CDK_PKT_ENCRYPTED_MDC
  /\ ed_len (pkt_encrypted pkt) + ed_extralen (pkt_encrypted pkt)
     = 3 + (gcry_cipher_get_algo_blklen Reference.lib (algo (dek cfx)) + 2) + 22
  /\ (header_ready Reference.lib cfx0 ->
      exists rc cfx' inp' tail,
        cipher_encode Reference.lib (Some cfx) (Some inp) (Some [])
        = Returned rc cfx' inp'
            ([] ++ snd (_cdk_pkt_write_fp Reference.lib pkt) ++ tail)).
Proof.
  apply (declared_length_with_mdc Reference.lib
           (Reference.context (Sample.dek8 1) 0 0 0)
           (Reference.file_of [1; 2; 3]) [] 3).
  - reflexivity.
  - lia.
  - left. reflexivity.
  - vm_compute. congruence.
Defined.

(** C7 as stated fails for an empty plaintext: the 22 bytes are added only
    to a length that is not zero, so the packet declares a length of 0 and
    the 10 bytes of the prefix, not 0 + 10 + 22. *)
Lemma declared_length_of_empty_plaintext :
  let cfx := Reference.context (Sample.dek8 1) 0 0 0 in
  let inp := Reference.file_of [] in
  let cfx0 := encode_context Reference.lib cfx inp in
  let pkt := header_packet Reference.lib cfx0 in
  let o := cipher_encode Reference.lib (Some cfx) (Some inp) (Some []) in
  let bytes := match written o with Some b => b | None => [] end in
  fp_get_length inp = 0
  /\ blkmode_on cfx0 = 0
  /\ header_use_mdc Reference.lib cfx0 = 1
  /\ pkttype pkt = CDK_PKT_ENCRYPTED_MDC
  /\ ed_len (pkt_encrypted pkt) = 0
  /\ ed_extralen (pkt_encrypted pkt) = 8 + 2
  /\ ed_len (pkt_encrypted pkt) + ed_extralen (pkt_encrypted pkt)
     <> 0 + (8 + 2) + 22
  /\ result_code o = Some CDK_Success
  /\ firstn 3 bytes = snd (_cdk_pkt_write_fp Reference.lib pkt).
Proof.
  cbv zeta.
  split; [reflexivity|]. split; [reflexivity|]. split; [reflexivity|].
  split; [reflexivity|]. split; [reflexivity|]. split; [reflexivity|].
  split; [vm_compute; congruence|].
  split; vm_compute; reflexivity.
Qed.

(** ** Forced integrity protection *)

Lemma header_context_mdc (X : externals) (cfx0 : cipher_filter_t X) :
  mdc cfx0 = None ->
  mdc (header_context X cfx0)
  = (if header_use_mdc X cfx0 =? 0 then None
     else Some (mkMd GCRY_MD_SHA1
                  (prefix_plain X
                     (gcry_cipher_get_algo_blklen X (algo (dek cfx0))))
                  false)).
Proof.
  intros Hnone. unfold header_context. cfx_simpl. rewrite Hnone.
  destruct (header_use_mdc X cfx0 =? 0); reflexivity.
Qed.

Lemma header_context_mdc_forced (X : externals) (cfx0 : cipher_filter_t X) :
  header_use_mdc X cfx0 <> 0 ->
  mdc (header_context X cfx0)
  = Some (mkMd GCRY_MD_SHA1
            (prefix_plain X
               (gcry_cipher_get_algo_blklen X (algo (dek cfx0))))
            false).
Proof.
  intros Huse. unfold header_context. cfx_simpl.
  apply Z.eqb_neq in Huse. now rewrite Huse.
Qed.


(** X20, and C5 without chunking: a cipher whose block size is not 8 gets the
    integrity-protected packet type and the trailer, whatever the flag of
    the key says. *)
Lemma forced_mdc_without_chunking (X : externals) (HX : stream_cipher X)
    (cfx : cipher_filter_t X) (inp : FILE) (out : list Z) :
  let cfx0 := encode_context X cfx inp in
  let bs := gcry_cipher_get_algo_blklen X (algo (dek cfx)) in
  let m := mkMd GCRY_MD_SHA1 (prefix_plain X bs) false in
  bs <> 8 ->
  header_ready X cfx0 ->
  blkmode_on cfx0 = 0 ->
  f_eof inp = false ->
  fp_get_length inp <> -1 ->
  gcry_md_get_algo_dlen X GCRY_MD_SHA1 = 20 ->
  pkttype (header_packet X cfx0) = CDK_PKT_ENCRYPTED_MDC
  /\ exists cfx',
       cipher_encode X (Some cfx) (Some inp) (Some out)
       = Returned CDK_Success cfx' (mkFILE (f_stat inp) [] true)
           (out ++ header_bytes X cfx0 ++ prefix_cipher X cfx0
                ++ enc_bytes X (hd (header_context X cfx0))
                     (f_rest inp ++ mdc_trailer X m (f_rest inp))).
Proof.
  intros cfx0 bs m Hbs Hready Hon Heof Hlen Hd.
  destruct (encode_context_fields X cfx inp) as (Hdek & _).
  fold cfx0 in Hdek.
  assert (Huse : header_use_mdc X cfx0 = 1).
  { unfold header_use_mdc. rewrite Hdek. fold bs.
    apply Z.eqb_neq in Hbs. now rewrite Hbs. }
  split.
  - unfold header_packet. cbv zeta. rewrite Huse. reflexivity.
  - destruct (cipher_encode_definite X HX cfx inp out Hready Hon Heof Hlen Hd)
      as (cfx' & Hres).
    exists cfx'. rewrite Hres.
    assert (Huse' : header_use_mdc X cfx0 <> 0) by (rewrite Huse; discriminate).
    unfold encoded_body, body_trailer. fold cfx0.
    rewrite (header_context_mdc_forced X cfx0 Huse'), Hdek. reflexivity.
Qed.

(** C5 in block mode fails on the code: with 16-byte blocks, the flag of
    the key off and an input of 8192 bytes, the packet is announced as
    integrity-protected, but the pass ends in CDK_EOF: the digest handle
    holds the prefix and the plaintext and was never finalized, and the
    output ends with the length byte of an empty final chunk, not with
    a trailer. *)
Theorem forced_mdc_in_block_mode_has_no_trailer :
  let cfx := Reference.context (Sample.dek16 0) 0 1 0 in
  let inp := Reference.file_of (Sample.plain 8192) in
  let o := cipher_encode Reference.lib (Some cfx) (Some inp) (Some []) in
  let md := match returned_context o with
            | Some c => mdc c
            | None => None
            end in
  let bytes := match written o with Some b => b | None => [] end in
  use_mdc (dek cfx) = 0
  /\ gcry_cipher_get_algo_blklen Reference.lib (algo (dek cfx)) = 16
  /\ pkttype (header_packet Reference.lib
                (encode_context Reference.lib cfx inp))
     = CDK_PKT_ENCRYPTED_MDC
  /\ result_code o = Some CDK_EOF
  /\ option_map md_finalized md = Some false
  /\ option_map md_buf md
     = Some (prefix_plain Reference.lib 16 ++ Sample.plain 8192)
  /\ Z.of_nat (length bytes) = 3 + (16 + 2) + 8192 + 2
  /\ last bytes 1 = 0.
Proof.
  cbv zeta. repeat split; vm_compute; reflexivity.
Qed.

(** ** The header on the decoder side *)

Lemma read_header_ready (X : externals) (cfx : cipher_filter_t X)
    (inp : FILE) (temp tail : list Z) :
  let bs := gcry_cipher_get_algo_blklen X (algo (dek cfx)) in
  let plain :=
    dec_bytes X (keyed_handle X (dek cfx) (mdc_method cfx =? 0)) temp in
  decode_ready X cfx ->
  f_rest inp = temp ++ tail ->
  Z.of_nat (length temp) = bs + 2 ->
  byte_at plain (bs - 2) = byte_at plain bs ->
  byte_at plain (bs - 1) = byte_at plain (bs + 1) ->
  read_header X cfx inp
  = (CDK_Success, prefix_context X cfx temp,
     mkFILE (f_stat inp) tail (f_eof inp)).
Proof.
  intros bs plain (Hbs & Hlen & Hmd & Hopen & Hiv & Hkey) Hrest Htemp H1 H2.
  unfold read_header. cbv zeta. unfold prefix_context.
  fold bs.
  replace ((bs <? 8) || (bs >? 16)) with false
    by (symmetry; apply orb_false_iff; rewrite Z.ltb_ge, Z.gtb_ltb, Z.ltb_ge; lia).
  replace ((datalen cfx >? 0) && (datalen cfx <? bs + 2)) with false.
  2:{ symmetry. apply andb_false_iff. rewrite Z.gtb_ltb, !Z.ltb_ge.
      fold bs in Hlen. lia. }
  replace (Z.to_nat (bs + 2)) with (length temp) by lia.
  destruct inp as [s rest e]. cbn [f_rest f_stat f_eof] in *. subst rest.
  unfold md_open, mdc_write, dec_bytes, dec_hd, keyed_handle in *.
  subst plain.
  assert (Hmd' : (mdc_method cfx =? 0) = false ->
                 gcry_md_open X (mdc_method cfx) = 0).
  { intros E. apply Hmd. now apply Z.eqb_neq. }
  clear Hmd. cfx_simpl.
  destruct (mdc_method cfx =? 0); cfx_simpl;
    try (rewrite Hmd' by reflexivity);
    cbn [fst snd Z.eqb negb]; rewrite Hopen; cbn [Z.eqb negb]; rewrite Hiv;
    cbn [Z.eqb negb]; rewrite Hkey; cbn [Z.eqb negb];
    rewrite fgetc_n_app; rewrite H1, H2, !Z.eqb_refl;
    cbn [negb orb]; cfx_simpl; try destruct (mdc cfx); cfx_simpl;
    destruct (blkmode_on cfx =? 0); cfx_simpl;
    cbn [option_map gcry_md_write md_algo md_buf md_finalized app];
    reflexivity.
Qed.

(** The prefix the encoder writes passes the self-check. *)
Lemma prefix_plain_check (X : externals) (bs : Z) :
  2 <= bs ->
  Z.of_nat (length (prefix_plain X bs)) = bs + 2
  /\ byte_at (prefix_plain X bs) (bs - 2) = byte_at (prefix_plain X bs) bs
  /\ byte_at (prefix_plain X bs) (bs - 1)
     = byte_at (prefix_plain X bs) (bs + 1).
Proof.
  intros Hbs. unfold prefix_plain, byte_at. cbv zeta.
  pose proof (randomize_length X bs) as Hr.
  set (rnd := gcry_randomize X bs) in *.
  rewrite length_app. cbn [length]. split; [lia|].
  set (t := [nth (Z.to_nat (bs - 2)) rnd 0; nth (Z.to_nat (bs - 1)) rnd 0]).
  rewrite (app_nth1 rnd t 0 (n := Z.to_nat (bs - 2))) by lia.
  rewrite (app_nth1 rnd t 0 (n := Z.to_nat (bs - 1))) by lia.
  rewrite (app_nth2 rnd t 0 (n := Z.to_nat bs)) by lia.
  rewrite (app_nth2 rnd t 0 (n := Z.to_nat (bs + 1))) by lia.
  replace (Z.to_nat bs - length rnd)%nat with 0%nat by lia.
  replace (Z.to_nat (bs + 1) - length rnd)%nat with 1%nat by lia.
  split; reflexivity.
Qed.

(** A genuine trailer passes the check, and the check gives the body
    back. *)
Lemma mdc_verdict_genuine (X : externals) (m : gcry_md_hd_t) (p : list Z) :
  gcry_md_get_algo_dlen X GCRY_MD_SHA1 = 20 ->
  mdc_verdict X m (p ++ mdc_trailer X m p) = CDK_Success
  /\ delivered X m (p ++ mdc_trailer X m p) = p.
Proof.
  intros Hd.
  pose proof (mdc_trailer_length X m p Hd) as Hlen.
  assert (Hv : mdc_verdict X m (p ++ mdc_trailer X m p) = CDK_Success).
  { unfold mdc_verdict, expected_digest.
    rewrite trailer_tag_ok_app, hashed_part_app, trailer_digest_app by lia.
    unfold trailer_tag_ok, hashed_part, trailer_digest. rewrite Hlen.
    unfold mdc_trailer at 1 2 3 4. cbn.
    unfold bytes_eqb.
    destruct (list_eq_dec Z.eq_dec _ _) as [_|Hne]; [reflexivity|].
    exfalso. apply Hne. reflexivity. }
  split; [exact Hv|].
  unfold delivered. rewrite Hv, length_app, Hlen, firstn_app.
  rewrite firstn_all2 by lia.
  replace (length p + 22 - 22 - length p)%nat with 0%nat by lia.
  cbn [firstn]. apply app_nil_r.
Qed.

(** ** Decoding what the encoder wrote, without chunking *)

(** After the header the decoder stands where the encoder stood after
    the prefix: the same cipher state, the same digest state. *)
Lemma cipher_decode_of_encoded_body (X : externals) (HX : stream_cipher X)
    (cfx0 cfxd : cipher_filter_t X) (s : option Z) (p out : list Z) :
  header_ready X cfx0 ->
  mdc cfx0 = None ->
  decoder_for X cfx0 cfxd ->
  exists cfx1,
    cipher_decode X (Some cfxd)
      (Some (mkFILE s (encoded_body X cfx0 p) false)) (Some out)
    = cipher_decode_file X cfx1
        (mkFILE s (enc_bytes X (hd (header_context X cfx0))
                             (p ++ body_trailer X cfx0 p)) false) out
    /\ hd cfx1 = hd (header_context X cfx0)
    /\ mdc cfx1 = mdc (header_context X cfx0)
    /\ blkmode_on cfx1 = 0.
Proof.
  intros (Hbs & Hmd & Hpkt & Hready) Hnone (Hdek & Hmeth & Hmdc & Hon & Hdl).
  set (bs := gcry_cipher_get_algo_blklen X (algo (dek cfx0))) in *.
  set (use := header_use_mdc X cfx0) in *.
  assert (Hsync : (mdc_method cfxd =? 0) = (use =? 0)).
  { rewrite Hmeth. destruct (use =? 0); reflexivity. }
  destruct (prefix_plain_check X bs ltac:(lia)) as (Hplen & Hc1 & Hc2).
  destruct (decrypt_encrypt X HX (keyed_handle X (dek cfx0) (use =? 0))
              (prefix_plain X bs)) as [Hplain Hhd].
  assert (Hdready : decode_ready X cfxd).
  { unfold decode_ready. rewrite Hdek, Hdl, Hsync. fold bs.
    repeat split; try lia; try apply Hready.
    intros Hm. rewrite Hmeth in *. destruct (use =? 0) eqn:E; [congruence|].
    apply Hmd. now apply Z.eqb_neq. }
  exists (prefix_context X cfxd (prefix_cipher X cfx0)).
  unfold cipher_decode.
  rewrite (read_header_ready X cfxd _ (prefix_cipher X cfx0)
             (enc_bytes X (hd (header_context X cfx0))
                        (p ++ body_trailer X cfx0 p))).
  - cbn [failed f_stat f_eof]. split; [reflexivity|].
    unfold prefix_context, header_context. cfx_simpl.
    rewrite Hdek, Hsync, Hon, Hmdc, Hnone. fold bs. fold use.
    unfold prefix_cipher. fold bs. fold use.
    fold (enc_bytes X (keyed_handle X (dek cfx0) (use =? 0)) (prefix_plain X bs)).
    fold (enc_hd X (keyed_handle X (dek cfx0) (use =? 0)) (prefix_plain X bs)).
    rewrite Hplain, Hhd, Hmeth.
    destruct (use =? 0); cbn [option_map Z.eqb GCRY_MD_SHA1]; auto.
  - exact Hdready.
  - reflexivity.
  - rewrite Hdek. fold bs. unfold prefix_cipher. fold bs.
    rewrite encrypt_length. lia.
  - rewrite Hdek, Hsync. fold bs. unfold prefix_cipher. fold bs. fold use.
    fold (enc_bytes X (keyed_handle X (dek cfx0) (use =? 0)) (prefix_plain X bs)).
    rewrite Hplain. exact Hc1.
  - rewrite Hdek, Hsync. fold bs. unfold prefix_cipher. fold bs. fold use.
    fold (enc_bytes X (keyed_handle X (dek cfx0) (use =? 0)) (prefix_plain X bs)).
    rewrite Hplain. exact Hc2.
Qed.

(** The round trip where it holds: without chunking, and either without
    integrity protection or with a body that does not end within 22 bytes
    after a buffer boundary. *)
Theorem round_trip_without_chunking
    (X : externals) (HX : stream_cipher X)
    (cfx cfxd : cipher_filter_t X) (inp : FILE) (out out_d : list Z)
    (s : option Z) :
  let cfx0 := encode_context X cfx inp in
  let p := f_rest inp in
  header_ready X cfx0 ->
  blkmode_on cfx0 = 0 ->
  f_eof inp = false ->
  fp_get_length inp <> -1 ->
  gcry_md_get_algo_dlen X GCRY_MD_SHA1 = 20 ->
  mdc cfx = None ->
  decoder_for X cfx0 cfxd ->
  header_use_mdc X cfx0 = 0
  \/ 22 <= (Z.of_nat (length p) + 22) mod BUFSIZE ->
  (exists cfx' inp',
     cipher_encode X (Some cfx) (Some inp) (Some out)
     = Returned CDK_Success cfx' inp'
         (out ++ header_bytes X cfx0 ++ encoded_body X cfx0 p))
  /\ (exists cfx' inp',
        cipher_decode X (Some cfxd)
          (Some (mkFILE s (encoded_body X cfx0 p) false)) (Some out_d)
        = Returned CDK_Success cfx' inp' (out_d ++ p)).
Proof.
  intros cfx0 p Hready Hon Heof Hlen Hd Hnone Hdec Hcase.
  split.
  { destruct (cipher_encode_definite X HX cfx inp out Hready Hon Heof Hlen Hd)
      as (cfx' & Hres).
    eauto. }
  assert (Hnone0 : mdc cfx0 = None).
  { destruct (encode_context_fields X cfx inp) as (_ & _ & Hm & _).
    fold cfx0 in Hm. now rewrite Hm. }
  destruct (cipher_decode_of_encoded_body X HX cfx0 cfxd s p out_d
              Hready Hnone0 Hdec) as (cfx1 & Hdecode & Hhd & Hmdc & Hon1).
  rewrite Hdecode. unfold cipher_decode_file.
  assert (Htrailer :
    body_trailer X cfx0 p
    = if header_use_mdc X cfx0 =? 0 then []
      else mdc_trailer X
             (mkMd GCRY_MD_SHA1
                (prefix_plain X (gcry_cipher_get_algo_blklen X (algo (dek cfx0))))
                false) p).
  { unfold body_trailer. rewrite header_context_mdc by exact Hnone0.
    now destruct (header_use_mdc X cfx0 =? 0). }
  rewrite Htrailer. clear Htrailer.
  rewrite header_context_mdc in Hmdc by exact Hnone0.
  set (h1 := hd (header_context X cfx0)) in *.
  unfold loop_fuel. cbn [f_rest].
  destruct (header_use_mdc X cfx0 =? 0) eqn:Euse.
  - set (body := p ++ []).
    destruct (decrypt_encrypt X HX h1 body) as [Hplain _].
    assert (Hblen : length (enc_bytes X h1 body) = length body)
      by apply encrypt_length.
    destruct (decode_loop_unverified X HX (S (S (length (enc_bytes X h1 body))))
                cfx1 (mkFILE s (enc_bytes X h1 body) false) out_d
                Hon1 eq_refl (or_introl Hmdc) ltac:(cbn [f_rest]; lia))
      as (cfx' & inp' & Hloop).
    rewrite Hloop. cbn [f_rest]. rewrite Hhd, Hplain.
    subst body. rewrite app_nil_r. eauto.
  - destruct Hcase as [H0|Hmod]; [apply Z.eqb_neq in Euse; contradiction|].
    set (m := mkMd GCRY_MD_SHA1
                (prefix_plain X (gcry_cipher_get_algo_blklen X (algo (dek cfx0))))
                false) in *.
    set (body := p ++ mdc_trailer X m p).
    destruct (decrypt_encrypt X HX h1 body) as [Hplain _].
    assert (Hblen : length (enc_bytes X h1 body) = length body)
      by apply encrypt_length.
    assert (Hbody : Z.of_nat (length body) = Z.of_nat (length p) + 22).
    { subst body. rewrite length_app, mdc_trailer_length by exact Hd. lia. }
    destruct (decode_loop_verified X HX (S (S (length (enc_bytes X h1 body))))
                cfx1 (mkFILE s (enc_bytes X h1 body) false) out_d m
                Hon1 eq_refl Hmdc Hd ltac:(cbn [f_rest]; lia)
                ltac:(cbn [f_rest]; rewrite Hblen, Hbody; exact Hmod))
      as (cfx' & inp' & Hloop).
    rewrite Hloop. cbn [f_rest]. rewrite Hhd, Hplain.
    destruct (mdc_verdict_genuine X m p Hd) as [Hv Hdel].
    subst body. rewrite Hv, Hdel. eauto.
Qed.

(** X19, and C1 and C2 where the trailer ends on a buffer boundary, that
    is for a plaintext of 22 bytes less than a multiple of BUFSIZE: the decoder
    meets the end of the input on an empty read, finalize_mdc is never
    called, the pass succeeds, and the 22 bytes of the trailer are
    delivered as plaintext after the body. *)
Theorem aligned_trailer_is_delivered
    (X : externals) (HX : stream_cipher X)
    (cfx0 cfxd : cipher_filter_t X) (p out_d : list Z) (s : option Z) :
  let m := mkMd GCRY_MD_SHA1
             (prefix_plain X (gcry_cipher_get_algo_blklen X (algo (dek cfx0))))
             false in
  header_ready X cfx0 ->
  gcry_md_get_algo_dlen X GCRY_MD_SHA1 = 20 ->
  mdc cfx0 = None ->
  decoder_for X cfx0 cfxd ->
  header_use_mdc X cfx0 <> 0 ->
  (Z.of_nat (length p) + 22) mod BUFSIZE = 0 ->
  exists cfx' inp',
    cipher_decode X (Some cfxd)
      (Some (mkFILE s (encoded_body X cfx0 p) false)) (Some out_d)
    = Returned CDK_Success cfx' inp' (out_d ++ p ++ mdc_trailer X m p).
Proof.
  intros m Hready Hd Hnone0 Hdec Huse Hmod.
  destruct (cipher_decode_of_encoded_body X HX cfx0 cfxd s p out_d
              Hready Hnone0 Hdec) as (cfx1 & Hdecode & Hhd & Hmdc & Hon1).
  rewrite Hdecode. unfold cipher_decode_file.
  assert (Htrailer : body_trailer X cfx0 p = mdc_trailer X m p).
  { unfold body_trailer. now rewrite header_context_mdc_forced by exact Huse. }
  rewrite Htrailer. clear Htrailer.
  set (body := p ++ mdc_trailer X m p).
  set (h1 := hd (header_context X cfx0)) in *.
  destruct (decrypt_encrypt X HX h1 body) as [Hplain _].
  assert (Hblen : length (enc_bytes X h1 body) = length body)
    by apply encrypt_length.
  unfold loop_fuel. cbn [f_rest].
  assert (Hbody : Z.of_nat (length body) = Z.of_nat (length p) + 22).
  { subst body. rewrite length_app, mdc_trailer_length by exact Hd. lia. }
  destruct (decode_loop_unverified X HX (S (S (length (enc_bytes X h1 body))))
              cfx1 (mkFILE s (enc_bytes X h1 body) false) out_d
              Hon1 eq_refl
              ltac:(right; cbn [f_rest]; rewrite Hblen, Hbody; exact Hmod)
              ltac:(cbn [f_rest]; lia))
    as (cfx' & inp' & Hloop).
  rewrite Hloop. cbn [f_rest]. rewrite Hhd, Hplain. subst body. eauto.
Qed.

(** ** The trailer on the decoder side *)

Lemma bytes_eqb_eq (a b : list Z) : bytes_eqb a b = true <-> a = b.
Proof.
  unfold bytes_eqb. destruct (list_eq_dec Z.eq_dec a b); split; congruence.
Qed.

(** C2, as the code has it, for a stream without chunking whose last read
    brings at least 22 bytes: the last 22 decrypted bytes are checked and
    not written.  A wrong tag byte gives CDK_Inv_Packet, a wrong digest
    CDK_Bad_MDC; the pass succeeds exactly when the two tag bytes are
    0xD3 0x14 and the last 20 bytes are the digest of what the handle held
    (the prefix), the body and the two tag bytes, and then the output is
    the body. *)
Theorem trailer_verification
    (X : externals) (HX : stream_cipher X) (cfx : cipher_filter_t X)
    (inp : FILE) (out : list Z) (m : gcry_md_hd_t) :
  blkmode_on cfx = 0 ->
  f_eof inp = false ->
  mdc cfx = Some m ->
  gcry_md_get_algo_dlen X GCRY_MD_SHA1 = 20 ->
  22 <= Z.of_nat (length (f_rest inp)) mod BUFSIZE ->
  let D := dec_bytes X (hd cfx) (f_rest inp) in
  let n := Z.of_nat (length D) in
  let tag_ok := byte_at D (n - 22) = 0xD3 /\ byte_at D (n - 21) = 0x14 in
  let digest :=
    gcry_md_read X
      (gcry_md_final (gcry_md_write m (firstn (length D - 20) D)))
      GCRY_MD_SHA1 in
  exists rc cfx' inp' out',
    cipher_decode_file X cfx inp out = Returned rc cfx' inp' out'
    /\ (~ tag_ok -> rc = CDK_Inv_Packet)
    /\ (tag_ok -> digest <> skipn (length D - 20) D -> rc = CDK_Bad_MDC)
    /\ (rc = CDK_Success <->
        tag_ok /\ digest = skipn (length D - 20) D)
    /\ (rc = CDK_Success -> out' = out ++ firstn (length D - 22) D).
Proof.
  intros Hon Heof Hmdc Hd Hmod D n tag_ok digest.
  destruct (decode_loop_verified X HX (loop_fuel inp) cfx inp out m
              Hon Heof Hmdc Hd ltac:(unfold loop_fuel; lia) Hmod)
    as (cfx' & inp' & Hloop).
  fold D in Hloop.
  exists (mdc_verdict X m D), cfx', inp', (out ++ delivered X m D).
  split; [exact Hloop|].
  assert (Htag : trailer_tag_ok D = true <-> tag_ok).
  { unfold trailer_tag_ok, tag_ok. fold n.
    rewrite andb_true_iff, !Z.eqb_eq. reflexivity. }
  assert (Hdig : bytes_eqb (expected_digest X m D) (trailer_digest D) = true
                 <-> digest = skipn (length D - 20) D).
  { rewrite bytes_eqb_eq. reflexivity. }
  unfold delivered, mdc_verdict.
  destruct (trailer_tag_ok D) eqn:Et; cbn [negb];
    [destruct (bytes_eqb (expected_digest X m D) (trailer_digest D)) eqn:Eb|];
    (split; [|split; [|split]]).
  - intros Hn. exfalso. apply Hn, Htag. reflexivity.
  - intros _ Hne. exfalso. apply Hne, Hdig. reflexivity.
  - split; [intros _|reflexivity].
    split; [apply Htag|apply Hdig]; reflexivity.
  - reflexivity.
  - intros Hn. exfalso. apply Hn, Htag. reflexivity.
  - reflexivity.
  - split; [discriminate|].
    intros [_ He]. apply Hdig in He. discriminate.
  - discriminate.
  - reflexivity.
  - intros Ht _. apply Htag in Ht. discriminate.
  - split; [discriminate|].
    intros [Ht _]. apply Htag in Ht. discriminate.
  - discriminate.
Qed.

Lemma trailer_verification_witness :
  let cfx := set_mdc Reference.lib
               (Reference.context (Sample.dek8 1) GCRY_MD_SHA1 0 0)
               (Some (mkMd GCRY_MD_SHA1 [] false)) in
  let inp := Reference.file_of (repeat 7 25) in
  let D := dec_bytes Reference.lib (hd cfx) (f_rest inp) in
  let n := Z.of_nat (length D) in
  let tag_ok := byte_at D (n - 22) = 0xD3 /\ byte_at D (n - 21) = 0x14 in
  let digest :=
    gcry_md_read Reference.lib
      (gcry_md_final (gcry_md_write (mkMd GCRY_MD_SHA1 [] false)
                                    (firstn (length D - 20) D)))
      GCRY_MD_SHA1 in
  exists rc cfx' inp' out',
    cipher_decode_file Reference.lib cfx inp [] = Returned rc cfx' inp' out'
    /\ (~ tag_ok -> rc = CDK_Inv_Packet)
    /\ (tag_ok -> digest <> skipn (length D - 20) D -> rc = CDK_Bad_MDC)
    /\ (rc = CDK_Success <->
        tag_ok /\ digest = skipn (length D - 20) D)
    /\ (rc = CDK_Success -> out' = [] ++ firstn (length D - 22) D).
Proof.
  apply (trailer_verification Reference.lib
           (reference_stream_cipher Reference.blklen)
           (set_mdc Reference.lib
              (Reference.context (Sample.dek8 1) GCRY_MD_SHA1 0 0)
              (Some (mkMd GCRY_MD_SHA1 [] false)))
           (Reference.file_of (repeat 7 25)) []
           (mkMd GCRY_MD_SHA1 [] false)).
  - reflexivity.
  - reflexivity.
  - reflexivity.
  - reflexivity.
  - vm_compute. congruence.
Defined.

(** C2 as stated fails: a packet with one bit of the first tag byte of the
    trailer flipped is rejected with CDK_Inv_Packet, which is neither the
    integrity error CDK_Bad_MDC nor CDK_Chksum_Error. *)
Lemma tampered_tag_is_an_invalid_packet :
  let body := Sample.body_of 3 (Sample.encode (Sample.dek8 1) 0 [1; 2; 3]) in
  let o := Sample.decode (Sample.dek8 1) GCRY_MD_SHA1 body in
  let o' := Sample.decode (Sample.dek8 1) GCRY_MD_SHA1 (tamper body 13) in
  length body = (10 + 3 + 22)%nat
  /\ result_code o = Some CDK_Success
  /\ written o = Some [1; 2; 3]
  /\ result_code o' = Some CDK_Inv_Packet
  /\ written o' = Some []
  /\ CDK_Inv_Packet <> CDK_Bad_MDC
  /\ CDK_Inv_Packet <> CDK_Chksum_Error.
Proof.
  vm_compute. repeat split; congruence.
Qed.

Lemma trailer_check_reads_out_of_bounds_witness :
  cipher_decode_file Reference.lib
    (set_mdc Reference.lib
       (Reference.context (Sample.dek8 1) GCRY_MD_SHA1 0 0)
       (Some (mkMd GCRY_MD_SHA1 [] false)))
    (Reference.file_of [1; 2; 3; 4; 5]) []
  = Out_Of_Bounds.
Proof.
  apply (trailer_check_reads_out_of_bounds Reference.lib
           (set_mdc Reference.lib
              (Reference.context (Sample.dek8 1) GCRY_MD_SHA1 0 0)
              (Some (mkMd GCRY_MD_SHA1 [] false)))
           (Reference.file_of [1; 2; 3; 4; 5]) []).
  - reflexivity.
  - reflexivity.
  - discriminate.
  - reflexivity.
  - vm_compute. split; congruence.
Defined.

(** C10 and C1 on a packet of the encoder itself: a plaintext of 8175
    bytes with integrity protection gives a body of 8197 bytes after the
    prefix; the decoder writes the first 8192 of them, 17 bytes of the
    trailer among them, and calls finalize_mdc on the last 5. *)
Lemma own_packet_reads_out_of_bounds :
  let o := Sample.encode (Sample.dek8 1) 0 (Sample.plain 8175) in
  let body := Sample.body_of 4 o in
  result_code o = Some CDK_Success
  /\ Z.of_nat (length body) = (8 + 2) + 8175 + 22
  /\ reads_out_of_bounds (Sample.decode (Sample.dek8 1) GCRY_MD_SHA1 body)
     = true.
Proof.
  vm_compute. repeat split; reflexivity.
Qed.

(** C1 and C2 on a packet of the encoder itself: a plaintext of 8170
    bytes with integrity protection; the packet decodes to 8192 bytes, and
    with a bit of the body flipped it still decodes, to other bytes. *)
Lemma aligned_packet_is_not_verified :
  let o := Sample.encode (Sample.dek8 1) 0 (Sample.plain 8170) in
  let body := Sample.body_of 4 o in
  let d := Sample.decode (Sample.dek8 1) GCRY_MD_SHA1 body in
  let d' := Sample.decode (Sample.dek8 1) GCRY_MD_SHA1 (tamper body 110) in
  let bytes x := match written x with Some b => b | None => [] end in
  result_code o = Some CDK_Success
  /\ result_code d = Some CDK_Success
  /\ Z.of_nat (length (bytes d)) = 8170 + 22
  /\ firstn (length (Sample.plain 8170)) (bytes d) = Sample.plain 8170
  /\ result_code d' = Some CDK_Success
  /\ nth 100 (bytes d') 0 <> nth 100 (Sample.plain 8170) 0.
Proof.
  vm_compute. repeat split; congruence.
Qed.

(** * Further properties of the filters *)

(** ** The hash filter *)

(** The loop of hash_encode feeds the whole of the input to the handle,
    buffer by buffer, and ends with the indicator set. *)
Lemma hash_loop_all (fuel : nat) :
  forall (m : gcry_md_hd_t) (inp : FILE),
  f_eof inp = false ->
  (S (length (f_rest inp)) < fuel)%nat ->
  hash_loop fuel m inp
  = Some (gcry_md_write m (f_rest inp), mkFILE (f_stat inp) [] true).
Proof.
  pose proof BUFSIZE_eq as HB.
  induction fuel as [|fuel IH]; intros m inp Heof Hfuel; [lia|].
  cbn [hash_loop]. unfold feof. rewrite Heof.
  destruct (Z.lt_ge_cases (Z.of_nat (length (f_rest inp))) BUFSIZE) as [Hlt|Hge].
  - rewrite fread_beyond by lia.
    destruct (Z.eqb_spec (Z.of_nat (length (f_rest inp))) 0) as [E0|E0].
    + assert (Hnil : f_rest inp = []).
      { destruct (f_rest inp); [reflexivity|cbn in E0; lia]. }
      now rewrite Hnil, gcry_md_write_nil.
    + destruct fuel as [|fuel]; [lia|].
      cbn [hash_loop]. unfold feof. cbn [f_eof]. reflexivity.
  - destruct (split_buffer (f_rest inp) Hge)
      as (chunk & rest' & Hsplit & Hchunk & Hfirst & Hskip).
    rewrite fread_within by lia. rewrite Hfirst, Hskip, Hchunk, Heof.
    replace (BUFSIZE =? 0) with false by (symmetry; apply Z.eqb_neq; lia).
    rewrite IH.
    + cbn [f_rest f_stat]. now rewrite gcry_md_write_app, Hsplit.
    + reflexivity.
    + cbn [f_rest]. rewrite Hsplit, length_app in Hfuel. lia.
Qed.

(** hash_encode with a handle at hand, on a stream that is not at its
    end. *)
Lemma hash_encode_all (X : externals) (mfx : md_filter_t)
    (m : gcry_md_hd_t) (inp : FILE) (out : list Z) :
  hash_handle X mfx = Some m ->
  f_eof inp = false ->
  hash_encode X (Some mfx) inp out
  = Some (CDK_Success,
          Some (mkMfx (Some (gcry_md_write m (f_rest inp))) (digest_algo mfx)),
          mkFILE (f_stat inp) [] true, out).
Proof.
  intros Hm Heof. unfold hash_encode.
  assert (Hopen : snd match md mfx with
                      | Some m0 => (0, Some m0)
                      | None => md_open X (digest_algo mfx)
                      end = Some m).
  { unfold hash_handle in Hm. destruct (md mfx); [cbn [snd]|]; exact Hm. }
  cbv zeta. rewrite Hopen.
  rewrite hash_loop_all by (assumption || (unfold loop_fuel; lia)).
  reflexivity.
Qed.

(** X1: a read pass of the hash filter over a stream that is not at its
    end feeds all the remaining bytes, in order, to the digest handle (the
    one of the context, or a new one for the algorithm of the context when
    there is none), leaves the stream at its end, writes nothing and
    returns success. *)
Theorem hash_filter_reads_whole_input
    (X : externals) (mfx : md_filter_t) (m : gcry_md_hd_t)
    (inp : FILE) (out : list Z) :
  hash_handle X mfx = Some m ->
  f_eof inp = false ->
  _cdk_filter_hash X (Some mfx) STREAMCTL_READ inp out
  = Some (CDK_Success,
          Some (mkMfx (Some (gcry_md_write m (f_rest inp))) (digest_algo mfx)),
          mkFILE (f_stat inp) [] true, out).
Proof.
  intros Hm Heof. cbn [_cdk_filter_hash].
  now apply hash_encode_all.
Qed.

Lemma hash_filter_reads_whole_input_witness :
  _cdk_filter_hash Reference.lib (Some (mkMfx None GCRY_MD_SHA1))
    STREAMCTL_READ (Reference.file_of [1; 2; 3]) [9]
  = Some (CDK_Success,
          Some (mkMfx
                  (Some (gcry_md_write (mkMd GCRY_MD_SHA1 [] false)
                           (f_rest (Reference.file_of [1; 2; 3]))))
                  (digest_algo (mkMfx None GCRY_MD_SHA1))),
          mkFILE (f_stat (Reference.file_of [1; 2; 3])) [] true, [9]).
Proof.
  apply (hash_filter_reads_whole_input Reference.lib
           (mkMfx None GCRY_MD_SHA1) (mkMd GCRY_MD_SHA1 [] false)
           (Reference.file_of [1; 2; 3]) [9]).
  - reflexivity.
  - reflexivity.
Defined.

(** X2: read passes of the hash filter accumulate: a pass over one stream
    and then, with the context it leaves, a pass over a second stream
    leave the handle that one pass over the bytes of both leaves. *)
Theorem hash_filter_passes_accumulate
    (X : externals) (mfx : md_filter_t) (m : gcry_md_hd_t)
    (a b : list Z) (sa sb sab : option Z) (out : list Z) :
  hash_handle X mfx = Some m ->
  exists mfx1 mfx2 ina inb inab,
    _cdk_filter_hash X (Some mfx) STREAMCTL_READ (mkFILE sa a false) out
    = Some (CDK_Success, Some mfx1, ina, out)
    /\ _cdk_filter_hash X (Some mfx1) STREAMCTL_READ (mkFILE sb b false) out
       = Some (CDK_Success, Some mfx2, inb, out)
    /\ _cdk_filter_hash X (Some mfx) STREAMCTL_READ
         (mkFILE sab (a ++ b) false) out
       = Some (CDK_Success, Some mfx2, inab, out)
    /\ md mfx2 = Some (gcry_md_write m (a ++ b)).
Proof.
  intros Hm.
  set (mfx1 := mkMfx (Some (gcry_md_write m a)) (digest_algo mfx)).
  assert (H1 : hash_handle X mfx1 = Some (gcry_md_write m a)) by reflexivity.
  exists mfx1, (mkMfx (Some (gcry_md_write m (a ++ b))) (digest_algo mfx)),
         (mkFILE sa [] true), (mkFILE sb [] true), (mkFILE sab [] true).
  cbn [_cdk_filter_hash].
  rewrite (hash_encode_all X mfx m (mkFILE sa a false) out Hm eq_refl).
  rewrite (hash_encode_all X mfx1 _ (mkFILE sb b false) out H1 eq_refl).
  rewrite (hash_encode_all X mfx m (mkFILE sab (a ++ b) false) out Hm eq_refl).
  cbn [f_rest f_stat digest_algo mfx1 md]. rewrite gcry_md_write_app.
  repeat split; reflexivity.
Qed.

Lemma hash_filter_passes_accumulate_witness :
  exists mfx1 mfx2 ina inb inab,
    _cdk_filter_hash Reference.lib (Some (mkMfx None GCRY_MD_SHA1))
      STREAMCTL_READ (mkFILE None [1; 2] false) []
    = Some (CDK_Success, Some mfx1, ina, [])
    /\ _cdk_filter_hash Reference.lib (Some mfx1) STREAMCTL_READ
         (mkFILE None [3] false) []
       = Some (CDK_Success, Some mfx2, inb, [])
    /\ _cdk_filter_hash Reference.lib (Some (mkMfx None GCRY_MD_SHA1))
         STREAMCTL_READ (mkFILE None ([1; 2] ++ [3]) false) []
       = Some (CDK_Success, Some mfx2, inab, [])
    /\ md mfx2
       = Some (gcry_md_write (mkMd GCRY_MD_SHA1 [] false) ([1; 2] ++ [3])).
Proof.
  apply (hash_filter_passes_accumulate Reference.lib
           (mkMfx None GCRY_MD_SHA1) (mkMd GCRY_MD_SHA1 [] false)
           [1; 2] [3] None None None []).
  reflexivity.
Defined.

(** X3: the free control of the hash filter drops what was hashed: after
    it the context has no handle, it returns success, and the next read
    pass starts a new handle that holds the bytes of that pass only. *)
Theorem hash_filter_free_starts_over
    (X : externals) (mfx : md_filter_t) (m : gcry_md_hd_t)
    (inp inp2 : FILE) (out : list Z) :
  hash_handle X mfx = Some m ->
  gcry_md_open X (digest_algo mfx) = 0 ->
  f_eof inp = false ->
  f_eof inp2 = false ->
  exists mfx1 mfx2 mfx3 inp' inp2',
    _cdk_filter_hash X (Some mfx) STREAMCTL_READ inp out
    = Some (CDK_Success, Some mfx1, inp', out)
    /\ md mfx1 = Some (gcry_md_write m (f_rest inp))
    /\ _cdk_filter_hash X (Some mfx1) STREAMCTL_FREE inp' out
       = Some (CDK_Success, Some mfx2, inp', out)
    /\ md mfx2 = None
    /\ _cdk_filter_hash X (Some mfx2) STREAMCTL_READ inp2 out
       = Some (CDK_Success, Some mfx3, inp2', out)
    /\ md mfx3
       = Some (gcry_md_write (mkMd (digest_algo mfx) [] false) (f_rest inp2)).
Proof.
  intros Hm Hopen Heof Heof2.
  assert (H2 : hash_handle X (mkMfx None (digest_algo mfx))
               = Some (mkMd (digest_algo mfx) [] false)).
  { unfold hash_handle, md_open. cbn [md digest_algo snd].
    now rewrite Hopen. }
  exists (mkMfx (Some (gcry_md_write m (f_rest inp))) (digest_algo mfx)),
         (mkMfx None (digest_algo mfx)),
         (mkMfx (Some (gcry_md_write (mkMd (digest_algo mfx) [] false)
                         (f_rest inp2))) (digest_algo mfx)),
         (mkFILE (f_stat inp) [] true), (mkFILE (f_stat inp2) [] true).
  cbn [_cdk_filter_hash].
  rewrite (hash_encode_all X mfx m inp out Hm Heof).
  rewrite (hash_encode_all X _ _ inp2 out H2 Heof2).
  cbn [digest_algo md]. repeat split; reflexivity.
Qed.

Lemma hash_filter_free_starts_over_witness :
  exists mfx1 mfx2 mfx3 inp' inp2',
    _cdk_filter_hash Reference.lib (Some (mkMfx None GCRY_MD_SHA1))
      STREAMCTL_READ (Reference.file_of [1; 2]) []
    = Some (CDK_Success, Some mfx1, inp', [])
    /\ md mfx1
       = Some (gcry_md_write (mkMd GCRY_MD_SHA1 [] false)
                 (f_rest (Reference.file_of [1; 2])))
    /\ _cdk_filter_hash Reference.lib (Some mfx1) STREAMCTL_FREE inp' []
       = Some (CDK_Success, Some mfx2, inp', [])
    /\ md mfx2 = None
    /\ _cdk_filter_hash Reference.lib (Some mfx2) STREAMCTL_READ
         (Reference.file_of [3]) []
       = Some (CDK_Success, Some mfx3, inp2', [])
    /\ md mfx3
       = Some (gcry_md_write
                 (mkMd (digest_algo (mkMfx None GCRY_MD_SHA1)) [] false)
                 (f_rest (Reference.file_of [3]))).
Proof.
  apply (hash_filter_free_starts_over Reference.lib
           (mkMfx None GCRY_MD_SHA1) (mkMd GCRY_MD_SHA1 [] false)
           (Reference.file_of [1; 2]) (Reference.file_of [3]) []).
  - reflexivity.
  - reflexivity.
  - reflexivity.
  - reflexivity.
Defined.

(** ** The cipher filter without chunking *)

Lemma prefix_plain_length (X : externals) (bs : Z) :
  0 <= bs -> Z.of_nat (length (prefix_plain X bs)) = bs + 2.
Proof.
  intros H. unfold prefix_plain. cbv zeta.
  rewrite length_app, (randomize_length X). cbn [length]. lia.
Qed.

(** The body of a packet: the prefix, the plaintext and, with integrity
    protection, 22 bytes more. *)
Lemma encoded_body_length (X : externals) (cfx0 : cipher_filter_t X)
    (p : list Z) :
  0 <= gcry_cipher_get_algo_blklen X (algo (dek cfx0)) ->
  gcry_md_get_algo_dlen X GCRY_MD_SHA1 = 20 ->
  mdc cfx0 = None ->
  Z.of_nat (length (encoded_body X cfx0 p))
  = gcry_cipher_get_algo_blklen X (algo (dek cfx0)) + 2
    + Z.of_nat (length p)
    + (if header_use_mdc X cfx0 =? 0 then 0 else 22).
Proof.
  intros Hbs Hd Hmdc. unfold encoded_body, prefix_cipher, enc_bytes.
  rewrite length_app, !(encrypt_length X), length_app.
  rewrite !Nat2Z.inj_add, prefix_plain_length by exact Hbs.
  unfold body_trailer, header_context. cfx_simpl. rewrite Hmdc.
  destruct (header_use_mdc X cfx0 =? 0); cbn [option_map length].
  - lia.
  - rewrite mdc_trailer_length by exact Hd. lia.
Qed.

(** X4: the round trip through the entry point, for an input taken
    without chunking: the write control leaves the packet header and a
    body, and the read control, on a context with the same key and the
    digest method of the packet, turns that body back into the input.  The
    body is blocksize + 2 bytes longer than the input, and 22 more with
    integrity protection.  With integrity protection the body must not end
    within 22 bytes after a multiple of BUFSIZE. *)
Theorem filter_cipher_round_trip
    (X : externals) (HX : stream_cipher X)
    (cfx cfxd : cipher_filter_t X) (inp : FILE) (out out_d : list Z)
    (s : option Z) :
  let cfx0 := encode_context X cfx inp in
  let p := f_rest inp in
  header_ready X cfx0 ->
  blkmode_on cfx0 = 0 ->
  f_eof inp = false ->
  fp_get_length inp <> -1 ->
  gcry_md_get_algo_dlen X GCRY_MD_SHA1 = 20 ->
  mdc cfx = None ->
  decoder_for X cfx0 cfxd ->
  header_use_mdc X cfx0 = 0
  \/ 22 <= (Z.of_nat (length p) + 22) mod BUFSIZE ->
  exists body cfx' inp' cfxd' inpd',
    _cdk_filter_cipher X (Some cfx) STREAMCTL_WRITE (Some inp) (Some out)
    = Pass (Returned CDK_Success cfx' inp'
              (out ++ snd (_cdk_pkt_write_fp X (header_packet X cfx0))
                   ++ body))
    /\ _cdk_filter_cipher X (Some cfxd) STREAMCTL_READ
         (Some (mkFILE s body false)) (Some out_d)
       = Pass (Returned CDK_Success cfxd' inpd' (out_d ++ p))
    /\ Z.of_nat (length body)
       = gcry_cipher_get_algo_blklen X (algo (dek cfx)) + 2
         + Z.of_nat (length p)
         + (if header_use_mdc X cfx0 =? 0 then 0 else 22).
Proof.
  intros cfx0 p Hready Hon Heof Hlen Hd Hmdc Hdec Hcase.
  destruct (round_trip_without_chunking X HX cfx cfxd inp out out_d s
              Hready Hon Heof Hlen Hd Hmdc Hdec Hcase)
    as [(cfx' & inp' & Henc) (cfxd' & inpd' & Hdecode)].
  fold cfx0 in Henc, Hdecode. fold p in Henc, Hdecode.
  exists (encoded_body X cfx0 p), cfx', inp', cfxd', inpd'.
  cbn [_cdk_filter_cipher]. rewrite Henc, Hdecode.
  split; [reflexivity|]. split; [reflexivity|].
  destruct (encode_context_fields X cfx inp) as (Hdek & _ & Hmdc0 & _).
  fold cfx0 in Hdek, Hmdc0. rewrite <- Hdek.
  apply encoded_body_length.
  - destruct Hready as [Hbs _]. lia.
  - exact Hd.
  - now rewrite Hmdc0.
Qed.

Lemma filter_cipher_round_trip_witness :
  let cfx := Reference.context (Sample.dek8 1) 0 0 0 in
  let cfxd := Reference.context (Sample.dek8 1) GCRY_MD_SHA1 0 0 in
  let inp := Reference.file_of [1; 2; 3] in
  let cfx0 := encode_context Reference.lib cfx inp in
  let p := f_rest inp in
  exists body cfx' inp' cfxd' inpd',
    _cdk_filter_cipher Reference.lib (Some cfx) STREAMCTL_WRITE
      (Some inp) (Some [])
    = Pass (Returned CDK_Success cfx' inp'
              ([] ++ snd (_cdk_pkt_write_fp Reference.lib
                            (header_packet Reference.lib cfx0))
                  ++ body))
    /\ _cdk_filter_cipher Reference.lib (Some cfxd) STREAMCTL_READ
         (Some (mkFILE None body false)) (Some [])
       = Pass (Returned CDK_Success cfxd' inpd' ([] ++ p))
    /\ Z.of_nat (length body)
       = gcry_cipher_get_algo_blklen Reference.lib (algo (dek cfx)) + 2
         + Z.of_nat (length p)
         + (if header_use_mdc Reference.lib cfx0 =? 0 then 0 else 22).
Proof.
  apply (filter_cipher_round_trip Reference.lib
           (reference_stream_cipher Reference.blklen)
           (Reference.context (Sample.dek8 1) 0 0 0)
           (Reference.context (Sample.dek8 1) GCRY_MD_SHA1 0 0)
           (Reference.file_of [1; 2; 3]) [] [] None).
  - exact reference_ready_definite.
  - reflexivity.
  - reflexivity.
  - vm_compute. congruence.
  - reflexivity.
  - reflexivity.
  - repeat split.
  - right. vm_compute. congruence.
Defined.

(** X5: for an input of known length that is not zero, taken without
    chunking, the lengths declared in the packet handed to the packet
    writer add up to the number of body bytes that cipher_encode writes
    after the packet header. *)
Theorem declared_length_matches_body
    (X : externals) (HX : stream_cipher X) (cfx : cipher_filter_t X)
    (inp : FILE) (out : list Z) :
  let cfx0 := encode_context X cfx inp in
  let pkt := header_packet X cfx0 in
  header_ready X cfx0 ->
  blkmode_on cfx0 = 0 ->
  f_eof inp = false ->
  f_stat inp = Some (Z.of_nat (length (f_rest inp))) ->
  f_rest inp <> [] ->
  gcry_md_get_algo_dlen X GCRY_MD_SHA1 = 20 ->
  mdc cfx = None ->
  exists cfx' inp' body,
    cipher_encode X (Some cfx) (Some inp) (Some out)
    = Returned CDK_Success cfx' inp'
        (out ++ snd (_cdk_pkt_write_fp X pkt) ++ body)
    /\ Z.of_nat (length body)
       = ed_len (pkt_encrypted pkt) + ed_extralen (pkt_encrypted pkt).
Proof.
  intros cfx0 pkt Hready Hon Heof Hstat Hne Hd Hmdc.
  assert (Hlen : fp_get_length inp = Z.of_nat (length (f_rest inp))).
  { unfold fp_get_length. now rewrite Hstat. }
  destruct (cipher_encode_definite X HX cfx inp out Hready Hon Heof
              ltac:(rewrite Hlen; lia) Hd) as [cfx' Henc].
  fold cfx0 in Henc.
  exists cfx', (mkFILE (f_stat inp) [] true), (encoded_body X cfx0 (f_rest inp)).
  split; [exact Henc|].
  destruct (encode_context_fields X cfx inp) as (Hdek & Hdl & Hmdc0 & _).
  fold cfx0 in Hdek, Hdl, Hmdc0.
  rewrite encoded_body_length;
    [|destruct Hready as [Hbs _]; lia|exact Hd|now rewrite Hmdc0].
  subst pkt. unfold header_packet. cbv zeta.
  cbn [pkt_encrypted ed_len ed_extralen]. rewrite Hon. cbn [Z.eqb].
  unfold header_datalen. rewrite Hdl, Hlen.
  assert (Hpos : Z.of_nat (length (f_rest inp)) <> 0).
  { destruct (f_rest inp); [congruence|cbn [length]; lia]. }
  apply Z.eqb_neq in Hpos. rewrite Hpos.
  destruct (header_use_mdc X cfx0 =? 0); cbn [negb andb]; lia.
Qed.

Lemma declared_length_matches_body_witness :
  let cfx := Reference.context (Sample.dek8 1) 0 0 0 in
  let inp := Reference.file_of [1; 2; 3] in
  let cfx0 := encode_context Reference.lib cfx inp in
  let pkt := header_packet Reference.lib cfx0 in
  exists cfx' inp' body,
    cipher_encode Reference.lib (Some cfx) (Some inp) (Some [])
    = Returned CDK_Success cfx' inp'
        ([] ++ snd (_cdk_pkt_write_fp Reference.lib pkt) ++ body)
    /\ Z.of_nat (length body)
       = ed_len (pkt_encrypted pkt) + ed_extralen (pkt_encrypted pkt).
Proof.
  apply (declared_length_matches_body Reference.lib
           (reference_stream_cipher Reference.blklen)
           (Reference.context (Sample.dek8 1) 0 0 0)
           (Reference.file_of [1; 2; 3]) []).
  - exact reference_ready_definite.
  - reflexivity.
  - reflexivity.
  - reflexivity.
  - discriminate.
  - reflexivity.
  - reflexivity.
Defined.

(** X6: when the length of the input cannot be determined, cipher_encode
    fails with CDK_File_Error, but only in cipher_encode_file.  For a
    context without chunking and with integrity protection: the packet
    header has been written by then, declaring the length 21 that the
    failure value -1 and the 22 bytes of the trailer add up to, and so has
    the encrypted prefix; no byte of the input has been read. *)
Theorem unknown_length_fails_after_header
    (X : externals) (cfx : cipher_filter_t X) (inp : FILE) (out : list Z) :
  let cfx0 := encode_context X cfx inp in
  f_stat inp = None ->
  blkmode_on cfx = 0 ->
  header_use_mdc X cfx <> 0 ->
  header_ready X cfx0 ->
  ed_len (pkt_encrypted (header_packet X cfx0)) = 21
  /\ exists cfx',
       cipher_encode X (Some cfx) (Some inp) (Some out)
       = Returned CDK_File_Error cfx' inp
           (out ++ snd (_cdk_pkt_write_fp X (header_packet X cfx0))
                ++ prefix_cipher X cfx0)
       /\ Z.of_nat (length (prefix_cipher X cfx0))
          = gcry_cipher_get_algo_blklen X (algo (dek cfx)) + 2.
Proof.
  intros cfx0 Hstat Hon Huse Hready.
  destruct (encode_context_fields X cfx inp) as (Hdek & Hdl & _ & Hon0).
  fold cfx0 in Hdek, Hdl, Hon0.
  assert (Hlen : fp_get_length inp = -1).
  { unfold fp_get_length. now rewrite Hstat. }
  rewrite Hlen in Hdl. rewrite Hon in Hon0.
  assert (Hon0' : blkmode_on cfx0 = 0).
  { rewrite Hon0. now destruct (_ && _). }
  assert (Huse0 : header_use_mdc X cfx0 = header_use_mdc X cfx).
  { unfold header_use_mdc. now rewrite Hdek. }
  split.
  - unfold header_packet. cbv zeta. cbn [pkt_encrypted ed_len].
    rewrite Hon0'. cbn [Z.eqb]. unfold header_datalen.
    rewrite Huse0, Hdl. apply Z.eqb_neq in Huse. rewrite Huse.
    reflexivity.
  - unfold cipher_encode. fold cfx0.
    rewrite write_header_ready by exact Hready. cbn [failed].
    unfold cipher_encode_file. rewrite Hlen. cbn [Z.eqb].
    exists (header_context X cfx0). split; [reflexivity|].
    rewrite <- Hdek.
    unfold prefix_cipher. rewrite (encrypt_length X).
    apply prefix_plain_length. destruct Hready as [Hbs _]. lia.
Qed.

Lemma unknown_length_fails_after_header_witness :
  let cfx := Reference.context (Sample.dek8 1) 0 0 0 in
  let inp := mkFILE None [1; 2; 3] false in
  let cfx0 := encode_context Reference.lib cfx inp in
  ed_len (pkt_encrypted (header_packet Reference.lib cfx0)) = 21
  /\ exists cfx',
       cipher_encode Reference.lib (Some cfx) (Some inp) (Some [])
       = Returned CDK_File_Error cfx' inp
           ([] ++ snd (_cdk_pkt_write_fp Reference.lib
                         (header_packet Reference.lib cfx0))
               ++ prefix_cipher Reference.lib cfx0)
       /\ Z.of_nat (length (prefix_cipher Reference.lib cfx0))
          = gcry_cipher_get_algo_blklen Reference.lib (algo (dek cfx)) + 2.
Proof.
  apply (unknown_length_fails_after_header Reference.lib
           (Reference.context (Sample.dek8 1) 0 0 0)
           (mkFILE None [1; 2; 3] false) []).
  - reflexivity.
  - reflexivity.
  - vm_compute. congruence.
  - repeat split; vm_compute; congruence.
Defined.

(** X7: an input whose length is known and below BUFSIZE is never
    chunked: whatever the partial-length flag of the context says,
    cipher_encode does what it does with the flag off. *)
Theorem short_input_is_not_chunked
    (X : externals) (cfx : cipher_filter_t X) (inp : FILE)
    (out : option (list Z)) (L : Z) :
  f_stat inp = Some L ->
  0 <= L < BUFSIZE ->
  cipher_encode X (Some cfx) (Some inp) out
  = cipher_encode X (Some (set_on X cfx 0)) (Some inp) out.
Proof.
  intros Hstat [_ Hlen]. apply Z.ltb_lt in Hlen.
  assert (Hctx : encode_context X cfx inp
                 = encode_context X (set_on X cfx 0) inp).
  { unfold encode_context, fp_get_length. rewrite Hstat. cfx_simpl.
    rewrite Hlen. cbn [Z.eqb negb andb].
    destruct (blkmode_on cfx =? 0) eqn:E; cbn [negb andb].
    - apply Z.eqb_eq in E. destruct cfx; cbn in *. now subst.
    - reflexivity. }
  unfold cipher_encode. now rewrite Hctx.
Qed.

Lemma short_input_is_not_chunked_witness :
  cipher_encode Reference.lib
    (Some (Reference.context (Sample.dek8 1) 0 1 0))
    (Some (Reference.file_of [1; 2; 3])) (Some [])
  = cipher_encode Reference.lib
      (Some (set_on Reference.lib
               (Reference.context (Sample.dek8 1) 0 1 0) 0))
      (Some (Reference.file_of [1; 2; 3])) (Some []).
Proof.
  apply (short_input_is_not_chunked Reference.lib
           (Reference.context (Sample.dek8 1) 0 1 0)
           (Reference.file_of [1; 2; 3]) (Some []) 3).
  - reflexivity.
  - vm_compute. split; congruence.
Defined.

(** write_header only adds to the output. *)
Lemma write_header_appends (X : externals) (cfx : cipher_filter_t X)
    (out : list Z) :
  exists tail, snd (write_header X cfx out) = out ++ tail.
Proof.
  unfold write_header, fwrite. cbv zeta.
  repeat match goal with
  | |- context [if ?c then (_, _, _) else _] => destruct c
  end; cbn [snd]; rewrite <- ?app_assoc; eauto using app_nil_r.
Qed.

(** X8: cipher_encode returns on every context, input and output, and
    never changes what the output held: it only adds bytes to it. *)
Theorem cipher_encode_only_appends
    (X : externals) (cfx : cipher_filter_t X) (inp : FILE) (out : list Z) :
  exists rc cfx' inp' tail,
    cipher_encode X (Some cfx) (Some inp) (Some out)
    = Returned rc cfx' inp' (out ++ tail).
Proof.
  unfold cipher_encode.
  destruct (write_header_appends X (encode_context X cfx inp) out)
    as [hdr Hhdr].
  destruct (write_header X (encode_context X cfx inp) out)
    as [[rc cfx1] out1].
  cbn [snd] in Hhdr. subst out1.
  destruct (failed rc); [eauto|].
  destruct (cipher_encode_file_returns X cfx1 inp (out ++ hdr))
    as (rc' & cfx' & inp' & tail & H).
  rewrite H, <- app_assoc. eauto.
Qed.

(** ** The decoder *)

(** The decoder loop ends on every input: an iteration that does not
    leave the loop has read at least one byte.  It only adds to the
    output. *)
Lemma decode_loop_returns (X : externals) (fuel : nat) :
  forall (cfx : cipher_filter_t X) (inp : FILE) (out : list Z),
  (length (f_rest inp) < fuel)%nat ->
  decode_loop X fuel cfx inp out = Out_Of_Bounds
  \/ exists rc cfx' inp' tail,
       decode_loop X fuel cfx inp out = Returned rc cfx' inp' (out ++ tail).
Proof.
  induction fuel as [|fuel IH]; intros cfx inp out Hfuel; [lia|].
  cbn [decode_loop].
  destruct (feof inp).
  { right. exists CDK_Success, cfx, inp, []. now rewrite app_nil_r. }
  set (nreq := if negb (blkmode_on cfx =? 0)
               then size_t (to_int (blkmode_size cfx)) else BUFSIZE).
  pose proof (fread_consumes nreq inp) as Hc.
  destruct (fread nreq inp) as [buf inp1]. cbn [fst snd] in Hc.
  destruct (Z.of_nat (length buf) =? 0) eqn:E0.
  { right. exists CDK_Success, cfx, inp1, []. now rewrite app_nil_r. }
  apply Z.eqb_neq in E0.
  destruct (Z.of_nat (length buf) >? BUFSIZE); [now left|].
  cbv zeta.
  match goal with
  | |- context [match ?v with Some _ => _ | None => Out_Of_Bounds end] =>
      destruct v as [[[rc cfx2] nread2]|]; [|now left]
  end.
  destruct (failed rc).
  { right. exists rc, cfx2, inp1, []. now rewrite app_nil_r. }
  unfold decode_emit, fwrite.
  destruct (negb (blkmode_on cfx2 =? 0)).
  - pose proof (read_len_rest X inp1 (blkmode_on cfx2)) as Hr.
    destruct (_cdk_pkt_read_len X inp1 (blkmode_on cfx2)) as [[sz on'] inp2].
    cbn [fst snd] in Hr |- *. cfx_simpl.
    destruct (sz =? SIZE_T_EOF); cbn [failed].
    + right. eauto.
    + destruct (IH (set_size X (set_on X cfx2 on') sz) inp2
                   (out ++ firstn (Z.to_nat nread2) (snd (gcry_cipher_decrypt X (hd cfx) buf)))
                   ltac:(lia))
        as [H|(rc' & cfx' & inp' & tail & H)].
      * left. exact H.
      * right. rewrite H, <- app_assoc. eauto.
  - cbn [failed].
    destruct (IH cfx2 inp1
                 (out ++ firstn (Z.to_nat nread2) (snd (gcry_cipher_decrypt X (hd cfx) buf)))
                 ltac:(lia))
      as [H|(rc' & cfx' & inp' & tail & H)].
    + left. exact H.
    + right. rewrite H, <- app_assoc. eauto.
Qed.

(** X9: cipher_decode ends on every context, input and output, in block
    mode with any chunk size too: it returns, having only added bytes to
    the output, or it stops at an access outside its buffer. *)
Theorem cipher_decode_only_appends
    (X : externals) (cfx : cipher_filter_t X) (inp : FILE) (out : list Z) :
  reads_out_of_bounds (cipher_decode X (Some cfx) (Some inp) (Some out))
  = true
  \/ exists rc cfx' inp' tail,
       cipher_decode X (Some cfx) (Some inp) (Some out)
       = Returned rc cfx' inp' (out ++ tail).
Proof.
  unfold cipher_decode.
  destruct (read_header X cfx inp) as [[rc cfx1] inp1].
  destruct (failed rc).
  { right. exists rc, cfx1, inp1, []. now rewrite app_nil_r. }
  unfold cipher_decode_file.
  destruct (decode_loop_returns X (loop_fuel inp1) cfx1 inp1 out
              ltac:(unfold loop_fuel; lia)) as [H|H].
  - left. now rewrite H.
  - right. exact H.
Qed.

(** A chunk size below the length of the prefix: read_header leaves a
    negative size, which fread takes as a count larger than any stream, so
    the rest of the stream is read in one piece.  Here 20 bytes follow the
    prefix: they are decrypted and written, and then the length of a next
    chunk is missing. *)
Lemma short_chunk_size_reads_the_rest :
  let body :=
    Sample.body_of 2 (Sample.encode (Sample.dek8 0) 0 (Sample.plain 20)) in
  let o := cipher_decode Reference.lib
             (Some (Reference.context (Sample.dek8 0) 0 1 5))
             (Some (Reference.file_of body)) (Some []) in
  length body = 30%nat
  /\ result_code o = Some CDK_Inv_Packet
  /\ written o = Some (Sample.plain 20).
Proof.
  vm_compute. repeat split; reflexivity.
Qed.

(** Fewer than [n] bytes left: the loop of fgetc calls meets EOF. *)
Lemma fgetc_n_short (n : nat) :
  forall inp, (length (f_rest inp) < n)%nat ->
  fgetc_n n inp = (None, mkFILE (f_stat inp) [] true).
Proof.
  induction n as [|n IH]; intros [s rest e] H; [cbn in H; lia|].
  cbn [fgetc_n]. unfold fgetc. cbn [f_rest f_stat f_eof] in *.
  destruct rest as [|c r]; [reflexivity|].
  cbn [length] in H. rewrite IH by (cbn [f_rest]; lia). reflexivity.
Qed.

(** X10: a stream that ends inside the prefix: when the handles can be
    set up and fewer than blocksize + 2 bytes are left, cipher_decode
    returns CDK_File_Error, has read the stream to its end and has written
    nothing. *)
Theorem truncated_prefix_is_a_file_error
    (X : externals) (cfx : cipher_filter_t X) (inp : FILE) (out : list Z) :
  decode_ready X cfx ->
  Z.of_nat (length (f_rest inp))
  < gcry_cipher_get_algo_blklen X (algo (dek cfx)) + 2 ->
  exists cfx',
    cipher_decode X (Some cfx) (Some inp) (Some out)
    = Returned CDK_File_Error cfx' (mkFILE (f_stat inp) [] true) out.
Proof.
  intros (Hbs & Hlen & Hmd & Hopen & Hiv & Hkey) Hshort.
  unfold cipher_decode, read_header.
  set (bs := gcry_cipher_get_algo_blklen X (algo (dek cfx))) in *.
  replace ((bs <? 8) || (bs >? 16)) with false
    by (symmetry; apply orb_false_iff; rewrite Z.ltb_ge, Z.gtb_ltb, Z.ltb_ge; lia).
  replace ((datalen cfx >? 0) && (datalen cfx <? bs + 2)) with false.
  2:{ symmetry. apply andb_false_iff. rewrite Z.gtb_ltb, !Z.ltb_ge. lia. }
  set (opened := if negb (mdc_method cfx =? 0)
                 then md_open X (mdc_method cfx) else (0, mdc cfx)).
  assert (Hopened : fst opened = 0).
  { subst opened. destruct (mdc_method cfx =? 0) eqn:E; [reflexivity|].
    apply Z.eqb_neq in E. cbn. auto. }
  rewrite Hopened. cbn [Z.eqb negb].
  cbn [dek set_mdc set_hd hd mdc_method].
  rewrite Hopen. cbn [Z.eqb negb]. rewrite Hiv. cbn [Z.eqb negb].
  rewrite Hkey. cbn [Z.eqb negb].
  rewrite fgetc_n_short by lia.
  cbn [failed]. eexists. reflexivity.
Qed.

Lemma truncated_prefix_is_a_file_error_witness :
  exists cfx',
    cipher_decode Reference.lib
      (Some (Reference.context (Sample.dek8 0) 0 0 0))
      (Some (Reference.file_of [1; 2; 3])) (Some [7])
    = Returned CDK_File_Error cfx'
        (mkFILE (f_stat (Reference.file_of [1; 2; 3])) [] true) [7].
Proof.
  apply (truncated_prefix_is_a_file_error Reference.lib
           (Reference.context (Sample.dek8 0) 0 0 0)
           (Reference.file_of [1; 2; 3]) [7]).
  - repeat split; try (vm_compute; congruence). cbn. lia.
  - vm_compute. reflexivity.
Defined.

(** X11: without a digest handle and without chunking nothing is checked:
    cipher_decode_file decrypts the whole of the input as one stream,
    writes all of it and returns success, whatever the bytes are. *)
Theorem unprotected_body_is_never_rejected
    (X : externals) (HX : stream_cipher X) (cfx : cipher_filter_t X)
    (inp : FILE) (out : list Z) :
  blkmode_on cfx = 0 ->
  f_eof inp = false ->
  mdc cfx = None ->
  exists cfx' inp',
    cipher_decode_file X cfx inp out
    = Returned CDK_Success cfx' inp'
        (out ++ snd (gcry_cipher_decrypt X (hd cfx) (f_rest inp))).
Proof.
  intros Hon Heof Hmdc. unfold cipher_decode_file.
  apply (decode_loop_unverified X HX); try assumption.
  - now left.
  - unfold loop_fuel. lia.
Qed.

Lemma unprotected_body_is_never_rejected_witness :
  exists cfx' inp',
    cipher_decode_file Reference.lib
      (Reference.context (Sample.dek8 0) 0 0 0)
      (Reference.file_of [1; 2; 3]) []
    = Returned CDK_Success cfx' inp'
        ([] ++ snd (gcry_cipher_decrypt Reference.lib
                      (hd (Reference.context (Sample.dek8 0) 0 0 0))
                      (f_rest (Reference.file_of [1; 2; 3])))).
Proof.
  apply (unprotected_body_is_never_rejected Reference.lib
           (reference_stream_cipher Reference.blklen)
           (Reference.context (Sample.dek8 0) 0 0 0)
           (Reference.file_of [1; 2; 3]) []).
  - reflexivity.
  - reflexivity.
  - reflexivity.
Defined.

(** X12: the trailer is checked after the earlier buffers have left: when
    the check of the last read fails, with CDK_Inv_Packet or CDK_Bad_MDC,
    the output already holds the decrypted bytes of every full buffer
    before the last read. *)
Theorem rejected_body_is_partly_written
    (X : externals) (HX : stream_cipher X) (cfx : cipher_filter_t X)
    (inp : FILE) (out : list Z) (m : gcry_md_hd_t) :
  blkmode_on cfx = 0 ->
  f_eof inp = false ->
  mdc cfx = Some m ->
  gcry_md_get_algo_dlen X GCRY_MD_SHA1 = 20 ->
  22 <= Z.of_nat (length (f_rest inp)) mod BUFSIZE ->
  let D := snd (gcry_cipher_decrypt X (hd cfx) (f_rest inp)) in
  let full := BUFSIZE * (Z.of_nat (length (f_rest inp)) / BUFSIZE) in
  exists rc cfx' inp' out',
    cipher_decode_file X cfx inp out = Returned rc cfx' inp' out'
    /\ (rc <> CDK_Success ->
        (rc = CDK_Inv_Packet \/ rc = CDK_Bad_MDC)
        /\ out' = out ++ firstn (Z.to_nat full) D).
Proof.
  intros Hon Heof Hmdc Hd Hmod D full.
  destruct (decode_loop_verified X HX (loop_fuel inp) cfx inp out m
              Hon Heof Hmdc Hd ltac:(unfold loop_fuel; lia) Hmod)
    as (cfx' & inp' & Hloop).
  fold (dec_bytes X (hd cfx) (f_rest inp)) in D.
  fold D in Hloop.
  exists (mdc_verdict X m D), cfx', inp', (out ++ delivered X m D).
  split; [exact Hloop|].
  assert (HlenD : length D = length (f_rest inp)).
  { subst D. unfold dec_bytes. apply (decrypt_length X). }
  unfold delivered. rewrite HlenD. fold full.
  unfold mdc_verdict.
  destruct (negb (trailer_tag_ok D)); [intros _; split; [now left|reflexivity]|].
  destruct (bytes_eqb (expected_digest X m D) (trailer_digest D));
    [intros H; now elim H|].
  intros _. split; [now right|reflexivity].
Qed.

Lemma rejected_body_is_partly_written_witness :
  let cfx := set_mdc Reference.lib
               (Reference.context (Sample.dek8 1) GCRY_MD_SHA1 0 0)
               (Some (mkMd GCRY_MD_SHA1 [] false)) in
  let inp := Reference.file_of (Sample.plain 8217) in
  let D := snd (gcry_cipher_decrypt Reference.lib (hd cfx) (f_rest inp)) in
  let full := BUFSIZE * (Z.of_nat (length (f_rest inp)) / BUFSIZE) in
  exists rc cfx' inp' out',
    cipher_decode_file Reference.lib cfx inp [] = Returned rc cfx' inp' out'
    /\ (rc <> CDK_Success ->
        (rc = CDK_Inv_Packet \/ rc = CDK_Bad_MDC)
        /\ out' = [] ++ firstn (Z.to_nat full) D).
Proof.
  apply (rejected_body_is_partly_written Reference.lib
           (reference_stream_cipher Reference.blklen)
           (set_mdc Reference.lib
              (Reference.context (Sample.dek8 1) GCRY_MD_SHA1 0 0)
              (Some (mkMd GCRY_MD_SHA1 [] false)))
           (Reference.file_of (Sample.plain 8217)) []
           (mkMd GCRY_MD_SHA1 [] false)).
  - reflexivity.
  - reflexivity.
  - reflexivity.
  - reflexivity.
  - vm_compute. congruence.
Defined.

(** X13: in block mode the chunk length is the number of bytes asked
    for, whatever the size of the buffer: with a chunk length above
    BUFSIZE and more than BUFSIZE bytes left in the stream, the fread of
    cipher_decode_file stores past the end of its buffer. *)
Theorem oversized_chunk_overruns_the_buffer
    (X : externals) (cfx : cipher_filter_t X) (inp : FILE) (out : list Z) :
  blkmode_on cfx <> 0 ->
  f_eof inp = false ->
  BUFSIZE < blkmode_size cfx < 2 ^ 31 ->
  BUFSIZE < Z.of_nat (length (f_rest inp)) ->
  cipher_decode_file X cfx inp out = Out_Of_Bounds.
Proof.
  intros Hon Heof [Hsize Hint] Hlen. pose proof BUFSIZE_eq as HB.
  unfold cipher_decode_file, loop_fuel. cbn [decode_loop].
  unfold feof. rewrite Heof.
  apply Z.eqb_neq in Hon. rewrite Hon. cbn [negb].
  assert (Hconv : size_t (to_int (blkmode_size cfx)) = blkmode_size cfx).
  { unfold to_int. rewrite Z.mod_small by lia.
    rewrite size_t_small by lia. lia. }
  rewrite Hconv.
  assert (Hread : BUFSIZE
                  < Z.of_nat (length (fst (fread (blkmode_size cfx) inp)))).
  { unfold fread.
    destruct (blkmode_size cfx <=? Z.of_nat (length (f_rest inp))) eqn:E;
      cbn [fst]; [|exact Hlen].
    apply Z.leb_le in E. rewrite length_firstn. lia. }
  destruct (fread (blkmode_size cfx) inp) as [buf inp1]. cbn [fst] in Hread.
  replace (Z.of_nat (length buf) =? 0) with false
    by (symmetry; apply Z.eqb_neq; lia).
  replace (Z.of_nat (length buf) >? BUFSIZE) with true
    by (symmetry; rewrite Z.gtb_ltb; apply Z.ltb_lt; lia).
  reflexivity.
Qed.

Lemma oversized_chunk_overruns_the_buffer_witness :
  cipher_decode_file Reference.lib
    (Reference.context (Sample.dek8 0) 0 1 16384)
    (Reference.file_of (Sample.plain 9000)) []
  = Out_Of_Bounds.
Proof.
  apply (oversized_chunk_overruns_the_buffer Reference.lib
           (Reference.context (Sample.dek8 0) 0 1 16384)
           (Reference.file_of (Sample.plain 9000)) []).
  - discriminate.
  - reflexivity.
  - split; reflexivity.
  - vm_compute. reflexivity.
Defined.

(** X14: without chunking the reads of cipher_decode_file stay inside
    the buffer, except in one case: a digest handle and a last read of 1
    to 21 bytes. *)
Theorem out_of_bounds_only_on_a_short_last_read
    (X : externals) (HX : stream_cipher X) (cfx : cipher_filter_t X)
    (inp : FILE) (out : list Z) :
  blkmode_on cfx = 0 ->
  f_eof inp = false ->
  gcry_md_get_algo_dlen X GCRY_MD_SHA1 = 20 ->
  reads_out_of_bounds (cipher_decode_file X cfx inp out) = true
  <-> mdc cfx <> None
      /\ 0 < Z.of_nat (length (f_rest inp)) mod BUFSIZE < 22.
Proof.
  intros Hon Heof Hd. pose proof BUFSIZE_eq as HB.
  assert (Hm := Z.mod_pos_bound (Z.of_nat (length (f_rest inp))) BUFSIZE
                  ltac:(lia)).
  unfold cipher_decode_file. split.
  - intros Hoob.
    destruct (mdc cfx) as [m|] eqn:Hmdc.
    + split; [discriminate|].
      destruct (Z.eq_dec (Z.of_nat (length (f_rest inp)) mod BUFSIZE) 0)
        as [E0|E0].
      * destruct (decode_loop_unverified X HX (loop_fuel inp) cfx inp out
                    Hon Heof (or_intror E0) ltac:(unfold loop_fuel; lia))
          as (cfx' & inp' & H).
        rewrite H in Hoob. discriminate.
      * destruct (Z.lt_ge_cases
                    (Z.of_nat (length (f_rest inp)) mod BUFSIZE) 22)
          as [Hlt|Hge]; [lia|].
        destruct (decode_loop_verified X HX (loop_fuel inp) cfx inp out m
                    Hon Heof Hmdc Hd ltac:(unfold loop_fuel; lia) Hge)
          as (cfx' & inp' & H).
        rewrite H in Hoob. discriminate.
    + destruct (decode_loop_unverified X HX (loop_fuel inp) cfx inp out
                  Hon Heof (or_introl Hmdc) ltac:(unfold loop_fuel; lia))
        as (cfx' & inp' & H).
      rewrite H in Hoob. discriminate.
  - intros [Hmdc Hmod].
    rewrite (decode_loop_out_of_bounds X (loop_fuel inp) cfx inp out
               Hon Heof Hmdc Hd ltac:(unfold loop_fuel; lia) Hmod).
    reflexivity.
Qed.

Lemma out_of_bounds_only_on_a_short_last_read_witness :
  let cfx := set_mdc Reference.lib
               (Reference.context (Sample.dek8 1) GCRY_MD_SHA1 0 0)
               (Some (mkMd GCRY_MD_SHA1 [] false)) in
  let inp := Reference.file_of (repeat 7 25) in
  reads_out_of_bounds (cipher_decode_file Reference.lib cfx inp []) = true
  <-> mdc cfx <> None
      /\ 0 < Z.of_nat (length (f_rest inp)) mod BUFSIZE < 22.
Proof.
  apply (out_of_bounds_only_on_a_short_last_read Reference.lib
           (reference_stream_cipher Reference.blklen)
           (set_mdc Reference.lib
              (Reference.context (Sample.dek8 1) GCRY_MD_SHA1 0 0)
              (Some (mkMd GCRY_MD_SHA1 [] false)))
           (Reference.file_of (repeat 7 25)) []).
  - reflexivity.
  - reflexivity.
  - reflexivity.
Defined.

(** ** The framer *)

(** The second half of write_partial_block when the chunk fits in the
    buffer and in the input and the cipher reports no error: the bytes of
    the chunk are read, hashed, encrypted and written, and the chunk is
    used up. *)
Lemma write_partial_block_chunk (X : externals) (inp : FILE)
    (out out1 : list Z) (r r1 : Z) (cfx cfx1 : cipher_filter_t X) :
  next_block_length X out r cfx = (out1, r1, cfx1) ->
  0 < blkmode_nleft cfx1 <= BUFSIZE ->
  blkmode_nleft cfx1 <= Z.of_nat (length (f_rest inp)) ->
  let chunk := firstn (Z.to_nat (blkmode_nleft cfx1)) (f_rest inp) in
  fst (fst (gcry_cipher_encrypt X (hd cfx1) chunk)) = 0 ->
  write_partial_block X inp out r cfx
  = (CDK_Success,
     mkFILE (f_stat inp) (skipn (Z.to_nat (blkmode_nleft cfx1)) (f_rest inp))
            (f_eof inp),
     out1 ++ enc_bytes X (hd cfx1) chunk, r1,
     set_nleft X (set_hd X (mdc_write X cfx1 chunk)
                         (enc_hd X (hd cfx1) chunk)) 0).
Proof.
  intros Hnext Hn Hlen chunk Herr.
  unfold write_partial_block. rewrite Hnext.
  replace (blkmode_nleft cfx1 <? BUFSIZE + 1) with true
    by (symmetry; apply Z.ltb_lt; lia).
  rewrite fread_within by lia. fold chunk.
  assert (Hchunk : Z.of_nat (length chunk) = blkmode_nleft cfx1).
  { subst chunk. rewrite length_firstn. lia. }
  rewrite Hchunk.
  replace (blkmode_nleft cfx1 =? 0) with false
    by (symmetry; apply Z.eqb_neq; lia).
  destruct (mdc_write_fields X cfx1 chunk) as (Hhd & _ & _).
  cbv zeta. rewrite Hhd, Herr. cbn [cdk_of_gcry Z.eqb failed].
  unfold fwrite, enc_bytes, enc_hd. cfx_simpl.
  unfold set_nleft, set_hd. cfx_simpl.
  repeat f_equal.
  unfold mdc_write. destruct (mdc cfx1); cfx_simpl; lia.
Qed.

(** X15: a chunk that is not the last.  When the chunk under way is used
    up and more than 512 bytes are still to frame, write_partial_block
    announces a chunk of 2^k bytes with the one byte 0xE0 + k, where k is
    13 above BUFSIZE and the binary logarithm of the count otherwise, so
    the chunk is the largest power of two that fits; it reads that many
    bytes, writes them encrypted after the length byte and takes them off
    the count. *)
Theorem partial_chunk_is_a_power_of_two
    (X : externals) (inp : FILE) (out : list Z) (r : Z)
    (cfx : cipher_filter_t X) :
  blkmode_nleft cfx = 0 ->
  512 < r ->
  r <= Z.of_nat (length (f_rest inp)) ->
  let k := if r >? BUFSIZE then DEF_BLOCKBITS else Z.log2 r in
  let chunk := firstn (Z.to_nat (2 ^ k)) (f_rest inp) in
  fst (fst (gcry_cipher_encrypt X (hd cfx) chunk)) = 0 ->
  512 <= 2 ^ k <= r
  /\ 2 ^ k <= BUFSIZE
  /\ (r <= BUFSIZE -> r < 2 * 2 ^ k)
  /\ exists cfx',
       write_partial_block X inp out r cfx
       = (CDK_Success,
          mkFILE (f_stat inp) (skipn (Z.to_nat (2 ^ k)) (f_rest inp))
                 (f_eof inp),
          out ++ [0xE0 + k] ++ enc_bytes X (hd cfx) chunk,
          r - 2 ^ k, cfx')
       /\ blkmode_nleft cfx' = 0.
Proof.
  intros Hnleft Hr Hlen k chunk Herr. pose proof BUFSIZE_eq as HB.
  assert (Hk : 9 <= k <= 13 /\ 512 <= 2 ^ k <= r /\ 2 ^ k <= BUFSIZE
               /\ (r <= BUFSIZE -> r < 2 * 2 ^ k)
               /\ next_block_length X out r cfx
                  = (out ++ [0xE0 + k], r - 2 ^ k, set_nleft X cfx (2 ^ k))).
  { subst k. unfold next_block_length. rewrite Hnleft. cbn [Z.eqb].
    destruct (r >? BUFSIZE) eqn:Eg.
    - rewrite Z.gtb_ltb in Eg. apply Z.ltb_lt in Eg.
      unfold DEF_BLOCKBITS. change (2 ^ 13) with 8192. rewrite HB in *.
      split; [lia|]. split; [lia|]. split; [lia|]. split; [lia|].
      unfold fputc. reflexivity.
    - rewrite Z.gtb_ltb in Eg. apply Z.ltb_ge in Eg.
      destruct (partial_chunk_size r ltac:(lia)) as (Hn & Hp & Hsz & Hlog).
      replace (r >? 512) with true
        by (symmetry; rewrite Z.gtb_ltb; apply Z.ltb_lt; lia).
      cbv zeta. rewrite Hn, Hp. cfx_simpl.
      assert (Hup : r < 2 * 2 ^ Z.log2 r).
      { rewrite <- Z.pow_succ_r by lia. apply Z.log2_spec. lia. }
      assert (Hle : 2 ^ Z.log2 r <= BUFSIZE) by lia.
      split; [lia|]. split; [lia|]. split; [lia|]. split; [lia|].
      unfold fputc. do 3 f_equal.
      assert (Hcases : Z.log2 r = 9 \/ Z.log2 r = 10 \/ Z.log2 r = 11
                       \/ Z.log2 r = 12 \/ Z.log2 r = 13) by lia.
      destruct Hcases as [E|[E|[E|[E|E]]]]; rewrite E; reflexivity. }
  destruct Hk as (Hk & Hsz & Hle & Hup & Hnext).
  split; [exact Hsz|]. split; [exact Hle|]. split; [exact Hup|].
  eexists. split.
  - rewrite (write_partial_block_chunk X inp out _ r _ cfx _ Hnext).
    + cfx_simpl. rewrite <- app_assoc. reflexivity.
    + cfx_simpl. lia.
    + cfx_simpl. lia.
    + cfx_simpl. exact Herr.
  - reflexivity.
Qed.

Lemma partial_chunk_is_a_power_of_two_witness :
  let cfx := Reference.context (Sample.dek8 0) 0 1 0 in
  let inp := Reference.file_of (Sample.plain 1000) in
  let k := if 1000 >? BUFSIZE then DEF_BLOCKBITS else Z.log2 1000 in
  let chunk := firstn (Z.to_nat (2 ^ k)) (f_rest inp) in
  512 <= 2 ^ k <= 1000
  /\ 2 ^ k <= BUFSIZE
  /\ (1000 <= BUFSIZE -> 1000 < 2 * 2 ^ k)
  /\ exists cfx',
       write_partial_block Reference.lib inp [] 1000 cfx
       = (CDK_Success,
          mkFILE (f_stat inp) (skipn (Z.to_nat (2 ^ k)) (f_rest inp))
                 (f_eof inp),
          [] ++ [0xE0 + k] ++ enc_bytes Reference.lib (hd cfx) chunk,
          1000 - 2 ^ k, cfx')
       /\ blkmode_nleft cfx' = 0.
Proof.
  apply (partial_chunk_is_a_power_of_two Reference.lib
           (Reference.file_of (Sample.plain 1000)) [] 1000
           (Reference.context (Sample.dek8 0) 0 1 0)).
  - reflexivity.
  - lia.
  - vm_compute. congruence.
  - reflexivity.
Defined.

(** X16: a last chunk of fewer than 192 bytes.  When the chunk under way
    is used up and from 1 to 191 bytes are still to frame,
    write_partial_block writes the count as one byte, then the bytes
    encrypted, and nothing is left to frame. *)
Theorem short_final_chunk
    (X : externals) (inp : FILE) (out : list Z) (r : Z)
    (cfx : cipher_filter_t X) :
  blkmode_nleft cfx = 0 ->
  0 < r < 192 ->
  r <= Z.of_nat (length (f_rest inp)) ->
  let chunk := firstn (Z.to_nat r) (f_rest inp) in
  fst (fst (gcry_cipher_encrypt X (hd cfx) chunk)) = 0 ->
  exists cfx',
    write_partial_block X inp out r cfx
    = (CDK_Success,
       mkFILE (f_stat inp) (skipn (Z.to_nat r) (f_rest inp)) (f_eof inp),
       out ++ [r] ++ enc_bytes X (hd cfx) chunk, 0, cfx')
    /\ blkmode_nleft cfx' = 0.
Proof.
  intros Hnleft Hr Hlen chunk Herr. pose proof BUFSIZE_eq as HB.
  assert (Hnext : next_block_length X out r cfx
                  = (out ++ [r], 0, set_nleft X cfx r)).
  { unfold next_block_length. rewrite Hnleft. cbn [Z.eqb].
    replace (r >? BUFSIZE) with false
      by (symmetry; rewrite Z.gtb_ltb; apply Z.ltb_ge; lia).
    replace (r >? 512) with false
      by (symmetry; rewrite Z.gtb_ltb; apply Z.ltb_ge; lia).
    cbv zeta. rewrite size_t_small by lia.
    replace (r <? 192) with true by (symmetry; apply Z.ltb_lt; lia).
    unfold fputc. rewrite Z.mod_small by lia. now rewrite Z.sub_diag. }
  eexists. split.
  - rewrite (write_partial_block_chunk X inp out _ r _ cfx _ Hnext).
    + cfx_simpl. rewrite <- app_assoc. reflexivity.
    + cfx_simpl. lia.
    + cfx_simpl. lia.
    + cfx_simpl. exact Herr.
  - reflexivity.
Qed.

Lemma short_final_chunk_witness :
  let cfx := Reference.context (Sample.dek8 0) 0 1 0 in
  let inp := Reference.file_of (Sample.plain 100) in
  let chunk := firstn (Z.to_nat 100) (f_rest inp) in
  exists cfx',
    write_partial_block Reference.lib inp [] 100 cfx
    = (CDK_Success,
       mkFILE (f_stat inp) (skipn (Z.to_nat 100) (f_rest inp)) (f_eof inp),
       [] ++ [100] ++ enc_bytes Reference.lib (hd cfx) chunk, 0, cfx')
    /\ blkmode_nleft cfx' = 0.
Proof.
  apply (short_final_chunk Reference.lib
           (Reference.file_of (Sample.plain 100)) [] 100
           (Reference.context (Sample.dek8 0) 0 1 0)).
  - reflexivity.
  - lia.
  - vm_compute. congruence.
  - reflexivity.
Defined.

(** X17: num2bits and pow2 on a size_t that is not zero: num2bits is the
    binary logarithm, rounded down, and pow2 of it is the largest power of
    two that is not above the number. *)
Theorem num2bits_pow2_bracket (n : Z) :
  0 < n < 2 ^ 64 ->
  num2bits n = Z.log2 n
  /\ pow2 (num2bits n) = 2 ^ Z.log2 n
  /\ pow2 (num2bits n) <= n < 2 * pow2 (num2bits n).
Proof.
  intros Hn.
  assert (Hlog : 0 <= Z.log2 n < 64).
  { split; [apply Z.log2_nonneg|]. apply Z.log2_lt_pow2; lia. }
  rewrite num2bits_log2 by lia. rewrite pow2_spec by exact Hlog.
  split; [reflexivity|]. split; [reflexivity|].
  destruct (Z.log2_spec n ltac:(lia)) as [Hlo Hhi].
  rewrite Z.pow_succ_r in Hhi by lia. lia.
Qed.

Lemma num2bits_pow2_bracket_witness :
  num2bits 1000 = Z.log2 1000
  /\ pow2 (num2bits 1000) = 2 ^ Z.log2 1000
  /\ pow2 (num2bits 1000) <= 1000 < 2 * pow2 (num2bits 1000).
Proof.
  apply (num2bits_pow2_bracket 1000). lia.
Defined.

(** X18: read_header on a prefix that passes the self-check: it returns
    success with the stream right after the blocksize + 2 bytes of the
    prefix; with a digest method the context gets a new handle that holds
    the decrypted prefix; in block mode the prefix is taken off the chunk
    size, and nothing is taken off for a trailer. *)
Theorem read_header_accepts_a_good_prefix
    (X : externals) (cfx : cipher_filter_t X) (inp : FILE)
    (temp tail : list Z) :
  let bs := gcry_cipher_get_algo_blklen X (algo (dek cfx)) in
  let plain :=
    snd (gcry_cipher_decrypt X
           (keyed_handle X (dek cfx) (mdc_method cfx =? 0)) temp) in
  decode_ready X cfx ->
  f_rest inp = temp ++ tail ->
  Z.of_nat (length temp) = bs + 2 ->
  byte_at plain (bs - 2) = byte_at plain bs ->
  byte_at plain (bs - 1) = byte_at plain (bs + 1) ->
  exists cfx',
    read_header X cfx inp
    = (CDK_Success, cfx', mkFILE (f_stat inp) tail (f_eof inp))
    /\ blkmode_size cfx'
       = (if blkmode_on cfx =? 0 then blkmode_size cfx
          else blkmode_size cfx - (bs + 2))
    /\ mdc cfx'
       = (if mdc_method cfx =? 0
          then option_map (fun m => gcry_md_write m plain) (mdc cfx)
          else Some (mkMd (mdc_method cfx) plain false)).
Proof.
  intros bs plain Hready Hrest Htemp H1 H2.
  exists (prefix_context X cfx temp).
  split; [|split; reflexivity].
  now apply read_header_ready.
Qed.

Lemma read_header_accepts_a_good_prefix_witness :
  let cfx := Reference.context (Sample.dek8 1) GCRY_MD_SHA1 1 100 in
  let temp := prefix_cipher Reference.lib
                (Reference.context (Sample.dek8 1) 0 0 0) in
  let inp := mkFILE None (temp ++ [1; 2; 3]) false in
  let bs := gcry_cipher_get_algo_blklen Reference.lib (algo (dek cfx)) in
  let plain :=
    snd (gcry_cipher_decrypt Reference.lib
           (keyed_handle Reference.lib (dek cfx) (mdc_method cfx =? 0))
           temp) in
  exists cfx',
    read_header Reference.lib cfx inp
    = (CDK_Success, cfx', mkFILE (f_stat inp) [1; 2; 3] (f_eof inp))
    /\ blkmode_size cfx'
       = (if blkmode_on cfx =? 0 then blkmode_size cfx
          else blkmode_size cfx - (bs + 2))
    /\ mdc cfx'
       = (if mdc_method cfx =? 0
          then option_map (fun m => gcry_md_write m plain) (mdc cfx)
          else Some (mkMd (mdc_method cfx) plain false)).
Proof.
  apply (read_header_accepts_a_good_prefix Reference.lib
           (Reference.context (Sample.dek8 1) GCRY_MD_SHA1 1 100)
           (mkFILE None
              (prefix_cipher Reference.lib
                 (Reference.context (Sample.dek8 1) 0 0 0) ++ [1; 2; 3])
              false)
           (prefix_cipher Reference.lib
              (Reference.context (Sample.dek8 1) 0 0 0))
           [1; 2; 3]).
  - repeat split; try (vm_compute; congruence). cbn. lia.
  - reflexivity.
  - vm_compute. reflexivity.
  - vm_compute. reflexivity.
  - vm_compute. reflexivity.
Defined.

Lemma aligned_trailer_is_delivered_witness :
  let cfx0 := encode_context Reference.lib
                (Reference.context (Sample.dek8 1) 0 0 0)
                (Reference.file_of (Sample.plain 8170)) in
  let cfxd := Reference.context (Sample.dek8 1) GCRY_MD_SHA1 0 0 in
  let p := Sample.plain 8170 in
  let m := mkMd GCRY_MD_SHA1
             (prefix_plain Reference.lib
                (gcry_cipher_get_algo_blklen Reference.lib (algo (dek cfx0))))
             false in
  exists cfx' inp',
    cipher_decode Reference.lib (Some cfxd)
      (Some (mkFILE None (encoded_body Reference.lib cfx0 p) false))
      (Some [])
    = Returned CDK_Success cfx' inp'
        ([] ++ p ++ mdc_trailer Reference.lib m p).
Proof.
  apply (aligned_trailer_is_delivered Reference.lib
           (reference_stream_cipher Reference.blklen)
           (encode_context Reference.lib
              (Reference.context (Sample.dek8 1) 0 0 0)
              (Reference.file_of (Sample.plain 8170)))
           (Reference.context (Sample.dek8 1) GCRY_MD_SHA1 0 0)
           (Sample.plain 8170) [] None).
  - repeat split; vm_compute; congruence.
  - reflexivity.
  - reflexivity.
  - repeat split.
  - vm_compute. congruence.
  - vm_compute. reflexivity.
Defined.

Lemma forced_mdc_without_chunking_witness :
  let cfx := Reference.context (Sample.dek16 0) 0 0 0 in
  let inp := Reference.file_of [1; 2; 3] in
  let cfx0 := encode_context Reference.lib cfx inp in
  let bs := gcry_cipher_get_algo_blklen Reference.lib (algo (dek cfx)) in
  let m := mkMd GCRY_MD_SHA1 (prefix_plain Reference.lib bs) false in
  pkttype (header_packet Reference.lib cfx0) = CDK_PKT_ENCRYPTED_MDC
  /\ exists cfx',
       cipher_encode Reference.lib (Some cfx) (Some inp) (Some [])
       = Returned CDK_Success cfx' (mkFILE (f_stat inp) [] true)
           ([] ++ header_bytes Reference.lib cfx0
               ++ prefix_cipher Reference.lib cfx0
               ++ enc_bytes Reference.lib
                    (hd (header_context Reference.lib cfx0))
                    (f_rest inp ++ mdc_trailer Reference.lib m (f_rest inp))).
Proof.
  apply (forced_mdc_without_chunking Reference.lib
           (reference_stream_cipher Reference.blklen)
           (Reference.context (Sample.dek16 0) 0 0 0)
           (Reference.file_of [1; 2; 3]) []).
  - vm_compute. congruence.
  - repeat split; vm_compute; congruence.
  - reflexivity.
  - reflexivity.
  - vm_compute. congruence.
  - reflexivity.
Defined.
